(** * Hitori solver: a shallow embedding of HitoriSolver.cpp

    The development follows the source file top to bottom: the
    [DisjointSets] class (union-find with union by rank and path
    compression), the [Table] class (cells, per-row and per-column
    occurrence counts, the forest of shaded cells), the printing
    operator and the recursive [solve] driver.  [readTable] and [main],
    which parse a stream, are not part of the embedding.

    Conventions.
    - [unsigned] values are integers in [0, 2^32); every arithmetic
      operation on them is followed by [u32] (reduction modulo 2^32).
    - [int] values are plain integers.  The only [int] arithmetic of the
      program is on union-find ranks and on the offsets -1, 0, 1.
    - [std::vector::operator[]] outside the vector is undefined
      behaviour; the embedding returns [Undefined] there.
    - C++ exceptions are the [Throw] outcome.  The state of an object
      that threw is never observed by the program (the board is dropped
      by [solve]), so a throwing operation returns no state.
    - [while] loops and the mutual recursion of [finalizeCell] and
      [deleteCell] take fuel; [OutOfFuel] stands for a computation that
      was cut short, and the theorems below show that it does not occur
      on boards the program can build. *)

From Stdlib Require Import ZArith List Lia String Bool Ascii.
From stdpp Require Import base tactics option list.

Open Scope Z_scope.

(** ** Machine integers *)

Definition u32 (x : Z) : Z := x mod 2 ^ 32.

(** [static_cast<int>] of an unsigned value. *)
Definition to_int (x : Z) : Z := if x <? 2 ^ 31 then x else x - 2 ^ 32.

(** ** Outcomes *)

Inductive exn : Type :=
| range_error (what : string)
| logic_error (what : string)
| InvalidShapeException
| InvalidValueException
| MultipleStateChangeException
| NoSolutionExistsException (reason : string).

Inductive result (A : Type) : Type :=
| Ok (a : A)
| Throw (e : exn)
| Undefined
| OutOfFuel.

Arguments Ok {A} a.
Arguments Throw {A} e.
Arguments Undefined {A}.
Arguments OutOfFuel {A}.

Definition bind {A B} (m : result A) (k : A -> result B) : result B :=
  match m with
  | Ok a => k a
  | Throw e => Throw e
  | Undefined => Undefined
  | OutOfFuel => OutOfFuel
  end.

Notation "x <- m ;; k" := (bind m (fun x => k))
  (at level 100, m at next level, right associativity).

(** ** Vectors *)

Definition at_ {A} (v : list A) (i : Z) : result A :=
  if i <? 0 then Undefined
  else match v !! Z.to_nat i with
       | Some x => Ok x
       | None => Undefined
       end.

Definition set_at {A} (v : list A) (i : Z) (x : A) : result (list A) :=
  if (0 <=? i) && (i <? Z.of_nat (length v))
  then Ok (<[Z.to_nat i := x]> v)
  else Undefined.

Definition at2 {A} (m : list (list A)) (i j : Z) : result A :=
  row <- at_ m i ;; at_ row j.

Definition set_at2 {A} (m : list (list A)) (i j : Z) (x : A)
  : result (list (list A)) :=
  row <- at_ m i ;; row' <- set_at row j x ;; set_at m i row'.

(** ** Loops *)

(** [for (auto i = lo; ...; i++)] running [n] times. *)
Fixpoint for_loop {St} (n : nat) (i : Z) (body : Z -> St -> result St) (s : St)
  : result St :=
  match n with
  | O => Ok s
  | S n' => s' <- body i s ;; for_loop n' (i + 1) body s'
  end.

(** The four-step neighbour loops of [deleteCell]: the offsets are turned
    by a quarter after every step ([t = rOffs; rOffs = -cOffs; cOffs = t]). *)
Fixpoint offs_loop {St} (n : nat) (rOffs cOffs : Z)
    (body : Z -> Z -> St -> result St) (s : St) : result St :=
  match n with
  | O => Ok s
  | S n' => s' <- body rOffs cOffs s ;; offs_loop n' (- cOffs) rOffs body s'
  end.

(** ** DisjointSets *)

Record DisjointSets : Type := mkDisjointSets { parents : list Z }.

Definition DisjointSets_new (size : Z) : DisjointSets :=
  mkDisjointSets (replicate (Z.to_nat size) (-1)).

Definition assertElementRange (ds : DisjointSets) (e : Z) : result unit :=
  if (e <? 0) || (Z.of_nat (length (parents ds)) <=? e)
  then Throw (range_error "element index is out of range")
  else Ok tt.

(** [while (parents[root] >= 0) root = parents[root];] *)
Fixpoint findSet_root (fuel : nat) (p : list Z) (root : Z) : result Z :=
  match fuel with
  | O => OutOfFuel
  | S fuel' =>
      x <- at_ p root ;;
      if 0 <=? x then findSet_root fuel' p x else Ok root
  end.

(** [while (parents[e] >= 0) { parent = parents[e]; parents[e] = root; e = parent; }] *)
Fixpoint findSet_compress (fuel : nat) (p : list Z) (e root : Z)
  : result (list Z) :=
  match fuel with
  | O => OutOfFuel
  | S fuel' =>
      x <- at_ p e ;;
      if 0 <=? x
      then p' <- set_at p e root ;; findSet_compress fuel' p' x root
      else Ok p
  end.

Definition findSet (ds : DisjointSets) (e : Z) : result (Z * DisjointSets) :=
  _ <- assertElementRange ds e ;;
  root <- findSet_root (length (parents ds)) (parents ds) e ;;
  p' <- findSet_compress (length (parents ds)) (parents ds) e root ;;
  Ok (root, mkDisjointSets p').

Definition linkSets (ds : DisjointSets) (set1 set2 : Z) : result DisjointSets :=
  _ <- assertElementRange ds set1 ;;
  _ <- assertElementRange ds set2 ;;
  p1 <- at_ (parents ds) set1 ;;
  if 0 <=? p1 then Throw (logic_error "at least one element is not root") else
  p2 <- at_ (parents ds) set2 ;;
  if 0 <=? p2 then Throw (logic_error "at least one element is not root") else
  if set1 =? set2 then Ok ds else
  let rank1 := - p1 - 1 in
  let rank2 := - p2 - 1 in
  if rank1 <? rank2 then
    p' <- set_at (parents ds) set1 set2 ;; Ok (mkDisjointSets p')
  else if rank2 <? rank1 then
    p' <- set_at (parents ds) set2 set1 ;; Ok (mkDisjointSets p')
  else
    p' <- set_at (parents ds) set1 set2 ;;
    x <- at_ p' set2 ;;
    p'' <- set_at p' set2 (x - 1) ;;
    Ok (mkDisjointSets p'').

Definition unionSets (ds : DisjointSets) (e1 e2 : Z) : result DisjointSets :=
  f1 <- findSet ds e1 ;;
  f2 <- findSet (snd f1) e2 ;;
  linkSets (snd f2) (fst f1) (fst f2).

(** ** Table *)

Inductive State : Type := Unknown | Final | Deleted.

Definition State_eqb (a b : State) : bool :=
  match a, b with
  | Unknown, Unknown | Final, Final | Deleted, Deleted => true
  | _, _ => false
  end.

Record Cell : Type := mkCell { value : Z; state : State }.

Definition setState (c : Cell) (newState : State) : Cell :=
  mkCell (value c) newState.

Record Table : Type := mkTable {
  size : Z;
  cells : list (list Cell);
  rowCounts : list (list Z);
  columnCounts : list (list Z);
  unknownCellCount : Z;
  deletedTrees : DisjointSets
}.

(** *** Constructor *)

(** The inner loop of the constructor, over the values of one row. *)
Fixpoint Table_new_row (size actRow actColumn : Z) (row : list Z)
    (rowCells : list Cell) (rc cc : list (list Z))
  : result (list Cell * list (list Z) * list (list Z)) :=
  match row with
  | [] => Ok (rowCells, rc, cc)
  | v :: row' =>
      if (v =? 0) || (size <? v) then Throw InvalidValueException else
      x <- at2 rc actRow v ;;
      rc' <- set_at2 rc actRow v (u32 (x + 1)) ;;
      y <- at2 cc actColumn v ;;
      cc' <- set_at2 cc actColumn v (u32 (y + 1)) ;;
      Table_new_row size actRow (u32 (actColumn + 1)) row'
        (rowCells ++ [mkCell v Unknown]) rc' cc'
  end.

(** The outer loop of the constructor, over the rows. *)
Fixpoint Table_new_rows (size actRow : Z) (rows : list (list Z))
    (cs : list (list Cell)) (rc cc : list (list Z))
  : result (list (list Cell) * list (list Z) * list (list Z)) :=
  match rows with
  | [] => Ok (cs, rc, cc)
  | row :: rows' =>
      if negb (Z.of_nat (length row) =? size) then Throw InvalidShapeException else
      x <- Table_new_row size actRow 0 row [] rc cc ;;
      let '(rowCells, rc', cc') := x in
      Table_new_rows size (u32 (actRow + 1)) rows' (cs ++ [rowCells]) rc' cc'
  end.

Definition Table_new (initValues : list (list Z)) : result Table :=
  let size := u32 (Z.of_nat (length initValues)) in
  let counts := replicate (Z.to_nat size) (replicate (Z.to_nat (u32 (size + 1))) 0) in
  x <- Table_new_rows size 0 initValues [] counts counts ;;
  let '(cs, rc, cc) := x in
  Ok (mkTable size cs rc cc (u32 (size * size))
        (DisjointSets_new (u32 (size * size + 1)))).

Definition isSolved (t : Table) : bool := unknownCellCount t =? 0.

(** *** Field updates *)

Definition set_cell_state (t : Table) (r c : Z) (st : State) : result Table :=
  cell <- at2 (cells t) r c ;;
  cs <- set_at2 (cells t) r c (setState cell st) ;;
  Ok (mkTable (size t) cs (rowCounts t) (columnCounts t)
        (unknownCellCount t) (deletedTrees t)).

Definition set_rowCount (t : Table) (r v x : Z) : result Table :=
  rc <- set_at2 (rowCounts t) r v x ;;
  Ok (mkTable (size t) (cells t) rc (columnCounts t)
        (unknownCellCount t) (deletedTrees t)).

Definition set_columnCount (t : Table) (c v x : Z) : result Table :=
  cc <- set_at2 (columnCounts t) c v x ;;
  Ok (mkTable (size t) (cells t) (rowCounts t) cc
        (unknownCellCount t) (deletedTrees t)).

Definition set_unknownCellCount (t : Table) (x : Z) : Table :=
  mkTable (size t) (cells t) (rowCounts t) (columnCounts t) x (deletedTrees t).

Definition set_deletedTrees (t : Table) (ds : DisjointSets) : Table :=
  mkTable (size t) (cells t) (rowCounts t) (columnCounts t)
    (unknownCellCount t) ds.

(** [rowCounts[row][value]--; columnCounts[column][value]--; unknownCellCount--;] *)
Definition decrement_counts (t : Table) (row column value : Z) : result Table :=
  x <- at2 (rowCounts t) row value ;;
  t1 <- set_rowCount t row value (u32 (x - 1)) ;;
  y <- at2 (columnCounts t1) column value ;;
  t2 <- set_columnCount t1 column value (u32 (y - 1)) ;;
  Ok (set_unknownCellCount t2 (u32 (unknownCellCount t2 - 1))).

(** *** finalizeUniqueCells *)

Definition finalizeUniqueCells_body (r c : Z) (t : Table) : result Table :=
  cell <- at2 (cells t) r c ;;
  match state cell with
  | Unknown =>
      let value := value cell in
      x <- at2 (rowCounts t) r value ;;
      if negb (x =? 1) then Ok t else
      y <- at2 (columnCounts t) c value ;;
      if negb (y =? 1) then Ok t else
      t1 <- set_cell_state t r c Final ;;
      t2 <- set_rowCount t1 r value 0 ;;
      t3 <- set_columnCount t2 c value 0 ;;
      Ok (set_unknownCellCount t3 (u32 (unknownCellCount t3 - 1)))
  | _ => Ok t
  end.

Definition finalizeUniqueCells (t : Table) : result Table :=
  for_loop (Z.to_nat (size t)) 0
    (fun r t => for_loop (Z.to_nat (size t)) 0
                  (fun c t => finalizeUniqueCells_body r c t) t) t.

(** *** finalizeCell and deleteCell *)

Definition in_grid (t : Table) (r c : Z) : bool :=
  (0 <=? r) && (r <? size t) && (0 <=? c) && (c <? size t).

Section Cascade.

(** The two methods call each other; each body is written against the
    other method, and the knot is tied by fuel below. *)
Variable deleteCell_rec : Table -> Z -> Z -> result Table.
Variable finalizeCell_rec : Table -> Z -> Z -> result Table.

Definition finalizeCell_column_step (row column val : Z) (r : Z) (t : Table)
  : result Table :=
  cell <- at2 (cells t) r column ;;
  if negb (r =? row) && (value cell =? val) then
    match state cell with
    | Final => Throw (NoSolutionExistsException
                        "multiple finalized values found in a column")
    | Unknown => deleteCell_rec t r column
    | Deleted => Ok t
    end
  else Ok t.

Definition finalizeCell_row_step (row column val : Z) (c : Z) (t : Table)
  : result Table :=
  cell <- at2 (cells t) row c ;;
  if negb (c =? column) && (value cell =? val) then
    match state cell with
    | Final => Throw (NoSolutionExistsException
                        "multiple finalized values found in a row")
    | Unknown => deleteCell_rec t row c
    | Deleted => Ok t
    end
  else Ok t.

Definition finalizeCell_body (t : Table) (row column : Z) : result Table :=
  cell <- at2 (cells t) row column ;;
  if negb (State_eqb (state cell) Unknown)
  then Throw MultipleStateChangeException else
  t <- set_cell_state t row column Final ;;
  let value := value cell in
  t <- decrement_counts t row column value ;;
  y <- at2 (columnCounts t) column value ;;
  t <- (if 0 <? y
        then for_loop (Z.to_nat (size t)) 0
               (finalizeCell_column_step row column value) t
        else Ok t) ;;
  x <- at2 (rowCounts t) row value ;;
  if 0 <? x
  then for_loop (Z.to_nat (size t)) 0 (finalizeCell_row_step row column value) t
  else Ok t.

(** First loop of [deleteCell]: the four orthogonal neighbours. *)
Definition deleteCell_neighbor_step (t : Table) (row column : Z)
    (rOffs cOffs : Z) (_ : unit) : result unit :=
  let r := u32 (row + rOffs) in
  let c := u32 (column + cOffs) in
  if in_grid t r c then
    n <- at2 (cells t) r c ;;
    if State_eqb (state n) Deleted
    then Throw (NoSolutionExistsException "deleted neighbor found")
    else Ok tt
  else Ok tt.

(** Second loop of [deleteCell]: the four diagonal neighbours. *)
Definition deleteCell_diagonal_step (t : Table) (row column cellSet : Z)
    (rOffs cOffs : Z) (ds : DisjointSets) : result DisjointSets :=
  let r := u32 (row + rOffs) in
  let c := u32 (column + cOffs) in
  let diagonalNeighborSet := to_int (u32 (r * size t + c + 1)) in
  if in_grid t r c then
    n <- at2 (cells t) r c ;;
    if State_eqb (state n) Deleted then
      f1 <- findSet ds diagonalNeighborSet ;;
      let diagonalRoot := fst f1 in
      f2 <- findSet (snd f1) cellSet ;;
      let cellRoot := fst f2 in
      if negb (diagonalRoot =? cellRoot)
      then linkSets (snd f2) diagonalRoot cellRoot
      else Throw (NoSolutionExistsException "circular neighbors found")
    else Ok ds
  else Ok ds.

(** Third loop of [deleteCell]: the neighbours that are forced to stay. *)
Definition deleteCell_force_step (row column : Z) (rOffs cOffs : Z) (t : Table)
  : result Table :=
  let r := u32 (row + rOffs) in
  let c := u32 (column + cOffs) in
  if in_grid t r c then
    n <- at2 (cells t) r c ;;
    if State_eqb (state n) Unknown then finalizeCell_rec t r c else Ok t
  else Ok t.

Definition on_border (t : Table) (row column : Z) : bool :=
  (row =? 0) || (row =? u32 (size t - 1))
  || (column =? 0) || (column =? u32 (size t - 1)).

(** Everything [deleteCell] does before it changes the cell: the two
    topology checks, which update the forest of shaded cells. *)
Definition deleteCell_checks (t : Table) (row column : Z) : result DisjointSets :=
  _ <- offs_loop 4 0 (-1) (deleteCell_neighbor_step t row column) tt ;;
  let cellSet := to_int (u32 (row * size t + column + 1)) in
  ds <- (if on_border t row column
         then unionSets (deletedTrees t) 0 cellSet
         else Ok (deletedTrees t)) ;;
  offs_loop 4 (-1) (-1) (deleteCell_diagonal_step t row column cellSet) ds.

Definition deleteCell_body (t : Table) (row column : Z) : result Table :=
  cell <- at2 (cells t) row column ;;
  if negb (State_eqb (state cell) Unknown)
  then Throw MultipleStateChangeException else
  ds <- deleteCell_checks t row column ;;
  let t := set_deletedTrees t ds in
  t <- set_cell_state t row column Deleted ;;
  let value := value cell in
  t <- decrement_counts t row column value ;;
  offs_loop 4 0 1 (deleteCell_force_step row column) t.

End Cascade.

Fixpoint finalizeCell (fuel : nat) (t : Table) (row column : Z) {struct fuel}
  : result Table :=
  match fuel with
  | O => OutOfFuel
  | S fuel' => finalizeCell_body (deleteCell fuel') t row column
  end
with deleteCell (fuel : nat) (t : Table) (row column : Z) {struct fuel}
  : result Table :=
  match fuel with
  | O => OutOfFuel
  | S fuel' => deleteCell_body (finalizeCell fuel') t row column
  end.

(** *** getFinalizeCandidatePos *)

Definition candidate_step (t : Table) (r c v : Z) (acc : Z * Z * Z)
  : result (Z * Z * Z) :=
  let '(rMax, cMax, maxCount) := acc in
  cell <- at2 (cells t) r c ;;
  if State_eqb (state cell) Unknown then
    x <- at2 (rowCounts t) r v ;;
    y <- at2 (columnCounts t) c v ;;
    let actCount := u32 (x + y - 1) in
    if maxCount <? actCount then Ok (r, c, actCount) else Ok acc
  else Ok acc.

Definition getFinalizeCandidatePos (t : Table) : result (Z * Z) :=
  let n := Z.to_nat (size t) in
  acc <- for_loop n 0
           (fun r => for_loop n 0 (fun c => for_loop n 1 (candidate_step t r c)))
           (0, 0, 0) ;;
  let '(rMax, cMax, _) := acc in
  Ok (rMax, cMax).

(** ** operator<< *)

(** The text written to the stream, as a list of characters.  The
    stream is taken as [main] uses [std::cout]: decimal numbers, and
    fields filled with blanks on the left. *)

(** [do { tableSize /= 10; digits++; } while (tableSize > 0);] *)
Fixpoint count_digits (fuel : nat) (tableSize digits : Z) : result Z :=
  match fuel with
  | O => OutOfFuel
  | S fuel' =>
      let tableSize := tableSize / 10 in
      let digits := digits + 1 in
      if 0 <? tableSize then count_digits fuel' tableSize digits else Ok digits
  end.

(** [out << value] for an unsigned value: its decimal digits. *)
Definition digit_char (d : Z) : ascii := ascii_of_nat (48 + Z.to_nat d).

Fixpoint decimal_digits (fuel : nat) (v : Z) : list ascii :=
  match fuel with
  | O => []
  | S fuel' =>
      (if v <? 10 then [] else decimal_digits fuel' (v / 10))
      ++ [digit_char (v mod 10)]
  end.

Definition decimal (v : Z) : list ascii := decimal_digits (S (Z.to_nat v)) v.

(** [out << std::setw(w) << s]: [s] after the blanks that fill a field
    of [w] characters; a longer [s] is written whole. *)
Definition setw (w : Z) (s : list ascii) : list ascii :=
  replicate (Z.to_nat (w - Z.of_nat (length s))) " "%char ++ s.

Definition print_cell (digits : Z) (cell : Cell) : list ascii :=
  setw digits (match state cell with
               | Deleted => ["-"%char]
               | Final => decimal (value cell)
               | Unknown => ["?"%char]
               end) ++ [" "%char].

Definition print_row (digits : Z) (row : list Cell) : list ascii :=
  flat_map (print_cell digits) row ++ ["010"%char].

Definition print_table (t : Table) : result (list ascii) :=
  digits <- count_digits (S (Z.to_nat (size t))) (size t) 0 ;;
  Ok (flat_map (print_row digits) (cells t)).

(** ** solve *)

Definition is_NoSolutionExists {A} (r : result A) : bool :=
  match r with
  | Throw (NoSolutionExistsException _) => true
  | _ => false
  end.

Fixpoint solve (fuel : nat) (t : Table) : result Table :=
  match fuel with
  | O => OutOfFuel
  | S fuel' =>
      t <- finalizeUniqueCells t ;;
      if isSolved t then Ok t else
      pos <- getFinalizeCandidatePos t ;;
      let '(row, column) := pos in
      let attempt :=
        tCopy <- finalizeCell fuel t row column ;; solve fuel' tCopy in
      if is_NoSolutionExists attempt
      then t <- deleteCell fuel t row column ;; solve fuel' t
      else attempt
  end.

(** ** Vocabulary of the specification *)

(** [rpred Q E U O r]: the outcome [r] is a value satisfying [Q], or an
    exception satisfying [E]; [U] and [O] say whether an undefined
    access and a fuel shortage are admitted. *)
Definition rpred {A} (Q : A -> Prop) (E : exn -> Prop) (U O : Prop)
    (r : result A) : Prop :=
  match r with
  | Ok a => Q a
  | Throw e => E e
  | Undefined => U
  | OutOfFuel => O
  end.

Definition is_contradiction (e : exn) : Prop :=
  exists reason, e = NoSolutionExistsException reason.

(** The side length as a natural number, and the cell at a position. *)
Definition dim (t : Table) : nat := Z.to_nat (size t).

Definition cell_at (t : Table) (r c : nat) : option Cell :=
  match cells t !! r with
  | Some row => row !! c
  | None => None
  end.

Definition unknown_at (t : Table) (r c : nat) : bool :=
  match cell_at t r c with
  | Some cell => State_eqb (state cell) Unknown
  | None => false
  end.

Definition unknown_with (t : Table) (v : Z) (r c : nat) : bool :=
  match cell_at t r c with
  | Some cell => (value cell =? v) && State_eqb (state cell) Unknown
  | None => false
  end.

Fixpoint count_upto (n : nat) (p : nat -> bool) : nat :=
  match n with
  | O => O
  | S n' => ((if p n' then 1 else 0) + count_upto n' p)%nat
  end.

Fixpoint sum_upto (n : nat) (f : nat -> nat) : nat :=
  match n with
  | O => O
  | S n' => (f n' + sum_upto n' f)%nat
  end.

(** Number of Unknown cells of value [v] in row [r], in column [c], and
    number of Unknown cells of the board. *)
Definition row_unknowns (t : Table) (r : nat) (v : Z) : nat :=
  count_upto (dim t) (fun c => unknown_with t v r c).

Definition column_unknowns (t : Table) (c : nat) (v : Z) : nat :=
  count_upto (dim t) (fun r => unknown_with t v r c).

Definition unknowns (t : Table) : nat :=
  sum_upto (dim t) (fun r => count_upto (dim t) (fun c => unknown_at t r c)).

Definition count_in (m : list (list Z)) (i v : nat) : option Z :=
  match m !! i with
  | Some l => l !! v
  | None => None
  end.

(** The shape the constructor gives a board and no method changes. *)
Record shape_ok (t : Table) : Prop := mk_shape_ok {
  shape_size : 0 <= size t < 2 ^ 32;
  shape_unknownCellCount : 0 <= unknownCellCount t < 2 ^ 32;
  shape_cells : dim t = 0%nat \/ length (cells t) = dim t;
  shape_rows : forall r row, cells t !! r = Some row -> length row = dim t;
  shape_values : forall r c cell,
      cell_at t r c = Some cell -> 1 <= value cell <= size t;
  shape_rowCounts : length (rowCounts t) = dim t;
  shape_rowCounts_rows : forall r l,
      rowCounts t !! r = Some l -> length l = S (dim t);
  shape_columnCounts : length (columnCounts t) = dim t;
  shape_columnCounts_rows : forall c l,
      columnCounts t !! c = Some l -> length l = S (dim t)
}.

(** The invariant of section 3 of the specification: the counts are the
    numbers of Unknown cells. *)
Definition counts_ok (t : Table) : Prop :=
  forall i v, (i < dim t)%nat -> (v <= dim t)%nat ->
    count_in (rowCounts t) i v = Some (Z.of_nat (row_unknowns t i (Z.of_nat v)))
    /\ count_in (columnCounts t) i v
       = Some (Z.of_nat (column_unknowns t i (Z.of_nat v))).

(** The parent links form a forest: they stay inside the vector and
    climb along some rank. *)
Definition forest_with (rk : nat -> nat) (p : list Z) : Prop :=
  forall i x, p !! i = Some x -> 0 <= x ->
    (Z.to_nat x < length p)%nat /\ (rk i < rk (Z.to_nat x))%nat.

Definition forest_ok (p : list Z) : Prop := exists rk, forest_with rk p.

(** The part of the invariant that needs a board of a size the program's
    index arithmetic can address. *)
Record trees_ok (t : Table) : Prop := mk_trees_ok {
  trees_bound : size t * size t + 1 < 2 ^ 31;
  trees_length : length (parents (deletedTrees t))
                 = Z.to_nat (size t * size t + 1);
  trees_forest : forest_ok (parents (deletedTrees t));
  trees_unknown : unknownCellCount t = Z.of_nat (unknowns t)
}.

Record Inv (t : Table) : Prop := mk_Inv {
  Inv_shape : shape_ok t;
  Inv_counts : counts_ok t;
  Inv_trees : trees_ok t
}.

(** The board [t] after its Unknown cell [cell] at row [r], column [c]
    took the state [st] and the counts were brought up to date. *)
Definition settle (t : Table) (r c : nat) (row : list Cell) (cell : Cell)
    (lr lc : list Z) (st : State) : Table :=
  let v := Z.to_nat (value cell) in
  mkTable (size t)
    (<[r := <[c := setState cell st]> row]> (cells t))
    (<[r := <[v := Z.of_nat (row_unknowns t r (value cell)) - 1]> lr]> (rowCounts t))
    (<[c := <[v := Z.of_nat (column_unknowns t c (value cell)) - 1]> lc]>
       (columnCounts t))
    (u32 (unknownCellCount t - 1)) (deletedTrees t).

(** Boards the public interface can produce. *)
Inductive reachable : Table -> Prop :=
| reachable_new initValues t :
    Table_new initValues = Ok t -> reachable t
| reachable_finalizeUniqueCells t t' :
    reachable t -> finalizeUniqueCells t = Ok t' -> reachable t'
| reachable_finalizeCell fuel t row column t' :
    reachable t -> finalizeCell fuel t row column = Ok t' -> reachable t'
| reachable_deleteCell fuel t row column t' :
    reachable t -> deleteCell fuel t row column = Ok t' -> reachable t'.

(** The boards on which [solve] calls itself. *)
Definition solve_calls (t t' : Table) : Prop :=
  exists t1 row column fuel,
    finalizeUniqueCells t = Ok t1 /\ isSolved t1 = false /\
    getFinalizeCandidatePos t1 = Ok (row, column) /\
    (finalizeCell fuel t1 row column = Ok t'
     \/ deleteCell fuel t1 row column = Ok t').

(** The root of an element: the end of its chain of parent links. *)
Inductive root_of (p : list Z) : Z -> Z -> Prop :=
| root_of_here e x : at_ p e = Ok x -> x < 0 -> root_of p e e
| root_of_step e x r :
    at_ p e = Ok x -> 0 <= x -> root_of p x r -> root_of p e r.

(** The scan of [getFinalizeCandidatePos]: row-major over the Unknown
    cells, values ascending. *)
Definition scan (t : Table) : list (nat * nat * nat) :=
  flat_map (fun r =>
    flat_map (fun c =>
      if unknown_at t r c
      then map (fun v => (r, c, v)) (seq 1 (dim t))
      else []) (seq 0 (dim t))) (seq 0 (dim t)).

Definition score (t : Table) (x : nat * nat * nat) : Z :=
  let '(r, c, v) := x in
  match count_in (rowCounts t) r v, count_in (columnCounts t) c v with
  | Some a, Some b => u32 (a + b - 1)
  | _, _ => 0
  end.

(** [x] is the first element of [l] at which [f] is greatest. *)
Definition first_max {X} (f : X -> Z) (l : list X) (x : X) : Prop :=
  exists l1 l2, l = l1 ++ x :: l2
    /\ (forall y, In y l1 -> f y < f x)
    /\ (forall y, In y l2 -> f y <= f x).

(** The values of the Final cells of a row, left to right. *)
Definition final_values (row : list Cell) : list Z :=
  map value (List.filter (fun cell => State_eqb (state cell) Final) row).

Definition states (t : Table) : list (list State) := map (map state) (cells t).

(** ** Vocabulary of the proofs *)

(** *** The scan of finalizeUniqueCells *)

(** What one step of the scan does when it finalizes the cell. *)
Definition finalized_by (r c : Z) (t t' : Table) : Prop :=
  exists row cell lr lc,
    0 <= r /\ 0 <= c /\
    cells t !! Z.to_nat r = Some row /\ row !! Z.to_nat c = Some cell /\
    state cell = Unknown /\
    rowCounts t !! Z.to_nat r = Some lr /\
    columnCounts t !! Z.to_nat c = Some lc /\
    0 <= value cell /\
    lr !! Z.to_nat (value cell) = Some 1 /\
    lc !! Z.to_nat (value cell) = Some 1 /\
    t' = mkTable (size t)
           (<[Z.to_nat r := <[Z.to_nat c := setState cell Final]> row]> (cells t))
           (<[Z.to_nat r := <[Z.to_nat (value cell) := 0]> lr]> (rowCounts t))
           (<[Z.to_nat c := <[Z.to_nat (value cell) := 0]> lc]> (columnCounts t))
           (u32 (unknownCellCount t - 1)) (deletedTrees t).

(** Every position before [(r, c)] in row-major order is at rest: the
    step of the scan there leaves the board as it is. *)
Definition settled_before (r c : Z) (s : Table) : Prop :=
  forall r' c',
    (0 <= r' < r /\ 0 <= c' < size s) \/ (r' = r /\ 0 <= c' < c) ->
    finalizeUniqueCells_body r' c' s = Ok s.

(** *** The cascade of finalizeCell and deleteCell *)

(** The invariant of the cascade.  [B] says that the board is small
    enough for the forest of shaded cells to be addressed; without it
    only the shape and the counts are followed. *)
Definition board_ok (B : Prop) (t : Table) : Prop :=
  shape_ok t /\ counts_ok t /\ (B -> trees_ok t).

Definition cascade_exn (B : Prop) (e : exn) : Prop :=
  e <> MultipleStateChangeException /\ (B -> is_contradiction e).

(** [s'] is a sound board of the same size with fewer Unknown cells. *)
Definition decided (B : Prop) (s s' : Table) : Prop :=
  board_ok B s' /\ size s' = size s /\ (unknowns s' < unknowns s)%nat.

Definition forest_kept (len : nat) (ds : DisjointSets) : Prop :=
  length (parents ds) = len /\ forest_ok (parents ds).

Definition not_of_board (e : exn) : Prop :=
  e <> MultipleStateChangeException /\ ~ is_contradiction e.

(** What a body may assume of the method it calls: it behaves on every
    sound board with fewer than [bound] Unknown cells. *)
Definition cascade_callee (B OO : Prop) (bound : nat)
    (callee : Table -> Z -> Z -> result Table) : Prop :=
  forall s r c,
    board_ok B s -> (unknowns s < bound)%nat ->
    0 <= r < size s -> 0 <= c < size s ->
    unknown_at s (Z.to_nat r) (Z.to_nat c) = true ->
    rpred (decided B s) (cascade_exn B) (~ B) OO (callee s r c).

Definition method_exn (B : Prop) (t : Table) (row column : Z) (e : exn) : Prop :=
  (e = MultipleStateChangeException
   /\ unknown_at t (Z.to_nat row) (Z.to_nat column) = false)
  \/ (unknown_at t (Z.to_nat row) (Z.to_nat column) = true /\ cascade_exn B e).

Definition outside (t : Table) (row column : Z) : Prop :=
  ~ (0 <= row < size t /\ 0 <= column < size t).

(** *** The scan for the candidate *)

(** One comparison of the scan, on the running best position and score. *)
Definition best_step (t : Table) (acc : Z * Z * Z) (x : nat * nat * nat)
  : Z * Z * Z :=
  let '(r, c, _) := x in
  if snd acc <? score t x then (Z.of_nat r, Z.of_nat c, score t x) else acc.

(** *** The board under construction *)

(** The board under construction: the rows read so far, the row being
    read, and the counts. *)
Definition partial_table (sz : Z) (cs : list (list Cell)) (rowCells : list Cell)
    (rc cc : list (list Z)) : Table :=
  mkTable sz (cs ++ [rowCells]) rc cc 0 (mkDisjointSets []).

Record partial_ok (sz : Z) (cs : list (list Cell)) (rowCells : list Cell)
    (rc cc : list (list Z)) : Prop := mk_partial_ok {
  partial_rows : forall r row, cs !! r = Some row -> length row = Z.to_nat sz;
  partial_cells : forall r c cell,
      cell_at (partial_table sz cs rowCells rc cc) r c = Some cell ->
      1 <= value cell <= sz /\ state cell = Unknown;
  partial_rc : length rc = Z.to_nat sz;
  partial_rc_rows : forall r l, rc !! r = Some l -> length l = S (Z.to_nat sz);
  partial_cc : length cc = Z.to_nat sz;
  partial_cc_rows : forall r l, cc !! r = Some l -> length l = S (Z.to_nat sz);
  partial_counts : counts_ok (partial_table sz cs rowCells rc cc)
}.

(** *** The topology checks of deleteCell *)

Definition orthogonal_neighbors (row column : Z) : list (Z * Z) :=
  [(row, column - 1); (row + 1, column); (row, column + 1); (row - 1, column)].

Definition diagonal_neighbors (row column : Z) : list (Z * Z) :=
  [(row - 1, column - 1); (row + 1, column - 1);
   (row + 1, column + 1); (row - 1, column + 1)].

(** The position [p] lies in the grid and its cell has state [st]. *)
Definition has_state (t : Table) (st : State) (p : Z * Z) : bool :=
  (0 <=? fst p) && (fst p <? size t) && (0 <=? snd p) && (snd p <? size t)
  && match cell_at t (Z.to_nat (fst p)) (Z.to_nat (snd p)) with
     | Some cell => State_eqb (state cell) st
     | None => false
     end.

Definition has_deleted_neighbor (t : Table) (row column : Z) : bool :=
  existsb (has_state t Deleted) (orthogonal_neighbors row column).

(** The union-find element of a position. *)
Definition element_of (t : Table) (p : Z * Z) : Z := fst p * size t + snd p + 1.

Definition deleted_diagonals (t : Table) (row column : Z) : list Z :=
  map (element_of t)
    (List.filter (has_state t Deleted) (diagonal_neighbors row column)).

Definition touches_border (t : Table) (row column : Z) : bool :=
  (row =? 0) || (row =? size t - 1) || (column =? 0) || (column =? size t - 1).

(** The forest after a border cell was united with the border element 0. *)
Definition border_union (t : Table) (row column : Z) : result DisjointSets :=
  if touches_border t row column
  then unionSets (deletedTrees t) 0 (element_of t (row, column))
  else Ok (deletedTrees t).

(** Going through the Deleted diagonal neighbours in order and uniting
    each with the cell, one of them has the root of the cell before its
    union is made. *)
Inductive closes_cycle : DisjointSets -> Z -> list Z -> Prop :=
| closes_cycle_here ds cellSet d rest root :
    root_of (parents ds) d root -> root_of (parents ds) cellSet root ->
    closes_cycle ds cellSet (d :: rest)
| closes_cycle_later ds cellSet d rest ds' :
    (forall root, root_of (parents ds) d root ->
                  ~ root_of (parents ds) cellSet root) ->
    unionSets ds d cellSet = Ok ds' ->
    closes_cycle ds' cellSet rest ->
    closes_cycle ds cellSet (d :: rest).

Definition deleted_neighbor_found : exn :=
  NoSolutionExistsException "deleted neighbor found".

Definition circular_neighbors_found : exn :=
  NoSolutionExistsException "circular neighbors found".

(** One diagonal neighbour: unite it with the cell unless they already
    share a root. *)
Definition unite_or_cycle (cellSet : Z) (ds : DisjointSets) (d : Z)
  : result DisjointSets :=
  f1 <- findSet ds d ;;
  f2 <- findSet (snd f1) cellSet ;;
  if negb (fst f1 =? fst f2)
  then linkSets (snd f2) (fst f1) (fst f2)
  else Throw circular_neighbors_found.

Fixpoint unite_all (cellSet : Z) (l : list Z) (ds : DisjointSets)
  : result DisjointSets :=
  match l with
  | [] => Ok ds
  | d :: rest => ds' <- unite_or_cycle cellSet ds d ;; unite_all cellSet rest ds'
  end.

(** The diagonal neighbours one after the other, each tested. *)
Fixpoint probe_all (t : Table) (cellSet : Z) (ps : list (Z * Z))
    (ds : DisjointSets) : result DisjointSets :=
  match ps with
  | [] => Ok ds
  | p :: ps' =>
      ds' <- (if has_state t Deleted p
              then unite_or_cycle cellSet ds (element_of t p)
              else Ok ds) ;;
      probe_all t cellSet ps' ds'
  end.

(** The board [t'] is [t] with the forest [ds] and the Unknown cell at
    (row, column) shaded, its counts brought up to date. *)
Definition shaded (t : Table) (row column : Z) (ds : DisjointSets) (t' : Table)
  : Prop :=
  exists rw cell lr lc,
    cells t !! Z.to_nat row = Some rw /\ rw !! Z.to_nat column = Some cell
    /\ rowCounts t !! Z.to_nat row = Some lr
    /\ columnCounts t !! Z.to_nat column = Some lc
    /\ t' = settle (set_deletedTrees t ds) (Z.to_nat row) (Z.to_nat column)
              rw cell lr lc Deleted.

(** ** Worked boards *)

Definition empty_table : Table := mkTable 0 [] [] [] 0 (mkDisjointSets []).

Definition new_or_empty (initValues : list (list Z)) : Table :=
  match Table_new initValues with
  | Ok t => t
  | _ => empty_table
  end.

(** A 3x3 puzzle that has a solution (shade the cells (0,0) and (1,1)). *)
Definition puzzle_3x3 : list (list Z) := [[1; 1; 2]; [3; 2; 1]; [1; 2; 3]].

Definition board_3x3 : Table := Eval vm_compute in new_or_empty puzzle_3x3.

(** A 2x2 puzzle on which the first branch of [solve] fails. *)
Definition puzzle_2x2 : list (list Z) := [[1; 1]; [1; 2]].

Definition board_2x2 : Table := Eval vm_compute in new_or_empty puzzle_2x2.

(** A 3x3 board whose middle row reads 2 1 2. *)
Definition puzzle_212 : list (list Z) := [[1; 2; 3]; [2; 1; 2]; [3; 3; 1]].

Definition board_212 : Table := Eval vm_compute in new_or_empty puzzle_212.

(** ** Vocabulary of the further properties *)

(** *** DisjointSets *)

Definition same_set (p : list Z) (a b : Z) : Prop :=
  exists r, root_of p a r /\ root_of p b r.

Definition out_of_range : exn := range_error "element index is out of range".

Definition not_root : exn := logic_error "at least one element is not root".

(** *** The constructor *)

(** The cells of a board read from a matrix of values. *)
Definition fresh_cells (initValues : list (list Z)) : list (list Cell) :=
  map (map (fun v => mkCell v Unknown)) initValues.

(** A square matrix of side [n] with values in 1..n. *)
Definition well_formed (n : Z) (initValues : list (list Z)) : Prop :=
  Forall (fun row => Z.of_nat (length row) = n /\ Forall (fun v => 1 <= v <= n) row)
    initValues.

(** What the constructor rejects, and with which exception. *)
Definition rejected (n : Z) (initValues : list (list Z)) (e : exn) : Prop :=
  (e = InvalidShapeException
   /\ Exists (fun row => Z.of_nat (length row) <> n) initValues)
  \/ (e = InvalidValueException
      /\ Exists (Exists (fun v => v = 0 \/ n < v)) initValues).

Definition counts_shape (sz : Z) (m : list (list Z)) : Prop :=
  length m = Z.to_nat sz /\ forall r l, m !! r = Some l -> length l = S (Z.to_nat sz).

(** Occurrences of [v] in a row, and in column [c] of a matrix. *)
Definition occurrences (v : Z) (row : list Z) : nat :=
  length (List.filter (Z.eqb v) row).

Definition column_occurrences (v : Z) (c : nat) (m : list (list Z)) : nat :=
  length (List.filter (fun row => match row !! c with
                                  | Some x => Z.eqb v x
                                  | None => false
                                  end) m).

(** *** Decisions *)

(** One cell decided: an Unknown cell made Final, or an Unknown cell
    that passed the topology checks made Deleted, with the counts
    brought up to date. *)
Inductive decision (t : Table) : Table -> Prop :=
| decision_final row column cell t1 t2 :
    at2 (cells t) row column = Ok cell -> state cell = Unknown ->
    set_cell_state t row column Final = Ok t1 ->
    decrement_counts t1 row column (value cell) = Ok t2 ->
    decision t t2
| decision_deleted row column cell ds t1 t2 :
    at2 (cells t) row column = Ok cell -> state cell = Unknown ->
    deleteCell_checks t row column = Ok ds ->
    set_cell_state (set_deletedTrees t ds) row column Deleted = Ok t1 ->
    decrement_counts t1 row column (value cell) = Ok t2 ->
    decision t t2.

Inductive decisions (t : Table) : Table -> Prop :=
| decisions_none : decisions t t
| decisions_step t1 t2 : decisions t t1 -> decision t1 t2 -> decisions t t2.

(** The outcome is a value satisfying [Q], or anything else. *)
Definition returns {A} (Q : A -> Prop) (r : result A) : Prop :=
  rpred Q (fun _ => True) True True r.

Definition cell_kept (a b : option Cell) : Prop :=
  match a, b with
  | Some a, Some b => value b = value a /\ (state a = Unknown \/ state b = state a)
  | None, None => True
  | _, _ => False
  end.

(** [t'] has the cells of [t], except that Unknown cells may have been
    decided. *)
Definition keeps (t t' : Table) : Prop :=
  size t' = size t /\ forall r c, cell_kept (cell_at t r c) (cell_at t' r c).

Definition no_adjacent_deleted (t : Table) : Prop :=
  forall row column, has_state t Deleted (row, column) = true ->
    has_deleted_neighbor t row column = false.

(** *** finalizeUniqueCells *)

(** The cell at (r, c) is Unknown and no other Unknown cell of its row
    or of its column has its value. *)
Definition unique_unknown (t : Table) (r c : nat) : bool :=
  match cell_at t r c with
  | Some cell => State_eqb (state cell) Unknown
                 && (row_unknowns t r (value cell) =? 1)%nat
                 && (column_unknowns t c (value cell) =? 1)%nat
  | None => false
  end.

(** [t'] is [t] with the cells selected by [p] made Final. *)
Definition finalized_where (p : nat -> nat -> bool) (t t' : Table) : Prop :=
  forall r c, cell_at t' r c
    = match cell_at t r c with
      | Some cell => Some (if p r c then setState cell Final else cell)
      | None => None
      end.

(** Row-major order: (r, c) comes before (i, j). *)
Definition scanned_before (i j : Z) (r c : nat) : bool :=
  (Z.of_nat r <? i) || ((Z.of_nat r =? i) && (Z.of_nat c <? j)).

(** *** The outcome of solve *)

(** What [solve] leaves of a matrix it was given as a board. *)
Definition solution_of (initValues : list (list Z)) (b : Table) : Prop :=
  isSolved b = true
  /\ size b = Z.of_nat (length initValues)
  /\ (forall r c, unknown_at b r c = false)
  /\ no_adjacent_deleted b
  /\ forall r row c v, initValues !! r = Some row -> row !! c = Some v ->
       exists cell, cell_at b r c = Some cell /\ value cell = v.

(** ** Boards and forests of the further properties *)

(** A chain 0 -> 1 -> 2 of parent links. *)
Definition chain_forest : DisjointSets := mkDisjointSets [1; 2; -1].

(** A 2x2 board without a repeated value. *)
Definition puzzle_latin : list (list Z) := [[1; 2]; [2; 1]].

Definition board_latin : Table := Eval vm_compute in new_or_empty puzzle_latin.

Definition ok_or_empty (r : result Table) : Table :=
  match r with
  | Ok t => t
  | _ => empty_table
  end.

Definition latin_finalized : Table :=
  Eval vm_compute in ok_or_empty (finalizeCell 1 board_latin 0 0).

Definition latin_deleted : Table :=
  Eval vm_compute in ok_or_empty (deleteCell 2 board_latin 0 0).

Definition solved_2x2 : Table := Eval vm_compute in ok_or_empty (solve 5 board_2x2).

Definition latin_checked : DisjointSets :=
  Eval vm_compute in
    match deleteCell_checks board_latin 0 0 with
    | Ok ds => ds
    | _ => mkDisjointSets []
    end.

(** * Proofs *)

(** Discharge the premises of a hypothesis that hold at once. *)
Ltac feed H :=
  repeat match type of H with
         | ?A -> _ =>
             let X := fresh in
             assert (X : A) by (done || lia); specialize (H X); clear X
         end.

(** Two readings of the same outcome agree. *)
Ltac same_ok :=
  repeat match goal with
         | H1 : ?m = Ok ?a, H2 : ?m = Ok ?b |- _ =>
             rewrite H1 in H2; injection H2 as ?; subst
         end.

(** ** Outcomes and vectors *)

Lemma rpred_mono {A} (Q Q' : A -> Prop) (E E' : exn -> Prop) (U U' O O' : Prop) r :
  rpred Q E U O r ->
  (forall a, Q a -> Q' a) -> (forall e, E e -> E' e) -> (U -> U') -> (O -> O') ->
  rpred Q' E' U' O' r.
Proof. destruct r; simpl; auto. Qed.

Lemma rpred_bind {A B} (Q' : A -> Prop) (Q : B -> Prop) E U O
    (m : result A) (k : A -> result B) :
  rpred Q' E U O m ->
  (forall a, Q' a -> rpred Q E U O (k a)) ->
  rpred Q E U O (x <- m ;; k x).
Proof. destruct m; simpl; auto. Qed.

Lemma bind_ret {A B} (a : A) (k : A -> result B) : (x <- Ok a ;; k x) = k a.
Proof. reflexivity. Qed.

Lemma bind_Ok {A B} (m : result A) (k : A -> result B) b :
  (x <- m ;; k x) = Ok b <-> exists a, m = Ok a /\ k a = Ok b.
Proof.
  destruct m; simpl; split; try discriminate; eauto.
  - intros (a' & Ha & Hk). by inversion Ha.
  - intros (a' & Ha & _). discriminate.
  - intros (a' & Ha & _). discriminate.
  - intros (a' & Ha & _). discriminate.
Qed.

Lemma at_Ok {A} (v : list A) i x :
  at_ v i = Ok x <-> 0 <= i /\ v !! Z.to_nat i = Some x.
Proof.
  unfold at_. destruct (Z.ltb_spec i 0).
  - split; [discriminate | lia].
  - destruct (v !! Z.to_nat i) eqn:Hl; split.
    + intros [= ->]. auto.
    + intros [_ [= ->]]. reflexivity.
    + discriminate.
    + intros [_ [=]].
Qed.

Lemma at_nat {A} (v : list A) (i : nat) x :
  v !! i = Some x -> at_ v (Z.of_nat i) = Ok x.
Proof. intros H. apply at_Ok. rewrite Nat2Z.id. split; [lia | done]. Qed.

Lemma at_cases {A} (v : list A) i :
  (exists x, at_ v i = Ok x) \/ at_ v i = Undefined.
Proof.
  unfold at_. destruct (i <? 0); [by right|].
  destruct (v !! Z.to_nat i); [left; eauto | by right].
Qed.

Lemma at_in_range {A} (v : list A) i :
  0 <= i < Z.of_nat (length v) -> exists x, at_ v i = Ok x.
Proof.
  intros Hi. destruct (lookup_lt_is_Some_2 v (Z.to_nat i)) as [x Hx]; [lia|].
  exists x. apply at_Ok. split; [lia | done].
Qed.

Lemma set_at_Ok {A} (v : list A) i x v' :
  set_at v i x = Ok v' <->
  0 <= i < Z.of_nat (length v) /\ v' = <[Z.to_nat i := x]> v.
Proof.
  unfold set_at.
  destruct (Z.leb_spec 0 i), (Z.ltb_spec i (Z.of_nat (length v))); simpl;
    split; try discriminate; try lia.
  - intros [= <-]. split; [lia | done].
  - intros [_ ->]. done.
Qed.

Lemma set_at_in_range {A} (v : list A) i x :
  0 <= i < Z.of_nat (length v) -> set_at v i x = Ok (<[Z.to_nat i := x]> v).
Proof. intros Hi. apply set_at_Ok. auto. Qed.

Lemma set_at_cases {A} (v : list A) i x :
  (exists v', set_at v i x = Ok v') \/ set_at v i x = Undefined.
Proof. unfold set_at. destruct (_ && _); [left; eauto | by right]. Qed.

Lemma at2_Ok {A} (m : list (list A)) i j x :
  at2 m i j = Ok x <->
  exists row, 0 <= i /\ 0 <= j /\ m !! Z.to_nat i = Some row
              /\ row !! Z.to_nat j = Some x.
Proof.
  unfold at2. rewrite bind_Ok. split.
  - intros (row & Hr & Hx). apply at_Ok in Hr, Hx. exists row. tauto.
  - intros (row & Hi & Hj & Hr & Hx). exists row. rewrite !at_Ok. tauto.
Qed.

Lemma at2_cases {A} (m : list (list A)) i j :
  (exists x, at2 m i j = Ok x) \/ at2 m i j = Undefined.
Proof.
  unfold at2. destruct (at_cases m i) as [[row ->] | ->]; simpl; [|by right].
  apply at_cases.
Qed.

Lemma set_at2_Ok {A} (m : list (list A)) i j x m' :
  set_at2 m i j x = Ok m' <->
  exists row, 0 <= i /\ m !! Z.to_nat i = Some row
    /\ 0 <= j < Z.of_nat (length row)
    /\ m' = <[Z.to_nat i := <[Z.to_nat j := x]> row]> m.
Proof.
  unfold set_at2. rewrite bind_Ok. split.
  - intros (row & Hr & H). apply bind_Ok in H as (row' & Hs & Hm).
    apply at_Ok in Hr as [Hi Hr]. apply set_at_Ok in Hs as [Hj ->].
    apply set_at_Ok in Hm as [_ ->]. exists row. auto.
  - intros (row & Hi & Hr & Hj & ->). exists row. split; [by apply at_Ok|].
    rewrite set_at_in_range by done. simpl. apply set_at_in_range.
    apply lookup_lt_Some in Hr. lia.
Qed.

Lemma set_at2_cases {A} (m : list (list A)) i j x :
  (exists m', set_at2 m i j x = Ok m') \/ set_at2 m i j x = Undefined.
Proof.
  unfold set_at2. destruct (at_cases m i) as [[row ->] | ->]; simpl; [|by right].
  destruct (set_at_cases row j x) as [[row' ->] | ->]; simpl; [|by right].
  apply set_at_cases.
Qed.

(** Looking into a matrix after one entry was replaced. *)
Lemma lookup2_insert {A} (m : list (list A)) (i j : nat) row x (i' j' : nat) :
  m !! i = Some row -> (j < length row)%nat ->
  match <[i := <[j := x]> row]> m !! i' with
  | Some l => l !! j'
  | None => None
  end
  = if decide (i' = i /\ j' = j) then Some x
    else match m !! i' with Some l => l !! j' | None => None end.
Proof.
  intros Hr Hj. destruct (decide (i' = i)) as [->|Hne].
  - rewrite list_lookup_insert_eq by (by eapply lookup_lt_Some).
    rewrite Hr. destruct (decide (j' = j)) as [->|Hnj].
    + rewrite list_lookup_insert_eq by done. by rewrite decide_True.
    + rewrite list_lookup_insert_ne by done. rewrite decide_False; [done | tauto].
  - rewrite list_lookup_insert_ne by done. rewrite decide_False; [done | tauto].
Qed.

(** ** Loops *)

Lemma for_loop_rpred {St} (I : Z -> St -> Prop) E U O n i0 body (s : St) :
  I i0 s ->
  (forall i s, i0 <= i < i0 + Z.of_nat n -> I i s ->
               rpred (I (i + 1)) E U O (body i s)) ->
  rpred (I (i0 + Z.of_nat n)) E U O (for_loop n i0 body s).
Proof.
  revert i0 s. induction n as [|n IH]; intros i0 s H0 Hstep; simpl.
  - by replace (i0 + Z.of_nat 0) with i0 by lia.
  - eapply rpred_bind; [apply Hstep; [lia | done]|].
    intros s' Hs'. replace (i0 + Z.of_nat (S n)) with ((i0 + 1) + Z.of_nat n) by lia.
    apply IH; [done|]. intros i s'' Hi. apply Hstep. lia.
Qed.

Lemma offs_loop_rpred {St} (I : St -> Prop) E U O n rOffs cOffs body (s : St) :
  I s ->
  (forall ro co s, I s -> rpred I E U O (body ro co s)) ->
  rpred I E U O (offs_loop n rOffs cOffs body s).
Proof.
  revert rOffs cOffs s. induction n as [|n IH]; intros ro co s H0 Hstep; simpl.
  - done.
  - eapply rpred_bind; [by apply Hstep|]. intros s' Hs'. by apply IH.
Qed.

(** A loop whose steps all leave the state alone. *)
Lemma for_loop_noop {St} n i0 body (s : St) :
  (forall i, i0 <= i < i0 + Z.of_nat n -> body i s = Ok s) ->
  for_loop n i0 body s = Ok s.
Proof.
  revert i0. induction n as [|n IH]; intros i0 H; simpl; [done|].
  rewrite H by lia. simpl. apply IH. intros i Hi. apply H. lia.
Qed.

Lemma for_loop_ext {St} n i0 body body' (s : St) :
  (forall i s, i0 <= i < i0 + Z.of_nat n -> body i s = body' i s) ->
  for_loop n i0 body s = for_loop n i0 body' s.
Proof.
  revert i0 s. induction n as [|n IH]; intros i0 s H; simpl; [done|].
  rewrite H by lia. destruct (body' i0 s); simpl; try done.
  apply IH. intros i s' Hi. apply H. lia.
Qed.

(** ** Field updates *)

Lemma at2_insert {A} (m : list (list A)) (i j : nat) row x i' j' :
  m !! i = Some row -> (j < length row)%nat ->
  at2 (<[i := <[j := x]> row]> m) i' j'
  = if decide (0 <= i' /\ 0 <= j' /\ Z.to_nat i' = i /\ Z.to_nat j' = j)
    then Ok x else at2 m i' j'.
Proof.
  intros Hr Hj. unfold at2, at_.
  destruct (Z.ltb_spec i' 0); [rewrite decide_False by lia; done|].
  destruct (decide (Z.to_nat i' = i)) as [<-|Hi].
  - rewrite list_lookup_insert_eq by (by eapply lookup_lt_Some).
    rewrite Hr. simpl.
    destruct (Z.ltb_spec j' 0); [rewrite decide_False by lia; done|].
    destruct (decide (Z.to_nat j' = j)) as [<-|Hj'].
    + rewrite list_lookup_insert_eq by done. rewrite decide_True by lia. done.
    + rewrite list_lookup_insert_ne by done. rewrite decide_False by lia. done.
  - rewrite list_lookup_insert_ne by done. rewrite decide_False by lia. done.
Qed.

Lemma set_cell_state_Ok t r c st t' :
  set_cell_state t r c st = Ok t' <->
  exists row cell, 0 <= r /\ 0 <= c /\ cells t !! Z.to_nat r = Some row
    /\ row !! Z.to_nat c = Some cell
    /\ t' = mkTable (size t)
              (<[Z.to_nat r := <[Z.to_nat c := setState cell st]> row]> (cells t))
              (rowCounts t) (columnCounts t) (unknownCellCount t) (deletedTrees t).
Proof.
  unfold set_cell_state. rewrite bind_Ok. split.
  - intros (cell & Hc & H). apply bind_Ok in H as (cs & Hs & [= <-]).
    apply at2_Ok in Hc as (row & Hr & Hc0 & Hrow & Hcell).
    apply set_at2_Ok in Hs as (row' & _ & Hrow' & _ & ->).
    rewrite Hrow in Hrow'. injection Hrow' as <-. exists row, cell. auto.
  - intros (row & cell & Hr & Hc & Hrow & Hcell & ->). exists cell. split.
    + apply at2_Ok. exists row. auto.
    + apply bind_Ok. eexists. split; [|done]. apply set_at2_Ok. exists row.
      apply lookup_lt_Some in Hcell. repeat split; auto; lia.
Qed.

Lemma set_rowCount_Ok t r v x t' :
  set_rowCount t r v x = Ok t' <->
  exists l, 0 <= r /\ rowCounts t !! Z.to_nat r = Some l
    /\ 0 <= v < Z.of_nat (length l)
    /\ t' = mkTable (size t) (cells t)
              (<[Z.to_nat r := <[Z.to_nat v := x]> l]> (rowCounts t))
              (columnCounts t) (unknownCellCount t) (deletedTrees t).
Proof.
  unfold set_rowCount. rewrite bind_Ok. split.
  - intros (rc & Hs & [= <-]). apply set_at2_Ok in Hs as (l & ? & ? & ? & ->).
    exists l. auto.
  - intros (l & ? & ? & ? & ->). eexists. split; [|done]. apply set_at2_Ok.
    exists l. auto.
Qed.

Lemma set_columnCount_Ok t c v x t' :
  set_columnCount t c v x = Ok t' <->
  exists l, 0 <= c /\ columnCounts t !! Z.to_nat c = Some l
    /\ 0 <= v < Z.of_nat (length l)
    /\ t' = mkTable (size t) (cells t) (rowCounts t)
              (<[Z.to_nat c := <[Z.to_nat v := x]> l]> (columnCounts t))
              (unknownCellCount t) (deletedTrees t).
Proof.
  unfold set_columnCount. rewrite bind_Ok. split.
  - intros (rc & Hs & [= <-]). apply set_at2_Ok in Hs as (l & ? & ? & ? & ->).
    exists l. auto.
  - intros (l & ? & ? & ? & ->). eexists. split; [|done]. apply set_at2_Ok.
    exists l. auto.
Qed.

(** ** finalizeUniqueCells *)

Lemma finalizeUniqueCells_body_Ok r c t t' :
  finalizeUniqueCells_body r c t = Ok t' ->
  (t' = t /\ finalizeUniqueCells_body r c t = Ok t) \/ finalized_by r c t t'.
Proof.
  intros H0. assert (H := H0). unfold finalizeUniqueCells_body in H.
  assert (Hsame : Ok t = Ok t' -> (t' = t /\ finalizeUniqueCells_body r c t = Ok t)
                   \/ finalized_by r c t t') by (intros [= <-]; by left).
  destruct (at2 (cells t) r c) as [cell| | |] eqn:Hc; simpl in H; try discriminate.
  destruct (state cell) eqn:Hst; try (by apply Hsame).
  destruct (at2 (rowCounts t) r (value cell)) as [x| | |] eqn:Hx;
    simpl in H; try discriminate.
  destruct (Z.eqb_spec x 1) as [->|Hx1]; simpl in H; [|by apply Hsame].
  destruct (at2 (columnCounts t) c (value cell)) as [y| | |] eqn:Hy;
    simpl in H; try discriminate.
  destruct (Z.eqb_spec y 1) as [->|Hy1]; simpl in H; [|by apply Hsame].
  clear Hsame H0.
  right.
  apply bind_Ok in H as (t1 & H1 & H). apply bind_Ok in H as (t2 & H2 & H).
  apply bind_Ok in H as (t3 & H3 & [= <-]).
  apply at2_Ok in Hc as (row & Hr & Hc0 & Hrow & Hcell).
  apply at2_Ok in Hx as (lr & _ & Hv & Hlr & Hlrv).
  apply at2_Ok in Hy as (lc & _ & _ & Hlc & Hlcv).
  apply set_cell_state_Ok in H1 as (row' & cell' & _ & _ & Hrow' & Hcell' & ->).
  simplify_eq.
  apply set_rowCount_Ok in H2 as (lr' & _ & Hlr' & _ & ->). simpl in *.
  apply set_columnCount_Ok in H3 as (lc' & _ & Hlc' & _ & ->). simpl in *.
  simplify_eq. exists row, cell, lr, lc. repeat split; auto.
Qed.

(** A step that finalized a cell does nothing when run again, and leaves
    every step that did nothing without effect. *)
Lemma finalized_by_settles r c t t' r' c' :
  finalized_by r c t t' ->
  ((r', c') = (r, c) \/ finalizeUniqueCells_body r' c' t = Ok t) ->
  finalizeUniqueCells_body r' c' t' = Ok t'.
Proof.
  intros (row & cell & lr & lc & Hr & Hc & Hrow & Hcell & Hst & Hlr & Hlc
          & Hv & Hlrv & Hlcv & ->) Hcase.
  pose proof (lookup_lt_Some _ _ _ Hcell) as Lc.
  pose proof (lookup_lt_Some _ _ _ Hlrv) as Lr.
  pose proof (lookup_lt_Some _ _ _ Hlcv) as Lcc.
  unfold finalizeUniqueCells_body at 1. simpl.
  rewrite (at2_insert _ _ _ row) by done.
  case_decide as Hd; simpl; [done|].
  destruct Hcase as [[= -> ->] | Hnoop]; [exfalso; apply Hd; lia|].
  unfold finalizeUniqueCells_body in Hnoop.
  destruct (at2 (cells t) r' c') as [cell'| | |] eqn:Hc'; simpl in *;
    try discriminate.
  destruct (state cell') eqn:Hst'; try done.
  rewrite (at2_insert _ _ _ lr) by done.
  case_decide as Hd1; simpl; [done|].
  destruct (at2 (rowCounts t) r' (value cell')) as [x| | |] eqn:Hx;
    simpl in *; try discriminate.
  destruct (Z.eqb_spec x 1) as [->|Hx1]; simpl in *; [|done].
  rewrite (at2_insert _ _ _ lc) by done.
  case_decide as Hd2; simpl; [done|].
  destruct (at2 (columnCounts t) c' (value cell')) as [y| | |] eqn:Hy;
    simpl in *; try discriminate.
  destruct (Z.eqb_spec y 1) as [->|Hy1]; simpl in *; [|done].
  exfalso.
  apply bind_Ok in Hnoop as (t1 & H1 & H). apply bind_Ok in H as (t2 & H2 & H).
  apply bind_Ok in H as (t3 & H3 & [= H]).
  apply at2_Ok in Hc' as (row' & Hr' & Hc0' & Hrow' & Hcell').
  apply set_cell_state_Ok in H1 as (row'' & cell'' & _ & _ & Hrow'' & Hcell'' & ->).
  apply set_rowCount_Ok in H2 as (? & _ & _ & _ & ->).
  apply set_columnCount_Ok in H3 as (? & _ & _ & _ & ->).
  simplify_eq. simpl in H.
  assert (Hcs : cells t = <[Z.to_nat r' := <[Z.to_nat c' := setState cell' Final]> row']> (cells t))
    by (rewrite <- H at 1; done).
  assert (Hl : <[Z.to_nat r' := <[Z.to_nat c' := setState cell' Final]> row']> (cells t)
               !! Z.to_nat r' = Some (<[Z.to_nat c' := setState cell' Final]> row'))
    by (apply list_lookup_insert_eq; by eapply lookup_lt_Some).
  rewrite <- Hcs, Hrow' in Hl. injection Hl as Hl.
  assert (Hl2 : <[Z.to_nat c' := setState cell' Final]> row' !! Z.to_nat c'
                = Some (setState cell' Final))
    by (apply list_lookup_insert_eq; by eapply lookup_lt_Some).
  rewrite <- Hl, Hcell' in Hl2. injection Hl2 as Hl2.
  rewrite Hl2 in Hst'. discriminate.
Qed.

Lemma finalizeUniqueCells_body_settles r c t t' r' c' :
  finalizeUniqueCells_body r c t = Ok t' ->
  ((r', c') = (r, c) \/ finalizeUniqueCells_body r' c' t = Ok t) ->
  finalizeUniqueCells_body r' c' t' = Ok t'.
Proof.
  intros H Hcase.
  destruct (finalizeUniqueCells_body_Ok _ _ _ _ H) as [[-> Hn] | Hf].
  - destruct Hcase as [[= -> ->] | Hnoop]; done.
  - by eapply finalized_by_settles.
Qed.

Lemma finalizeUniqueCells_body_size r c t t' :
  finalizeUniqueCells_body r c t = Ok t' -> size t' = size t.
Proof.
  intros H. destruct (finalizeUniqueCells_body_Ok _ _ _ _ H) as [[-> _] | Hf];
    [done|]. destruct Hf as (? & ? & ? & ? & Hf). decompose [and] Hf. by subst.
Qed.

Lemma finalizeUniqueCells_settles t t1 :
  finalizeUniqueCells t = Ok t1 ->
  size t1 = size t /\ settled_before (size t) 0 t1.
Proof.
  intros H.
  assert (R : rpred (fun s => size s = size t /\ settled_before (size t) 0 s)
                (fun _ => True) True True (finalizeUniqueCells t));
    [|by rewrite H in R].
  unfold finalizeUniqueCells.
  destruct (Z.le_gt_cases 0 (size t)) as [Hsz|Hsz].
  2:{ replace (Z.to_nat (size t)) with O by lia. simpl. split; [done|].
      intros r' c' Hrc. lia. }
  pose proof (for_loop_rpred
    (fun r s => size s = size t /\ settled_before r 0 s)
    (fun _ => True) True True (Z.to_nat (size t)) 0) as L.
  rewrite Z2Nat.id in L by done. simpl in L. apply L; clear L.
  { split; [done|]. intros r' c' Hrc. lia. }
  intros r s Hr [Hs Hset]. rewrite Hs.
  pose proof (for_loop_rpred
    (fun c s => size s = size t /\ settled_before r c s)
    (fun _ => True) True True (Z.to_nat (size t)) 0) as L.
  rewrite Z2Nat.id in L by done. simpl in L.
  eapply rpred_mono; [apply L; clear L | | done | done | done].
  - split; [done|]. intros r' c' Hrc. apply Hset. lia.
  - intros c s' Hc [Hs' Hset'].
    destruct (finalizeUniqueCells_body r c s') as [s''| | |] eqn:Hb; simpl; try done.
    assert (Hs'' : size s'' = size t)
      by (rewrite <- Hs'; by eapply finalizeUniqueCells_body_size).
    split; [done|].
    intros r' c' Hrc. eapply finalizeUniqueCells_body_settles; [done|].
    destruct (decide ((r', c') = (r, c))) as [|Hne]; [by left|right].
    apply Hset'. rewrite Hs'. rewrite Hs'' in Hrc.
    destruct Hrc as [Hrc|[-> Hrc]]; [by left|right]. split; [done|].
    assert (c' <> c) by congruence. lia.
  - intros s' [Hs' Hset']. split; [done|]. intros r' c' Hrc. apply Hset'.
    rewrite Hs'. destruct Hrc as [Hrc|[-> Hrc]]; [|lia].
    destruct (decide (r' = r)) as [->|]; [right; lia | left; lia].
Qed.

(** A second run of the scan changes nothing. *)
Lemma finalizeUniqueCells_twice (t t1 : Table) :
  finalizeUniqueCells t = Ok t1 -> finalizeUniqueCells t1 = Ok t1.
Proof.
  intros H. apply finalizeUniqueCells_settles in H as [Hs Hset].
  unfold finalizeUniqueCells. rewrite Hs.
  apply for_loop_noop. intros r Hr. apply for_loop_noop. intros c Hc.
  apply Hset. rewrite Hs. left. lia.
Qed.

(** ** Counting *)

Lemma count_upto_le n p : (count_upto n p <= n)%nat.
Proof. induction n; simpl; [lia|]. destruct (p n); lia. Qed.

Lemma count_upto_mono n p q :
  (forall i, (i < n)%nat -> p i = true -> q i = true) ->
  (count_upto n p <= count_upto n q)%nat.
Proof.
  induction n as [|n IH]; intros H; simpl; [lia|].
  assert (count_upto n p <= count_upto n q)%nat by (apply IH; auto).
  destruct (p n) eqn:Hp; [rewrite (H n) by (lia || done)|]; destruct (q n); lia.
Qed.

Lemma count_upto_strict n p q k :
  (forall i, (i < n)%nat -> p i = true -> q i = true) ->
  (k < n)%nat -> q k = true -> p k = false ->
  (count_upto n p < count_upto n q)%nat.
Proof.
  induction n as [|n IH]; intros H Hk Hq Hp; simpl; [lia|].
  destruct (decide (k = n)) as [->|Hne].
  - rewrite Hq, Hp. assert (count_upto n p <= count_upto n q)%nat
      by (apply count_upto_mono; auto). lia.
  - assert (count_upto n p < count_upto n q)%nat by (apply IH; auto; lia).
    destruct (p n) eqn:Hpn; [rewrite (H n) by (lia || done)|];
      destruct (q n); lia.
Qed.

Lemma count_upto_ext n p q :
  (forall i, (i < n)%nat -> p i = q i) -> count_upto n p = count_upto n q.
Proof.
  induction n as [|n IH]; intros H; simpl; [done|].
  rewrite H by lia. rewrite IH; auto.
Qed.

(** Switching one counted index off lowers the count by one. *)
Lemma count_upto_clear n p q k :
  (k < n)%nat -> p k = true -> q k = false ->
  (forall i, (i < n)%nat -> i <> k -> q i = p i) ->
  count_upto n p = S (count_upto n q).
Proof.
  induction n as [|n IH]; intros Hk Hp Hq H; simpl; [lia|].
  destruct (decide (k = n)) as [->|Hne].
  - rewrite Hp, Hq. simpl. f_equal. apply count_upto_ext. intros i Hi.
    symmetry. apply H; lia.
  - rewrite (H n) by lia. rewrite IH; [lia | lia | done | done |].
    intros i Hi. apply H. lia.
Qed.

Lemma count_upto_pos n p k :
  (k < n)%nat -> p k = true -> (0 < count_upto n p)%nat.
Proof.
  induction n as [|n IH]; intros Hk Hp; simpl; [lia|].
  destruct (decide (k = n)) as [->|Hne]; [rewrite Hp; lia|].
  assert (0 < count_upto n p)%nat by (apply IH; [lia | done]). lia.
Qed.

Lemma count_upto_exists n p :
  (0 < count_upto n p)%nat -> exists k, (k < n)%nat /\ p k = true.
Proof.
  induction n as [|n IH]; simpl; [lia|]. intros H.
  destruct (p n) eqn:Hp; [exists n; split; [lia | done]|].
  destruct IH as (k & Hk & Hpk); [lia|]. exists k. split; [lia | done].
Qed.

Lemma sum_upto_ext n f g :
  (forall i, (i < n)%nat -> f i = g i) -> sum_upto n f = sum_upto n g.
Proof.
  induction n as [|n IH]; intros H; simpl; [done|].
  rewrite H by lia. rewrite IH; auto.
Qed.

Lemma sum_upto_lower n f g k :
  (k < n)%nat -> f k = S (g k) ->
  (forall i, (i < n)%nat -> i <> k -> g i = f i) ->
  sum_upto n f = S (sum_upto n g).
Proof.
  induction n as [|n IH]; intros Hk Hfk H; simpl; [lia|].
  destruct (decide (k = n)) as [->|Hne].
  - rewrite Hfk. simpl. f_equal. f_equal. apply sum_upto_ext. intros i Hi.
    symmetry. apply H; lia.
  - rewrite (H n) by lia. rewrite IH; [lia | lia | done |].
    intros i Hi. apply H. lia.
Qed.

Lemma sum_upto_pos n f k :
  (k < n)%nat -> (0 < f k)%nat -> (0 < sum_upto n f)%nat.
Proof.
  induction n as [|n IH]; intros Hk Hp; simpl; [lia|].
  destruct (decide (k = n)) as [->|Hne]; [lia|].
  assert (0 < sum_upto n f)%nat by (apply IH; [lia | done]). lia.
Qed.

Lemma sum_upto_exists n f :
  (0 < sum_upto n f)%nat -> exists k, (k < n)%nat /\ (0 < f k)%nat.
Proof.
  induction n as [|n IH]; simpl; [lia|]. intros H.
  destruct (decide (0 < f n)%nat) as [Hf|Hf]; [exists n; split; [lia | done]|].
  destruct IH as (k & Hk & Hpk); [lia|]. exists k. split; [lia | done].
Qed.

(** ** DisjointSets *)

Lemma root_of_det p e r r' : root_of p e r -> root_of p e r' -> r = r'.
Proof.
  intros H. revert r'. induction H as [e x Hx Hneg | e x r Hx Hpos _ IH];
    intros r' H'; inversion H'; subst; try done; same_ok; try lia.
  by apply IH.
Qed.

Lemma root_of_is_root p e r :
  root_of p e r -> exists x, at_ p r = Ok x /\ x < 0.
Proof. induction 1; eauto. Qed.

Lemma root_of_root p r x : at_ p r = Ok x -> x < 0 -> forall r', root_of p r r' -> r' = r.
Proof. intros Hx Hneg r' H. eapply root_of_det; [done|]. by eapply root_of_here. Qed.

Lemma root_of_parent p e x r :
  at_ p e = Ok x -> 0 <= x -> root_of p e r -> root_of p x r.
Proof. intros Hx Hp H. inversion H; subst; same_ok; [lia | done]. Qed.

Lemma root_of_rank rk p e r :
  forest_with rk p -> root_of p e r ->
  (rk (Z.to_nat e) <= rk (Z.to_nat r))%nat
  /\ 0 <= r < Z.of_nat (length p) /\ 0 <= e < Z.of_nat (length p).
Proof.
  intros Hf. induction 1 as [e x Hx Hneg | e x r Hx Hpos _ IH].
  - apply at_Ok in Hx as [He Hx]. apply lookup_lt_Some in Hx. lia.
  - apply at_Ok in Hx as [He Hx]. destruct (Hf _ _ Hx Hpos) as [_ Hrk].
    apply lookup_lt_Some in Hx. lia.
Qed.

Lemma findSet_root_spec rk p :
  forest_with rk p ->
  forall fuel e, 0 <= e < Z.of_nat (length p) ->
    (count_upto (length p) (fun i => rk (Z.to_nat e) <=? rk i)%nat <= fuel)%nat ->
    exists r, findSet_root fuel p e = Ok r /\ root_of p e r.
Proof.
  intros Hf. induction fuel as [|fuel IH]; intros e He Hc.
  - exfalso.
    assert (0 < count_upto (length p) (fun i => rk (Z.to_nat e) <=? rk i)%nat)%nat;
      [|lia].
    apply (count_upto_pos _ _ (Z.to_nat e)); [lia|]. by apply Nat.leb_le.
  - simpl. destruct (at_in_range p e He) as [x Hx]. rewrite Hx. simpl.
    destruct (Z.leb_spec 0 x) as [Hpos|Hneg].
    + pose proof Hx as Hx'. apply at_Ok in Hx' as [_ Hl].
      destruct (Hf _ _ Hl Hpos) as [Hlen Hrk].
      destruct (IH x) as (r & Hr & Hroot); [lia| |].
      * assert ((count_upto (length p) (fun i => rk (Z.to_nat x) <=? rk i)
                 < count_upto (length p) (fun i => rk (Z.to_nat e) <=? rk i))%nat);
          [|lia].
        apply (count_upto_strict _ _ _ (Z.to_nat e)); [|lia| |].
        -- intros i _ Hi. apply Nat.leb_le in Hi. apply Nat.leb_le. lia.
        -- by apply Nat.leb_le.
        -- apply Nat.leb_gt. lia.
      * exists r. split; [done|]. by eapply root_of_step.
    + exists e. split; [done|]. by eapply root_of_here.
Qed.

(** Re-pointing a node at its own root changes no root. *)
Lemma root_of_repoint p e x root :
  at_ p e = Ok x -> 0 <= x -> root_of p e root ->
  forall y r, root_of p y r <-> root_of (<[Z.to_nat e := root]> p) y r.
Proof.
  intros Hx Hpos Hroot.
  destruct (root_of_is_root _ _ _ Hroot) as (xr & Hxr & Hneg).
  pose proof Hx as Hx'. apply at_Ok in Hx' as [He Hl].
  pose proof Hxr as Hxr'. apply at_Ok in Hxr' as [Hr0 Hlr].
  assert (Hne : Z.to_nat root <> Z.to_nat e).
  { intros Heq. rewrite Heq in Hlr. same_ok; simplify_eq. lia. }
  assert (Hroot' : root_of (<[Z.to_nat e := root]> p) root root).
  { eapply root_of_here; [|done]. apply at_Ok. split; [done|].
    rewrite list_lookup_insert_ne by done. done. }
  assert (Hat : forall y, y <> e -> at_ (<[Z.to_nat e := root]> p) y = at_ p y).
  { intros y Hy. unfold at_. destruct (Z.ltb_spec y 0); [done|].
    rewrite list_lookup_insert_ne by lia. done. }
  assert (Hate : at_ (<[Z.to_nat e := root]> p) e = Ok root).
  { apply at_Ok. split; [done|]. apply list_lookup_insert_eq.
    by eapply lookup_lt_Some. }
  intros y r. split.
  - induction 1 as [y xy Hxy Hn | y xy r Hxy Hp Hr IH].
    + eapply root_of_here; [|done]. rewrite Hat; [done|]. intros ->.
      same_ok; simplify_eq. lia.
    + destruct (decide (y = e)) as [->|Hye].
      * same_ok; simplify_eq. assert (r = root) as ->.
        { apply (root_of_det p e); [|exact Hroot].
          eapply root_of_step; [exact Hx | exact Hp | exact Hr]. }
        eapply root_of_step; [exact Hate | lia | exact Hroot'].
      * eapply root_of_step; [|done|done]. by rewrite Hat.
  - induction 1 as [y xy Hxy Hn | y xy r Hxy Hp Hr IH].
    + destruct (decide (y = e)) as [->|Hye]; [same_ok; simplify_eq; lia|].
      rewrite Hat in Hxy by done. by eapply root_of_here.
    + destruct (decide (y = e)) as [->|Hye].
      * same_ok; simplify_eq. assert (r = xy) as ->.
        { eapply (root_of_root p); [done | done | done]. }
        done.
      * rewrite Hat in Hxy by done. by eapply root_of_step.
Qed.

Lemma forest_with_repoint rk p e x root :
  forest_with rk p -> at_ p e = Ok x -> 0 <= x -> root_of p e root ->
  forest_with rk (<[Z.to_nat e := root]> p).
Proof.
  intros Hf Hx Hpos Hroot i y Hy Hy0. rewrite length_insert.
  pose proof Hx as Hx'. apply at_Ok in Hx' as [He Hl].
  destruct (decide (i = Z.to_nat e)) as [->|Hne].
  - rewrite list_lookup_insert_eq in Hy by (by eapply lookup_lt_Some).
    injection Hy as <-.
    destruct (Hf _ _ Hl Hpos) as [_ Hrk].
    destruct (root_of_rank _ _ _ _ Hf (root_of_parent _ _ _ _ Hx Hpos Hroot))
      as (Hle & Hr & _).
    lia.
  - rewrite list_lookup_insert_ne in Hy by done. by apply Hf.
Qed.

Lemma findSet_compress_spec rk root :
  forall fuel p e,
    forest_with rk p -> root_of p e root ->
    (count_upto (length p) (fun i => rk (Z.to_nat e) <=? rk i)%nat <= fuel)%nat ->
    exists p', findSet_compress fuel p e root = Ok p'
      /\ length p' = length p /\ forest_with rk p'
      /\ (forall i x, p !! i = Some x -> x < 0 -> p' !! i = Some x)
      /\ (forall y r, root_of p y r <-> root_of p' y r).
Proof.
  induction fuel as [|fuel IH]; intros p e Hf Hroot Hc.
  - exfalso.
    destruct (root_of_rank _ _ _ _ Hf Hroot) as (_ & _ & He).
    assert (0 < count_upto (length p) (fun i => rk (Z.to_nat e) <=? rk i)%nat)%nat;
      [|lia].
    apply (count_upto_pos _ _ (Z.to_nat e)); [lia|]. by apply Nat.leb_le.
  - destruct (root_of_rank _ _ _ _ Hf Hroot) as (_ & _ & He).
    simpl. destruct (at_in_range p e He) as [x Hx]. rewrite Hx. simpl.
    destruct (Z.leb_spec 0 x) as [Hpos|Hneg].
    2:{ exists p. split; [done|]. split; [done|]. split; [done|].
        split; [auto | done]. }
    rewrite set_at_in_range by done. simpl.
    pose proof Hx as Hx'. apply at_Ok in Hx' as [_ Hl].
    destruct (Hf _ _ Hl Hpos) as [Hlen Hrk].
    assert (Hrootx : root_of p x root) by (by eapply root_of_parent).
    destruct (IH (<[Z.to_nat e := root]> p) x) as (p' & Hp' & Hlen' & Hf' & Hneg' & Hroots').
    + by eapply forest_with_repoint.
    + by apply (root_of_repoint p e x root).
    + rewrite length_insert.
      assert ((count_upto (length p) (fun i => rk (Z.to_nat x) <=? rk i)
               < count_upto (length p) (fun i => rk (Z.to_nat e) <=? rk i))%nat);
        [|lia].
      apply (count_upto_strict _ _ _ (Z.to_nat e)); [|lia| |].
      * intros i _ Hi. apply Nat.leb_le in Hi. apply Nat.leb_le. lia.
      * by apply Nat.leb_le.
      * apply Nat.leb_gt. lia.
    + exists p'. split; [done|]. rewrite length_insert in Hlen'.
      split; [done|]. split; [done|]. split.
      * intros i y Hy Hyneg. apply Hneg'; [|done].
        rewrite list_lookup_insert_ne; [done|]. intros <-. same_ok; simplify_eq. lia.
      * intros y r. rewrite <- Hroots'. by apply (root_of_repoint p e x root).
Qed.

(** [findSet] on a forest: it returns the root, keeps the forest a
    forest, keeps every root a root and every element's root. *)
Lemma findSet_spec ds e :
  forest_ok (parents ds) -> 0 <= e < Z.of_nat (length (parents ds)) ->
  exists root ds',
    findSet ds e = Ok (root, ds')
    /\ root_of (parents ds) e root
    /\ length (parents ds') = length (parents ds)
    /\ forest_ok (parents ds')
    /\ (forall i x, parents ds !! i = Some x -> x < 0 -> parents ds' !! i = Some x)
    /\ (forall y r, root_of (parents ds) y r <-> root_of (parents ds') y r).
Proof.
  intros [rk Hf] He. unfold findSet, assertElementRange.
  destruct (Z.ltb_spec e 0); [lia|].
  destruct (Z.leb_spec (Z.of_nat (length (parents ds))) e); [lia|]. simpl.
  destruct (findSet_root_spec rk _ Hf (length (parents ds)) e He) as (root & Hr & Hroot);
    [apply count_upto_le|].
  rewrite Hr. simpl.
  destruct (findSet_compress_spec rk root (length (parents ds)) (parents ds) e Hf Hroot)
    as (p' & Hp' & Hlen & Hf' & Hneg & Hroots); [apply count_upto_le|].
  rewrite Hp'. simpl. exists root, (mkDisjointSets p'). simpl.
  repeat split; auto; try (by apply Hroots). by exists rk.
Qed.

Lemma forest_with_keep_root rk p k x y :
  forest_with rk p -> p !! k = Some x -> x < 0 -> y < 0 ->
  forest_with rk (<[k := y]> p).
Proof.
  intros Hf Hk Hx Hy i z Hz Hz0. rewrite length_insert.
  destruct (decide (i = k)) as [->|Hne].
  - rewrite list_lookup_insert_eq in Hz by (by eapply lookup_lt_Some).
    injection Hz as <-. lia.
  - rewrite list_lookup_insert_ne in Hz by done. by apply Hf.
Qed.

Lemma forest_ok_attach p a b xa xb :
  forest_ok p -> p !! a = Some xa -> xa < 0 -> p !! b = Some xb -> xb < 0 ->
  a <> b -> forest_ok (<[a := Z.of_nat b]> p).
Proof.
  intros [rk Hf] Ha Hxa Hb Hxb Hab.
  exists (fun i => if decide (i = b) then Nat.max (rk b) (S (rk a)) else rk i).
  intros i z Hz Hz0. rewrite length_insert.
  destruct (decide (i = a)) as [->|Hne].
  - rewrite list_lookup_insert_eq in Hz by (by eapply lookup_lt_Some).
    injection Hz as <-. rewrite Nat2Z.id. split; [by eapply lookup_lt_Some|].
    rewrite decide_False by done. rewrite decide_True by done. lia.
  - rewrite list_lookup_insert_ne in Hz by done.
    destruct (Hf _ _ Hz Hz0) as [Hlen Hrk]. split; [done|]. cbv beta.
    rewrite (decide_False (P := i = b)) by (intros ->; simplify_eq; lia).
    case_decide; subst; lia.
Qed.

Lemma forest_ok_keep_root p k x y :
  forest_ok p -> p !! k = Some x -> x < 0 -> y < 0 -> forest_ok (<[k := y]> p).
Proof. intros [rk Hf] ???. exists rk. by eapply forest_with_keep_root. Qed.

(** [linkSets] on two roots of a forest. *)
Lemma linkSets_spec ds set1 set2 x1 x2 :
  forest_ok (parents ds) ->
  at_ (parents ds) set1 = Ok x1 -> x1 < 0 ->
  at_ (parents ds) set2 = Ok x2 -> x2 < 0 ->
  exists ds', linkSets ds set1 set2 = Ok ds'
    /\ length (parents ds') = length (parents ds)
    /\ forest_ok (parents ds').
Proof.
  intros Hf H1 Hx1 H2 Hx2.
  pose proof H1 as H1'. apply at_Ok in H1' as [H10 Hl1].
  pose proof H2 as H2'. apply at_Ok in H2' as [H20 Hl2].
  pose proof (lookup_lt_Some _ _ _ Hl1) as L1.
  pose proof (lookup_lt_Some _ _ _ Hl2) as L2.
  unfold linkSets, assertElementRange.
  destruct (Z.ltb_spec set1 0); [lia|].
  destruct (Z.leb_spec (Z.of_nat (length (parents ds))) set1); [lia|]. simpl.
  destruct (Z.ltb_spec set2 0); [lia|].
  destruct (Z.leb_spec (Z.of_nat (length (parents ds))) set2); [lia|]. simpl.
  rewrite H1. simpl. destruct (Z.leb_spec 0 x1); [lia|].
  rewrite H2. simpl. destruct (Z.leb_spec 0 x2); [lia|].
  destruct (Z.eqb_spec set1 set2) as [Heq|Hne]; [by exists ds|].
  assert (Z.to_nat set1 <> Z.to_nat set2) by lia.
  destruct (Z.ltb_spec (- x1 - 1) (- x2 - 1)).
  { rewrite set_at_in_range by lia. simpl. eexists. split; [done|]. simpl.
    rewrite length_insert. split; [done|].
    rewrite <- (Z2Nat.id set2) by done. by eapply forest_ok_attach. }
  destruct (Z.ltb_spec (- x2 - 1) (- x1 - 1)).
  { rewrite set_at_in_range by lia. simpl. eexists. split; [done|]. simpl.
    rewrite length_insert. split; [done|].
    rewrite <- (Z2Nat.id set1) by done. by eapply forest_ok_attach. }
  rewrite set_at_in_range by lia. simpl.
  assert (Hl2' : <[Z.to_nat set1 := set2]> (parents ds) !! Z.to_nat set2 = Some x2)
    by (rewrite list_lookup_insert_ne by done; done).
  assert (at_ (<[Z.to_nat set1 := set2]> (parents ds)) set2 = Ok x2) as ->
    by (apply at_Ok; auto).
  simpl. rewrite set_at_in_range by (rewrite length_insert; lia). simpl.
  eexists. split; [done|]. simpl. rewrite !length_insert. split; [done|].
  eapply forest_ok_keep_root; [|done|done|lia].
  rewrite <- (Z2Nat.id set2) by done. by eapply forest_ok_attach.
Qed.

Lemma unionSets_spec ds e1 e2 :
  forest_ok (parents ds) ->
  0 <= e1 < Z.of_nat (length (parents ds)) ->
  0 <= e2 < Z.of_nat (length (parents ds)) ->
  exists ds', unionSets ds e1 e2 = Ok ds'
    /\ length (parents ds') = length (parents ds)
    /\ forest_ok (parents ds').
Proof.
  intros Hf He1 He2. unfold unionSets.
  destruct (findSet_spec ds e1 Hf He1)
    as (r1 & ds1 & -> & Hr1 & Hlen1 & Hf1 & Hneg1 & Hroots1). simpl.
  destruct (findSet_spec ds1 e2 Hf1) as (r2 & ds2 & -> & Hr2 & Hlen2 & Hf2 & Hneg2 & Hroots2);
    [lia|]. simpl.
  apply Hroots1, Hroots2 in Hr1. apply Hroots2 in Hr2.
  destruct (root_of_is_root _ _ _ Hr1) as (x1 & Hx1 & Hn1).
  destruct (root_of_is_root _ _ _ Hr2) as (x2 & Hx2 & Hn2).
  destruct (linkSets_spec ds2 r1 r2 x1 x2) as (ds' & -> & Hlen' & Hf'); auto.
  exists ds'. split; [done|]. split; [lia | done].
Qed.

(** ** The board after one cell was decided *)

Lemma u32_small x : 0 <= x < 2 ^ 32 -> u32 x = x.
Proof. intros H. unfold u32. by apply Z.mod_small. Qed.

Lemma u32_range x : 0 <= u32 x < 2 ^ 32.
Proof. unfold u32. apply Z.mod_pos_bound. lia. Qed.

Lemma count_in_insert (m : list (list Z)) (i j : nat) l x i' j' :
  m !! i = Some l -> (j < length l)%nat ->
  count_in (<[i := <[j := x]> l]> m) i' j'
  = if decide (i' = i /\ j' = j) then Some x else count_in m i' j'.
Proof. intros. unfold count_in. by apply lookup2_insert. Qed.

Lemma dim_bound t : shape_ok t -> Z.of_nat (dim t) = size t.
Proof. intros [[? ?] _ _ _ _ _ _ _ _]. unfold dim. lia. Qed.

Lemma row_unknowns_le t r v : (row_unknowns t r v <= dim t)%nat.
Proof. apply count_upto_le. Qed.

Lemma column_unknowns_le t c v : (column_unknowns t c v <= dim t)%nat.
Proof. apply count_upto_le. Qed.

Section Settle.

Variables (t : Table) (r c : nat) (row : list Cell) (cell : Cell)
          (lr lc : list Z) (st : State).
Hypothesis Hshape : shape_ok t.
Hypothesis Hcounts : counts_ok t.
Hypothesis Hr : (r < dim t)%nat.
Hypothesis Hrow : cells t !! r = Some row.
Hypothesis Hcell : row !! c = Some cell.
Hypothesis Hstate : state cell = Unknown.
Hypothesis Hst : st <> Unknown.
Hypothesis Hlr : rowCounts t !! r = Some lr.
Hypothesis Hlc : columnCounts t !! c = Some lc.

Let t2 := settle t r c row cell lr lc st.

Lemma settle_c_lt : (c < dim t)%nat.
Proof. rewrite <- (shape_rows t Hshape r row Hrow). by eapply lookup_lt_Some. Qed.

Lemma settle_cell_at : cell_at t r c = Some cell.
Proof. unfold cell_at. by rewrite Hrow. Qed.

Lemma settle_value : 1 <= value cell <= size t.
Proof. eapply shape_values; [done | apply settle_cell_at]. Qed.

Lemma settle_v_lt_lr : (Z.to_nat (value cell) < length lr)%nat.
Proof.
  rewrite (shape_rowCounts_rows t Hshape r lr Hlr).
  pose proof settle_value. unfold dim. lia.
Qed.

Lemma settle_v_lt_lc : (Z.to_nat (value cell) < length lc)%nat.
Proof.
  rewrite (shape_columnCounts_rows t Hshape c lc Hlc).
  pose proof settle_value. unfold dim. lia.
Qed.

Lemma settle_dim : dim t2 = dim t.
Proof. done. Qed.

Lemma settle_cell_at' r' c' :
  cell_at t2 r' c'
  = if decide (r' = r /\ c' = c) then Some (setState cell st) else cell_at t r' c'.
Proof.
  unfold cell_at, t2, settle. simpl. apply lookup2_insert; [done|].
  by eapply lookup_lt_Some.
Qed.

Lemma settle_unknown_with v r' c' :
  unknown_with t2 v r' c'
  = if decide (r' = r /\ c' = c) then false else unknown_with t v r' c'.
Proof.
  unfold unknown_with. rewrite settle_cell_at'. case_decide; [|done].
  simpl. destruct st; try done. by rewrite andb_false_r. by rewrite andb_false_r.
Qed.

Lemma settle_unknown_at r' c' :
  unknown_at t2 r' c'
  = if decide (r' = r /\ c' = c) then false else unknown_at t r' c'.
Proof.
  unfold unknown_at. rewrite settle_cell_at'. case_decide; [|done].
  simpl. by destruct st.
Qed.

Lemma settle_unknown_with_here : unknown_with t (value cell) r c = true.
Proof.
  unfold unknown_with. rewrite settle_cell_at, Hstate, Z.eqb_refl. done.
Qed.

Lemma settle_unknown_with_other v : v <> value cell -> unknown_with t v r c = false.
Proof.
  intros Hv. unfold unknown_with. rewrite settle_cell_at.
  destruct (Z.eqb_spec (value cell) v); [congruence | done].
Qed.

Lemma settle_row_unknowns i v :
  row_unknowns t i v
  = if decide (i = r /\ v = value cell)
    then S (row_unknowns t2 i v) else row_unknowns t2 i v.
Proof.
  unfold row_unknowns. rewrite settle_dim. case_decide as Hd.
  - destruct Hd as [-> ->]. apply (count_upto_clear _ _ _ c).
    + apply settle_c_lt.
    + apply settle_unknown_with_here.
    + rewrite settle_unknown_with. by rewrite decide_True.
    + intros i _ Hi. rewrite settle_unknown_with. rewrite decide_False; [done | tauto].
  - apply count_upto_ext. intros i' _. rewrite settle_unknown_with.
    case_decide as Hd'; [|done]. destruct Hd' as [-> ->].
    apply settle_unknown_with_other. intros ->. tauto.
Qed.

Lemma settle_column_unknowns i v :
  column_unknowns t i v
  = if decide (i = c /\ v = value cell)
    then S (column_unknowns t2 i v) else column_unknowns t2 i v.
Proof.
  unfold column_unknowns. rewrite settle_dim. case_decide as Hd.
  - destruct Hd as [-> ->]. apply (count_upto_clear _ _ _ r).
    + apply Hr.
    + apply settle_unknown_with_here.
    + rewrite settle_unknown_with. by rewrite decide_True.
    + intros i _ Hi. rewrite settle_unknown_with. rewrite decide_False; [done | tauto].
  - apply count_upto_ext. intros i' _. rewrite settle_unknown_with.
    case_decide as Hd'; [|done]. destruct Hd' as [-> ->].
    apply settle_unknown_with_other. intros ->. tauto.
Qed.

Lemma settle_unknowns : unknowns t = S (unknowns t2).
Proof.
  unfold unknowns. rewrite settle_dim. apply (sum_upto_lower _ _ _ r).
  - apply Hr.
  - apply (count_upto_clear _ _ _ c).
    + apply settle_c_lt.
    + unfold unknown_at. by rewrite settle_cell_at, Hstate.
    + rewrite settle_unknown_at. by rewrite decide_True.
    + intros i _ Hi. rewrite settle_unknown_at. rewrite decide_False; [done | tauto].
  - intros i _ Hi. apply count_upto_ext. intros c' _.
    rewrite settle_unknown_at. rewrite decide_False; [done | tauto].
Qed.

Lemma settle_shape : shape_ok t2.
Proof.
  destruct Hshape as [Hsz Hunk Hcl Hrl Hval Hrc Hrcl Hcc Hccl].
  constructor; simpl.
  - done.
  - apply u32_range.
  - by rewrite length_insert.
  - intros r' row'. destruct (decide (r' = r)) as [->|Hne].
    + rewrite list_lookup_insert_eq by (by eapply lookup_lt_Some).
      intros [= <-]. rewrite length_insert. by eapply Hrl.
    + rewrite list_lookup_insert_ne by done. apply Hrl.
  - intros r' c' cell'. fold t2. rewrite settle_cell_at'. case_decide.
    + intros [= <-]. simpl. apply settle_value.
    + apply Hval.
  - by rewrite length_insert.
  - intros r' l'. destruct (decide (r' = r)) as [->|Hne].
    + rewrite list_lookup_insert_eq by (by eapply lookup_lt_Some).
      intros [= <-]. rewrite length_insert. by eapply Hrcl.
    + rewrite list_lookup_insert_ne by done. apply Hrcl.
  - by rewrite length_insert.
  - intros r' l'. destruct (decide (r' = c)) as [->|Hne].
    + rewrite list_lookup_insert_eq by (by eapply lookup_lt_Some).
      intros [= <-]. rewrite length_insert. by eapply Hccl.
    + rewrite list_lookup_insert_ne by done. apply Hccl.
Qed.

Lemma settle_rowCounts i v :
  count_in (rowCounts t2) i v
  = if decide (i = r /\ v = Z.to_nat (value cell))
    then Some (Z.of_nat (row_unknowns t r (value cell)) - 1)
    else count_in (rowCounts t) i v.
Proof.
  unfold t2, settle. simpl. apply count_in_insert; [done | apply settle_v_lt_lr].
Qed.

Lemma settle_columnCounts i v :
  count_in (columnCounts t2) i v
  = if decide (i = c /\ v = Z.to_nat (value cell))
    then Some (Z.of_nat (column_unknowns t c (value cell)) - 1)
    else count_in (columnCounts t) i v.
Proof.
  unfold t2, settle. simpl. apply count_in_insert; [done | apply settle_v_lt_lc].
Qed.

Lemma settle_counts : counts_ok t2.
Proof.
  pose proof settle_value as Hv.
  intros i v Hi Hvd. rewrite settle_dim in Hi, Hvd.
  destruct (Hcounts i v Hi Hvd) as [Hcr Hcc]. split.
  - rewrite settle_rowCounts.
    pose proof (settle_row_unknowns i (Z.of_nat v)) as L.
    destruct (decide (i = r /\ v = Z.to_nat (value cell))) as [Hd|Hd].
    + rewrite decide_True in L by (split; [tauto | lia]).
      destruct Hd as [-> ->]. rewrite Z2Nat.id in * by lia. f_equal. lia.
    + rewrite decide_False in L by (intros [-> Hx]; apply Hd; split; [done | lia]).
      rewrite Hcr. by rewrite L.
  - rewrite settle_columnCounts.
    pose proof (settle_column_unknowns i (Z.of_nat v)) as L.
    destruct (decide (i = c /\ v = Z.to_nat (value cell))) as [Hd|Hd].
    + rewrite decide_True in L by (split; [tauto | lia]).
      destruct Hd as [-> ->]. rewrite Z2Nat.id in * by lia. f_equal. lia.
    + rewrite decide_False in L by (intros [-> Hx]; apply Hd; split; [done | lia]).
      rewrite Hcc. by rewrite L.
Qed.

Lemma settle_trees : trees_ok t -> trees_ok t2.
Proof.
  intros [Hb Hl Hf Hu]. constructor; simpl; try done.
  pose proof (shape_unknownCellCount t Hshape). pose proof settle_unknowns.
  rewrite u32_small by lia. lia.
Qed.

End Settle.

(** ** Reading a well-shaped board *)

Lemma shape_cell t r c :
  shape_ok t -> 0 <= r < size t -> 0 <= c < size t ->
  exists row cell, cells t !! Z.to_nat r = Some row
    /\ row !! Z.to_nat c = Some cell /\ at2 (cells t) r c = Ok cell.
Proof.
  intros Hs Hr Hc.
  destruct (lookup_lt_is_Some_2 (cells t) (Z.to_nat r)) as [row Hrow].
  { pose proof (shape_cells t Hs). unfold dim in *. lia. }
  destruct (lookup_lt_is_Some_2 row (Z.to_nat c)) as [cell Hcell].
  { rewrite (shape_rows t Hs _ _ Hrow). unfold dim. lia. }
  exists row, cell. split; [done|]. split; [done|]. apply at2_Ok.
  exists row. repeat split; (done || lia).
Qed.

Lemma shape_rowCount t r v :
  shape_ok t -> 0 <= r < size t -> 0 <= v <= size t ->
  exists l x, rowCounts t !! Z.to_nat r = Some l
    /\ l !! Z.to_nat v = Some x /\ at2 (rowCounts t) r v = Ok x.
Proof.
  intros Hs Hr Hv.
  destruct (lookup_lt_is_Some_2 (rowCounts t) (Z.to_nat r)) as [l Hl].
  { rewrite (shape_rowCounts t Hs). unfold dim. lia. }
  destruct (lookup_lt_is_Some_2 l (Z.to_nat v)) as [x Hx].
  { rewrite (shape_rowCounts_rows t Hs _ _ Hl). unfold dim. lia. }
  exists l, x. split; [done|]. split; [done|]. apply at2_Ok.
  exists l. repeat split; (done || lia).
Qed.

Lemma shape_columnCount t c v :
  shape_ok t -> 0 <= c < size t -> 0 <= v <= size t ->
  exists l x, columnCounts t !! Z.to_nat c = Some l
    /\ l !! Z.to_nat v = Some x /\ at2 (columnCounts t) c v = Ok x.
Proof.
  intros Hs Hr Hv.
  destruct (lookup_lt_is_Some_2 (columnCounts t) (Z.to_nat c)) as [l Hl].
  { rewrite (shape_columnCounts t Hs). unfold dim. lia. }
  destruct (lookup_lt_is_Some_2 l (Z.to_nat v)) as [x Hx].
  { rewrite (shape_columnCounts_rows t Hs _ _ Hl). unfold dim. lia. }
  exists l, x. split; [done|]. split; [done|]. apply at2_Ok.
  exists l. repeat split; (done || lia).
Qed.

Lemma counts_rowCount t r v l x :
  shape_ok t -> counts_ok t -> 0 <= r < size t -> 0 <= v <= size t ->
  rowCounts t !! Z.to_nat r = Some l -> l !! Z.to_nat v = Some x ->
  x = Z.of_nat (row_unknowns t (Z.to_nat r) v).
Proof.
  intros Hs Hc Hr Hv Hl Hx.
  destruct (Hc (Z.to_nat r) (Z.to_nat v)) as [H _]; [unfold dim; lia..|].
  unfold count_in in H. rewrite Hl, Hx in H. rewrite Z2Nat.id in H by lia.
  congruence.
Qed.

Lemma counts_columnCount t c v l x :
  shape_ok t -> counts_ok t -> 0 <= c < size t -> 0 <= v <= size t ->
  columnCounts t !! Z.to_nat c = Some l -> l !! Z.to_nat v = Some x ->
  x = Z.of_nat (column_unknowns t (Z.to_nat c) v).
Proof.
  intros Hs Hc Hr Hv Hl Hx.
  destruct (Hc (Z.to_nat c) (Z.to_nat v)) as [_ H]; [unfold dim; lia..|].
  unfold count_in in H. rewrite Hl, Hx in H. rewrite Z2Nat.id in H by lia.
  congruence.
Qed.

(** The three assignments that decide a cell produce [settle]. *)
Lemma settle_run t row column st rw cell :
  shape_ok t -> counts_ok t -> 0 <= row < size t -> 0 <= column ->
  cells t !! Z.to_nat row = Some rw -> rw !! Z.to_nat column = Some cell ->
  state cell = Unknown ->
  exists lr lc,
    rowCounts t !! Z.to_nat row = Some lr
    /\ columnCounts t !! Z.to_nat column = Some lc
    /\ (t1 <- set_cell_state t row column st ;;
        decrement_counts t1 row column (value cell))
       = Ok (settle t (Z.to_nat row) (Z.to_nat column) rw cell lr lc st).
Proof.
  intros Hs Hc Hr0 Hc0 Hrw Hcell Hst.
  assert (Hr : (Z.to_nat row < dim t)%nat) by (unfold dim; lia).
  pose proof (settle_c_lt t _ _ _ _ Hs Hrw Hcell) as Hcl.
  pose proof (settle_value t _ _ _ _ Hs Hrw Hcell) as Hv.
  pose proof (dim_bound t Hs) as Hd.
  destruct (shape_rowCount t row (value cell) Hs) as (lr & x & Hlr & Hx & Hax); [lia..|].
  destruct (shape_columnCount t column (value cell) Hs) as (lc & y & Hlc & Hy & Hay);
    [lia..|].
  exists lr, lc. split; [done|]. split; [done|].
  assert (set_cell_state t row column st = Ok (mkTable (size t)
            (<[Z.to_nat row := <[Z.to_nat column := setState cell st]> rw]> (cells t))
            (rowCounts t) (columnCounts t) (unknownCellCount t) (deletedTrees t)))
    as -> by (apply set_cell_state_Ok; exists rw, cell; split_and!; auto; lia).
  simpl. unfold decrement_counts. simpl. rewrite Hax. simpl.
  pose proof (counts_rowCount t row (value cell) lr x Hs Hc) as Ex.
  pose proof (counts_columnCount t column (value cell) lc y Hs Hc) as Ey.
  rewrite Ex in * by (done || lia). rewrite Ey in * by (done || lia). clear Ex Ey.
  pose proof (row_unknowns_le t (Z.to_nat row) (value cell)).
  pose proof (column_unknowns_le t (Z.to_nat column) (value cell)).
  assert (0 < row_unknowns t (Z.to_nat row) (value cell))%nat.
  { apply (count_upto_pos _ _ (Z.to_nat column)); [done|].
    by eapply settle_unknown_with_here. }
  assert (0 < column_unknowns t (Z.to_nat column) (value cell))%nat.
  { apply (count_upto_pos _ _ (Z.to_nat row)); [done|].
    by eapply settle_unknown_with_here. }
  pose proof (shape_size t Hs).
  rewrite (u32_small (Z.of_nat (row_unknowns t (Z.to_nat row) (value cell)) - 1))
    by lia.
  match goal with |- context [set_rowCount ?a ?b ?c ?d] =>
    assert (set_rowCount a b c d = Ok (mkTable (size t)
      (<[Z.to_nat row := <[Z.to_nat column := setState cell st]> rw]> (cells t))
      (<[Z.to_nat row := <[Z.to_nat (value cell) := d]> lr]> (rowCounts t))
      (columnCounts t) (unknownCellCount t) (deletedTrees t))) as ->
  end.
  { apply set_rowCount_Ok. exists lr. simpl. apply lookup_lt_Some in Hx.
    repeat split; (done || lia). }
  simpl. rewrite Hay. simpl.
  match goal with |- context [set_columnCount ?a ?b ?c ?d] =>
    assert (set_columnCount a b c d = Ok (mkTable (size t)
      (<[Z.to_nat row := <[Z.to_nat column := setState cell st]> rw]> (cells t))
      (<[Z.to_nat row := <[Z.to_nat (value cell) :=
           Z.of_nat (row_unknowns t (Z.to_nat row) (value cell)) - 1]> lr]> (rowCounts t))
      (<[Z.to_nat column := <[Z.to_nat (value cell) := d]> lc]> (columnCounts t))
      (unknownCellCount t) (deletedTrees t))) as ->
  end.
  { apply set_columnCount_Ok. exists lc. simpl. apply lookup_lt_Some in Hy.
    repeat split; (done || lia). }
  simpl.
  rewrite (u32_small (Z.of_nat (column_unknowns t (Z.to_nat column) (value cell)) - 1))
    by lia.
  done.
Qed.

(** ** finalizeUniqueCells keeps the invariant *)

Lemma finalizeUniqueCells_body_spec r c t :
  shape_ok t -> counts_ok t -> 0 <= r < size t -> 0 <= c < size t ->
  exists t', finalizeUniqueCells_body r c t = Ok t'
    /\ shape_ok t' /\ counts_ok t' /\ size t' = size t
    /\ (unknowns t' <= unknowns t)%nat
    /\ (trees_ok t -> trees_ok t').
Proof.
  intros Hs Hc Hr Hcl.
  assert (Hsame : exists t', Ok t = Ok t'
    /\ shape_ok t' /\ counts_ok t' /\ size t' = size t
    /\ (unknowns t' <= unknowns t)%nat /\ (trees_ok t -> trees_ok t'))
    by (exists t; split_and!; auto).
  destruct (shape_cell t r c Hs Hr Hcl) as (rw & cell & Hrw & Hcell & Hat).
  pose proof (settle_value t _ _ _ _ Hs Hrw Hcell) as Hv.
  assert (Hrd : (Z.to_nat r < dim t)%nat) by (unfold dim; lia).
  unfold finalizeUniqueCells_body. rewrite Hat. simpl.
  destruct (state cell) eqn:Hst; try done.
  destruct (shape_rowCount t r (value cell) Hs) as (lr & x & Hlr & Hx & Hax); [lia..|].
  rewrite Hax. simpl. destruct (Z.eqb_spec x 1) as [->|]; simpl; [|done].
  destruct (shape_columnCount t c (value cell) Hs) as (lc & y & Hlc & Hy & Hay);
    [lia..|].
  rewrite Hay. simpl. destruct (Z.eqb_spec y 1) as [->|]; simpl; [|done].
  clear Hsame.
  pose proof (counts_rowCount t r (value cell) lr 1 Hs Hc) as Ex.
  pose proof (counts_columnCount t c (value cell) lc 1 Hs Hc) as Ey.
  exists (settle t (Z.to_nat r) (Z.to_nat c) rw cell lr lc Final).
  split.
  - assert (set_cell_state t r c Final = Ok (mkTable (size t)
            (<[Z.to_nat r := <[Z.to_nat c := setState cell Final]> rw]> (cells t))
            (rowCounts t) (columnCounts t) (unknownCellCount t) (deletedTrees t)))
      as -> by (apply set_cell_state_Ok; exists rw, cell; repeat split; (done || lia)).
    simpl.
    match goal with |- context [set_rowCount ?a1 ?a2 ?a3 ?d] =>
      assert (set_rowCount a1 a2 a3 d = Ok (mkTable (size t)
        (<[Z.to_nat r := <[Z.to_nat c := setState cell Final]> rw]> (cells t))
        (<[Z.to_nat r := <[Z.to_nat (value cell) := d]> lr]> (rowCounts t))
        (columnCounts t) (unknownCellCount t) (deletedTrees t))) as ->
    end.
    { apply set_rowCount_Ok. exists lr. simpl. apply lookup_lt_Some in Hx.
      repeat split; (done || lia). }
    simpl.
    match goal with |- context [set_columnCount ?a1 ?a2 ?a3 ?d] =>
      assert (set_columnCount a1 a2 a3 d = Ok (mkTable (size t)
        (<[Z.to_nat r := <[Z.to_nat c := setState cell Final]> rw]> (cells t))
        (<[Z.to_nat r := <[Z.to_nat (value cell) := 0]> lr]> (rowCounts t))
        (<[Z.to_nat c := <[Z.to_nat (value cell) := d]> lc]> (columnCounts t))
        (unknownCellCount t) (deletedTrees t))) as ->
    end.
    { apply set_columnCount_Ok. exists lc. simpl. apply lookup_lt_Some in Hy.
      repeat split; (done || lia). }
    simpl. unfold settle, set_unknownCellCount. simpl.
    rewrite <- Ex by (done || lia). rewrite <- Ey by (done || lia). done.
  - split; [by eapply settle_shape|]. split; [by eapply settle_counts|].
    split; [done|]. split.
    + rewrite (settle_unknowns t _ _ rw cell lr lc Final) by done. lia.
    + by eapply settle_trees.
Qed.

Lemma finalizeUniqueCells_spec t :
  shape_ok t -> counts_ok t ->
  exists t', finalizeUniqueCells t = Ok t'
    /\ shape_ok t' /\ counts_ok t' /\ size t' = size t
    /\ (unknowns t' <= unknowns t)%nat
    /\ (trees_ok t -> trees_ok t').
Proof.
  intros Hs Hc.
  pose (I := fun s => shape_ok s /\ counts_ok s /\ size s = size t
                      /\ (unknowns s <= unknowns t)%nat
                      /\ (trees_ok t -> trees_ok s)).
  assert (R : rpred I (fun _ => False) False False (finalizeUniqueCells t)).
  { unfold finalizeUniqueCells.
    pose proof (shape_size t Hs) as Hsz.
    apply (for_loop_rpred (fun _ => I) (fun _ => False) False False).
    { unfold I. split_and!; auto. }
    intros r s Hr (Hs' & Hc' & Hsz' & Hu' & Ht'). rewrite Hsz'.
    apply (for_loop_rpred (fun _ => I) (fun _ => False) False False).
    { unfold I. split_and!; auto. }
    intros c s' Hcl (Hs'' & Hc'' & Hsz'' & Hu'' & Ht'').
    destruct (finalizeUniqueCells_body_spec r c s' Hs'' Hc'')
      as (s'' & -> & ? & ? & ? & ? & ?); [lia..|].
    simpl. unfold I. split_and!; auto; [congruence | lia]. }
  destruct (finalizeUniqueCells t) as [t'| | |]; simpl in R; try done.
  exists t'. split; [done|]. apply R.
Qed.

(** ** finalizeCell and deleteCell keep the invariant *)

Lemma rpred_guard {A} (B : Prop) (Q : A -> Prop) (E1 E2 : exn -> Prop) r :
  rpred (fun _ => True) E1 True True r ->
  (B -> rpred Q E2 False False r) ->
  rpred (fun a => B -> Q a) (fun e => E1 e /\ (B -> E2 e)) (~ B) (~ B) r.
Proof. destruct r; simpl; auto. Qed.

Lemma State_eqb_eq a b : State_eqb a b = true <-> a = b.
Proof. destruct a, b; simpl; split; congruence. Qed.

Lemma in_grid_range t r c :
  in_grid t r c = true -> 0 <= r < size t /\ 0 <= c < size t.
Proof. unfold in_grid. rewrite !andb_true_iff. lia. Qed.

Lemma unknown_at_cell t r c :
  0 <= r -> 0 <= c -> unknown_at t (Z.to_nat r) (Z.to_nat c) = true ->
  exists row cell, cells t !! Z.to_nat r = Some row
    /\ row !! Z.to_nat c = Some cell /\ state cell = Unknown
    /\ at2 (cells t) r c = Ok cell.
Proof.
  intros Hr Hc. unfold unknown_at, cell_at.
  destruct (cells t !! Z.to_nat r) as [row|] eqn:Hrow; [|done].
  destruct (row !! Z.to_nat c) as [cell|] eqn:Hcell; [|done].
  intros H. apply State_eqb_eq in H. exists row, cell.
  split; [done|]. split; [done|]. split; [done|]. apply at2_Ok. exists row. auto.
Qed.

Lemma at2_unknown_at t r c cell :
  at2 (cells t) r c = Ok cell -> state cell = Unknown ->
  unknown_at t (Z.to_nat r) (Z.to_nat c) = true.
Proof.
  intros H Hst. apply at2_Ok in H as (row & _ & _ & Hrow & Hcell).
  unfold unknown_at, cell_at. rewrite Hrow, Hcell, Hst. done.
Qed.

(** The union-find operations raise no exception of the board. *)
Lemma findSet_root_no_throw fuel p e :
  rpred (fun _ => True) (fun _ => False) True True (findSet_root fuel p e).
Proof.
  revert e. induction fuel as [|fuel IH]; intros e; simpl; [done|].
  destruct (at_cases p e) as [[x ->] | ->]; simpl; [|done].
  destruct (0 <=? x); [apply IH | done].
Qed.

Lemma findSet_compress_no_throw fuel p e root :
  rpred (fun _ => True) (fun _ => False) True True (findSet_compress fuel p e root).
Proof.
  revert p e. induction fuel as [|fuel IH]; intros p e; simpl; [done|].
  destruct (at_cases p e) as [[x ->] | ->]; simpl; [|done].
  destruct (0 <=? x); [|done].
  destruct (set_at_cases p e root) as [[p' ->] | ->]; simpl; [apply IH | done].
Qed.

Lemma not_of_board_range w : not_of_board (range_error w).
Proof. split; [done|]. intros [? ?]. done. Qed.

Lemma not_of_board_logic w : not_of_board (logic_error w).
Proof. split; [done|]. intros [? ?]. done. Qed.

Lemma findSet_no_throw ds e :
  rpred (fun _ => True) not_of_board True True (findSet ds e).
Proof.
  unfold findSet, assertElementRange.
  destruct (_ || _); simpl; [apply not_of_board_range|].
  pose proof (findSet_root_no_throw (length (parents ds)) (parents ds) e) as R.
  destruct (findSet_root _ _ _) as [root| | |]; simpl in *; try done.
  pose proof (findSet_compress_no_throw (length (parents ds)) (parents ds) e root) as R'.
  destruct (findSet_compress _ _ _ _) as [p'| | |]; simpl in *; done.
Qed.

Lemma linkSets_no_throw ds set1 set2 :
  rpred (fun _ => True) not_of_board True True (linkSets ds set1 set2).
Proof.
  unfold linkSets, assertElementRange.
  destruct (_ || _); simpl; [apply not_of_board_range|].
  destruct (_ || _); simpl; [apply not_of_board_range|].
  destruct (at_cases (parents ds) set1) as [[x ->] | ->]; simpl; [|done].
  destruct (0 <=? x); [apply not_of_board_logic|].
  destruct (at_cases (parents ds) set2) as [[y ->] | ->]; simpl; [|done].
  destruct (0 <=? y); [apply not_of_board_logic|].
  destruct (set1 =? set2); [done|].
  destruct (_ <? _).
  { destruct (set_at_cases (parents ds) set1 set2) as [[p' ->] | ->]; done. }
  destruct (_ <? _).
  { destruct (set_at_cases (parents ds) set2 set1) as [[p' ->] | ->]; done. }
  destruct (set_at_cases (parents ds) set1 set2) as [[p' ->] | ->]; simpl; [|done].
  destruct (at_cases p' set2) as [[z ->] | ->]; simpl; [|done].
  destruct (set_at_cases p' set2 (z - 1)) as [[p'' ->] | ->]; done.
Qed.

Lemma unionSets_no_throw ds e1 e2 :
  rpred (fun _ => True) not_of_board True True (unionSets ds e1 e2).
Proof.
  unfold unionSets.
  eapply rpred_bind; [apply findSet_no_throw|]. intros f1 _.
  eapply rpred_bind; [apply findSet_no_throw|]. intros f2 _.
  apply linkSets_no_throw.
Qed.

Lemma cellSet_range t r c :
  0 <= size t -> size t * size t + 1 < 2 ^ 31 ->
  0 <= r < size t -> 0 <= c < size t ->
  to_int (u32 (r * size t + c + 1)) = r * size t + c + 1
  /\ 0 < r * size t + c + 1 < size t * size t + 1.
Proof.
  intros Hs Hb Hr Hc.
  assert (0 <= r * size t) by nia.
  assert (r * size t + c + 1 <= size t * size t) by nia.
  rewrite u32_small by lia. unfold to_int.
  destruct (Z.ltb_spec (r * size t + c + 1) (2 ^ 31)); lia.
Qed.

Lemma deleteCell_neighbor_step_spec t row column rOffs cOffs :
  shape_ok t ->
  rpred (fun _ => True) is_contradiction False False
    (deleteCell_neighbor_step t row column rOffs cOffs tt).
Proof.
  intros Hs. unfold deleteCell_neighbor_step.
  destruct (in_grid t _ _) eqn:Hg; [|done].
  apply in_grid_range in Hg as [Hr Hc].
  destruct (shape_cell t _ _ Hs Hr Hc) as (rw & n & _ & _ & ->). simpl.
  destruct (State_eqb _ _); simpl; [by eexists | done].
Qed.

Lemma deleteCell_diagonal_step_spec t row column rOffs cOffs ds :
  shape_ok t -> size t * size t + 1 < 2 ^ 31 ->
  0 <= row < size t -> 0 <= column < size t ->
  forest_kept (Z.to_nat (size t * size t + 1)) ds ->
  rpred (forest_kept (Z.to_nat (size t * size t + 1))) is_contradiction False False
    (deleteCell_diagonal_step t row column
       (to_int (u32 (row * size t + column + 1))) rOffs cOffs ds).
Proof.
  intros Hs Hb Hrow Hcol [Hlen Hf]. unfold deleteCell_diagonal_step.
  pose proof (shape_size t Hs) as Hsz.
  destruct (in_grid t _ _) eqn:Hg; [|done].
  apply in_grid_range in Hg as [Hr Hc].
  destruct (shape_cell t _ _ Hs Hr Hc) as (rw & n & _ & _ & ->). simpl.
  destruct (State_eqb _ _); simpl; [|done].
  destruct (cellSet_range t _ _ (proj1 Hsz) Hb Hr Hc) as [-> Hd].
  destruct (cellSet_range t _ _ (proj1 Hsz) Hb Hrow Hcol) as [-> Hcs].
  destruct (findSet_spec ds (u32 (row + rOffs) * size t + u32 (column + cOffs) + 1) Hf)
    as (r1 & ds1 & -> & Hr1 & Hlen1 & Hf1 & Hneg1 & Hroots1); [lia|]. simpl.
  destruct (findSet_spec ds1 (row * size t + column + 1) Hf1)
    as (r2 & ds2 & -> & Hr2 & Hlen2 & Hf2 & Hneg2 & Hroots2); [lia|]. simpl.
  destruct (Z.eqb_spec r1 r2); simpl; [by eexists|].
  apply Hroots1, Hroots2 in Hr1. apply Hroots2 in Hr2.
  destruct (root_of_is_root _ _ _ Hr1) as (x1 & Hx1 & Hn1).
  destruct (root_of_is_root _ _ _ Hr2) as (x2 & Hx2 & Hn2).
  destruct (linkSets_spec ds2 r1 r2 x1 x2) as (ds' & -> & Hlen' & Hf'); auto.
  simpl. split; [lia | done].
Qed.

Lemma deleteCell_checks_trees t row column :
  shape_ok t -> trees_ok t -> 0 <= row < size t -> 0 <= column < size t ->
  rpred (forest_kept (Z.to_nat (size t * size t + 1))) is_contradiction False False
    (deleteCell_checks t row column).
Proof.
  intros Hs [Hb Hlen Hf Hu] Hrow Hcol. unfold deleteCell_checks.
  pose proof (shape_size t Hs) as Hsz.
  eapply rpred_bind.
  { apply (offs_loop_rpred (fun _ => True)); [done|]. intros ro co [] _.
    by apply deleteCell_neighbor_step_spec. }
  intros _ _.
  eapply (rpred_bind (forest_kept (Z.to_nat (size t * size t + 1)))).
  { destruct (on_border t row column); simpl; [|done].
    destruct (cellSet_range t _ _ (proj1 Hsz) Hb Hrow Hcol) as [-> Hcs].
    destruct (unionSets_spec (deletedTrees t) 0 (row * size t + column + 1) Hf)
      as (ds' & -> & Hlen' & Hf'); [lia..|].
    simpl. split; [lia | done]. }
  intros ds Hds.
  apply (offs_loop_rpred (forest_kept (Z.to_nat (size t * size t + 1)))); [done|].
  intros ro co ds' Hds'. by apply deleteCell_diagonal_step_spec.
Qed.

Lemma deleteCell_checks_no_msc t row column :
  rpred (fun _ => True) (fun e => e <> MultipleStateChangeException) True True
    (deleteCell_checks t row column).
Proof.
  unfold deleteCell_checks.
  eapply rpred_bind.
  { apply (offs_loop_rpred (fun _ => True)); [done|]. intros ro co [] _.
    unfold deleteCell_neighbor_step. destruct (in_grid t _ _); [|done].
    destruct (at2_cases (cells t) (u32 (row + ro)) (u32 (column + co)))
      as [[n ->] | ->]; simpl; [|done].
    by destruct (State_eqb _ _). }
  intros _ _.
  eapply (rpred_bind (fun _ => True)).
  { destruct (on_border t row column); simpl; [|done].
    eapply rpred_mono; [apply unionSets_no_throw | auto..]. by intros e []. }
  intros ds _.
  apply (offs_loop_rpred (fun _ => True)); [done|]. intros ro co ds' _.
  unfold deleteCell_diagonal_step. destruct (in_grid t _ _); [|done].
  destruct (at2_cases (cells t) (u32 (row + ro)) (u32 (column + co)))
    as [[n ->] | ->]; simpl; [|done].
  destruct (State_eqb _ _); [|done].
  eapply (rpred_bind (fun _ => True)).
  { eapply rpred_mono; [apply findSet_no_throw | auto..]. by intros e []. }
  intros f1 _.
  eapply (rpred_bind (fun _ => True)).
  { eapply rpred_mono; [apply findSet_no_throw | auto..]. by intros e []. }
  intros f2 _. simpl.
  destruct (negb _); [|done].
  eapply rpred_mono; [apply linkSets_no_throw | auto..]. by intros e [].
Qed.

Lemma deleteCell_checks_spec (B : Prop) t row column :
  board_ok B t -> 0 <= row < size t -> 0 <= column < size t ->
  rpred (fun ds => B -> forest_kept (Z.to_nat (size t * size t + 1)) ds)
    (cascade_exn B) (~ B) (~ B) (deleteCell_checks t row column).
Proof.
  intros (Hs & Hc & Ht) Hrow Hcol.
  apply (rpred_guard B _ (fun e => e <> MultipleStateChangeException) is_contradiction).
  - apply deleteCell_checks_no_msc.
  - intros HB. apply deleteCell_checks_trees; auto.
Qed.

Arguments settle : simpl never.
Arguments offs_loop : simpl never.

Lemma settle_run_steps t row column st rw cell :
  shape_ok t -> counts_ok t -> 0 <= row < size t -> 0 <= column ->
  cells t !! Z.to_nat row = Some rw -> rw !! Z.to_nat column = Some cell ->
  state cell = Unknown ->
  exists lr lc t1,
    rowCounts t !! Z.to_nat row = Some lr
    /\ columnCounts t !! Z.to_nat column = Some lc
    /\ set_cell_state t row column st = Ok t1
    /\ decrement_counts t1 row column (value cell)
       = Ok (settle t (Z.to_nat row) (Z.to_nat column) rw cell lr lc st).
Proof.
  intros Hs Hc Hr0 Hc0 Hrw Hcell Hst.
  destruct (settle_run t row column st rw cell Hs Hc Hr0 Hc0 Hrw Hcell Hst)
    as (lr & lc & Hlr & Hlc & H).
  apply bind_Ok in H as (t1 & H1 & H2). exists lr, lc, t1. auto.
Qed.

Lemma decided_trans B t s s' : decided B t s -> decided B s s' -> decided B t s'.
Proof.
  intros (? & ? & ?) (? & ? & ?). split; [done|]. split; [congruence | lia].
Qed.

Lemma board_ok_set_deletedTrees (B : Prop) t ds :
  board_ok B t ->
  (B -> forest_kept (Z.to_nat (size t * size t + 1)) ds) ->
  board_ok B (set_deletedTrees t ds).
Proof.
  intros (Hs & Hc & Ht) Hds. split; [|split].
  - destruct Hs. by constructor.
  - exact Hc.
  - intros HB. destruct (Ht HB) as [Hb Hl Hf Hu]. destruct (Hds HB) as [Hl' Hf'].
    by constructor.
Qed.

Section CascadeProof.

Variables (B OO : Prop).
Hypothesis HBO : ~ B -> OO.

Section Bodies.

Variable callee : Table -> Z -> Z -> result Table.
Variable t : Table.
Hypothesis Hcallee : cascade_callee B OO (unknowns t) callee.

Lemma callee_step s r c cell :
  decided B t s -> 0 <= r < size s -> 0 <= c < size s ->
  at2 (cells s) r c = Ok cell -> state cell = Unknown ->
  rpred (decided B t) (cascade_exn B) (~ B) OO (callee s r c).
Proof.
  intros Hd Hr Hc Hat Hst. pose proof Hd as (Hs & Hsz & Hu).
  eapply rpred_mono; [apply Hcallee | | auto..]; auto.
  - by eapply at2_unknown_at.
  - intros s' Hs'. by eapply decided_trans.
Qed.

Lemma finalizeCell_column_step_spec row column val r s :
  decided B t s -> 0 <= r < size s -> 0 <= column < size s ->
  rpred (decided B t) (cascade_exn B) (~ B) OO
    (finalizeCell_column_step callee row column val r s).
Proof.
  intros Hd Hr Hc. pose proof Hd as ((Hs & _) & _).
  unfold finalizeCell_column_step.
  destruct (shape_cell s r column Hs Hr Hc) as (rw & cell & _ & _ & Hat).
  rewrite Hat. simpl. destruct (_ && _); [|done].
  destruct (state cell) eqn:Hst; simpl.
  - by eapply callee_step.
  - split; [done|]. intros _. by eexists.
  - done.
Qed.

Lemma finalizeCell_row_step_spec row column val c s :
  decided B t s -> 0 <= row < size s -> 0 <= c < size s ->
  rpred (decided B t) (cascade_exn B) (~ B) OO
    (finalizeCell_row_step callee row column val c s).
Proof.
  intros Hd Hr Hc. pose proof Hd as ((Hs & _) & _).
  unfold finalizeCell_row_step.
  destruct (shape_cell s row c Hs Hr Hc) as (rw & cell & _ & _ & Hat).
  rewrite Hat. simpl. destruct (_ && _); [|done].
  destruct (state cell) eqn:Hst; simpl.
  - by eapply callee_step.
  - split; [done|]. intros _. by eexists.
  - done.
Qed.

Lemma deleteCell_force_step_spec row column rOffs cOffs s :
  decided B t s ->
  rpred (decided B t) (cascade_exn B) (~ B) OO
    (deleteCell_force_step callee row column rOffs cOffs s).
Proof.
  intros Hd. pose proof Hd as ((Hs & _) & _).
  unfold deleteCell_force_step.
  destruct (in_grid s _ _) eqn:Hg; [|done].
  apply in_grid_range in Hg as [Hr Hc].
  destruct (shape_cell s _ _ Hs Hr Hc) as (rw & cell & _ & _ & Hat).
  rewrite Hat. simpl. destruct (State_eqb _ _) eqn:Hst; [|done].
  apply State_eqb_eq in Hst. by eapply callee_step.
Qed.

Lemma finalizeCell_body_spec row column :
  board_ok B t -> 0 <= row < size t -> 0 <= column < size t ->
  unknown_at t (Z.to_nat row) (Z.to_nat column) = true ->
  rpred (decided B t) (cascade_exn B) (~ B) OO
    (finalizeCell_body callee t row column).
Proof.
  intros (Hs & Hc & Ht) Hrow Hcol Hunk.
  destruct (unknown_at_cell t row column) as (rw & cell & Hrw & Hcell & Hst & Hat);
    [lia | lia | done |].
  assert (Hrd : (Z.to_nat row < dim t)%nat) by (unfold dim; lia).
  unfold finalizeCell_body. rewrite Hat. simpl. rewrite Hst. simpl.
  destruct (settle_run_steps t row column Final rw cell)
    as (lr & lc & t1 & Hlr & Hlc & H1 & H2); [done | done | lia | lia | done..|].
  rewrite H1. cbn [bind]. rewrite H2. cbn [bind].
  set (t2 := settle t (Z.to_nat row) (Z.to_nat column) rw cell lr lc Final).
  assert (Hs2 : shape_ok t2) by (by eapply settle_shape).
  assert (Hd2 : decided B t t2).
  { split; [split; [done | split]|split].
    - by eapply settle_counts.
    - intros HB. eapply settle_trees; auto.
    - done.
    - rewrite (settle_unknowns t _ _ rw cell lr lc Final) by done. fold t2. lia. }
  pose proof (settle_value t _ _ _ _ Hs Hrw Hcell) as Hv.
  destruct (shape_columnCount t2 column (value cell) Hs2) as (? & y & _ & _ & ->);
    [done | simpl; lia |]. simpl.
  eapply (rpred_bind (decided B t)).
  { destruct (0 <? y); [|done].
    apply (for_loop_rpred (fun _ => decided B t)); [done|].
    intros r s Hr Hd. pose proof Hd as (_ & Hsz & _).
    apply finalizeCell_column_step_spec; [done | simpl in Hr; lia | lia]. }
  intros s Hd. pose proof Hd as ((Hs' & _) & Hsz & _).
  destruct (shape_rowCount s row (value cell) Hs') as (? & xr & _ & _ & ->);
    [lia | lia |]. simpl.
  destruct (0 <? xr); [|done].
  apply (for_loop_rpred (fun _ => decided B t)); [done|].
  intros c s' Hcl Hd'. pose proof Hd' as (_ & Hsz' & _).
  apply finalizeCell_row_step_spec; [done | lia | lia].
Qed.

Lemma deleteCell_body_spec row column :
  board_ok B t -> 0 <= row < size t -> 0 <= column < size t ->
  unknown_at t (Z.to_nat row) (Z.to_nat column) = true ->
  rpred (decided B t) (cascade_exn B) (~ B) OO
    (deleteCell_body callee t row column).
Proof.
  intros Hok Hrow Hcol Hunk.
  destruct (unknown_at_cell t row column) as (rw & cell & Hrw & Hcell & Hst & Hat);
    [lia | lia | done |].
  assert (Hrd : (Z.to_nat row < dim t)%nat) by (unfold dim; lia).
  unfold deleteCell_body. rewrite Hat. simpl. rewrite Hst. simpl.
  eapply (rpred_bind
            (fun ds => B -> forest_kept (Z.to_nat (size t * size t + 1)) ds)).
  { eapply rpred_mono; [by apply deleteCell_checks_spec | auto..]. }
  intros ds Hds.
  pose proof (board_ok_set_deletedTrees B t ds Hok Hds) as (Hs & Hc & Ht).
  set (t' := set_deletedTrees t ds) in *.
  destruct (settle_run_steps t' row column Deleted rw cell)
    as (lr & lc & t1 & Hlr & Hlc & H1 & H2);
    [done | done | simpl; lia | lia | done..|].
  rewrite H1, bind_ret. cbv beta zeta. rewrite H2, bind_ret. cbv beta.
  set (t2 := settle t' (Z.to_nat row) (Z.to_nat column) rw cell lr lc Deleted).
  assert (Hd2 : decided B t t2).
  { split; [split; [|split]|split].
    - by eapply settle_shape.
    - by eapply settle_counts.
    - intros HB. eapply (settle_trees t'); auto.
    - done.
    - change (unknowns t) with (unknowns t').
      rewrite (settle_unknowns t' _ _ rw cell lr lc Deleted) by done. fold t2. lia. }
  apply (offs_loop_rpred (decided B t)); [done|].
  intros ro co s Hd. by apply deleteCell_force_step_spec.
Qed.

End Bodies.

(** Both methods, by induction on the fuel: with [OO] a shortage of fuel
    is admitted; without it the fuel must exceed the number of Unknown
    cells. *)
Lemma cascade_spec fuel :
  (forall t row column,
      board_ok B t -> OO \/ (unknowns t < fuel)%nat ->
      0 <= row < size t -> 0 <= column < size t ->
      unknown_at t (Z.to_nat row) (Z.to_nat column) = true ->
      rpred (decided B t) (cascade_exn B) (~ B) OO (finalizeCell fuel t row column))
  /\ (forall t row column,
      board_ok B t -> OO \/ (unknowns t < fuel)%nat ->
      0 <= row < size t -> 0 <= column < size t ->
      unknown_at t (Z.to_nat row) (Z.to_nat column) = true ->
      rpred (decided B t) (cascade_exn B) (~ B) OO (deleteCell fuel t row column)).
Proof.
  induction fuel as [|fuel [IHf IHd]].
  - split; intros t row column _ [H|H] _ _ _; simpl; (done || lia).
  - split; intros t row column Hok Hfuel Hrow Hcol Hunk; simpl.
    + apply finalizeCell_body_spec; auto.
      intros s r c Hs Hu Hr Hc Hunk'. apply IHd; auto.
      destruct Hfuel; [by left | right; lia].
    + apply deleteCell_body_spec; auto.
      intros s r c Hs Hu Hr Hc Hunk'. apply IHf; auto.
      destruct Hfuel; [by left | right; lia].
Qed.

End CascadeProof.

(** ** getFinalizeCandidatePos *)

Lemma for_loop_fold {St} (f : nat -> St -> St) body n :
  forall k0 (s : St),
    (forall k s, (k0 <= k < k0 + n)%nat -> body (Z.of_nat k) s = Ok (f k s)) ->
    for_loop n (Z.of_nat k0) body s
    = Ok (fold_left (fun s k => f k s) (seq k0 n) s).
Proof.
  induction n as [|n IH]; intros k0 s H; simpl; [done|].
  rewrite H by lia. simpl.
  replace (Z.of_nat k0 + 1) with (Z.of_nat (S k0)) by lia.
  apply IH. intros k s' Hk. apply H. lia.
Qed.

Lemma fold_left_flat_map {X Y St} (g : St -> Y -> St) (h : X -> list Y) l :
  forall s, fold_left g (flat_map h l) s
            = fold_left (fun s x => fold_left g (h x) s) l s.
Proof.
  induction l as [|x l IH]; intros s; simpl; [done|].
  by rewrite fold_left_app, IH.
Qed.

Lemma fold_left_over_map {X Y St} (g : St -> Y -> St) (h : X -> Y) l :
  forall s, fold_left g (map h l) s = fold_left (fun s x => g s (h x)) l s.
Proof. induction l as [|x l IH]; intros s; simpl; [done|]. apply IH. Qed.

Lemma fold_left_ext_in {X St} (g g' : St -> X -> St) l :
  (forall s x, In x l -> g s x = g' s x) ->
  forall s, fold_left g l s = fold_left g' l s.
Proof.
  induction l as [|x l IH]; intros H s; simpl; [done|].
  rewrite H by (by left). apply IH. intros s' y Hy. apply H. by right.
Qed.

Lemma candidate_step_run t (r c v : nat) acc :
  shape_ok t -> (r < dim t)%nat -> (c < dim t)%nat -> (1 <= v <= dim t)%nat ->
  candidate_step t (Z.of_nat r) (Z.of_nat c) (Z.of_nat v) acc
  = Ok (if unknown_at t r c then best_step t acc (r, c, v) else acc).
Proof.
  intros Hs Hr Hc Hv. pose proof (dim_bound t Hs) as Hd.
  destruct acc as [[rMax cMax] maxCount].
  destruct (shape_cell t (Z.of_nat r) (Z.of_nat c) Hs) as (rw & cell & Hrw & Hcell & Hat);
    [lia..|].
  rewrite !Nat2Z.id in *.
  unfold candidate_step. rewrite Hat. simpl.
  unfold unknown_at, cell_at. rewrite Hrw, Hcell.
  destruct (State_eqb (state cell) Unknown); [|done].
  destruct (shape_rowCount t (Z.of_nat r) (Z.of_nat v) Hs) as (lr & x & Hlr & Hx & ->);
    [lia..|].
  destruct (shape_columnCount t (Z.of_nat c) (Z.of_nat v) Hs) as (lc & y & Hlc & Hy & ->);
    [lia..|].
  rewrite !Nat2Z.id in *. simpl.
  unfold best_step, score, count_in. rewrite Hlr, Hx, Hlc, Hy. simpl.
  by destruct (maxCount <? u32 (x + y - 1)).
Qed.

Lemma candidate_loop_run t :
  shape_ok t ->
  for_loop (dim t) 0
    (fun r => for_loop (dim t) 0 (fun c => for_loop (dim t) 1 (candidate_step t r c)))
    (0, 0, 0)
  = Ok (fold_left (best_step t) (scan t) (0, 0, 0)).
Proof.
  intros Hs. unfold scan. rewrite fold_left_flat_map.
  apply (for_loop_fold
           (fun r s => fold_left (best_step t)
              (flat_map (fun c => if unknown_at t r c
                                  then map (fun v => (r, c, v)) (seq 1 (dim t))
                                  else []) (seq 0 (dim t))) s) _ (dim t) 0%nat).
  intros r s Hr. rewrite fold_left_flat_map.
  apply (for_loop_fold
           (fun c s => fold_left (best_step t)
              (if unknown_at t r c
               then map (fun v => (r, c, v)) (seq 1 (dim t)) else []) s)
           _ (dim t) 0%nat).
  intros c s' Hc.
  rewrite (for_loop_fold
             (fun v s => if unknown_at t r c then best_step t s (r, c, v) else s)
             _ (dim t) 1%nat).
  2:{ intros v s'' Hv. apply candidate_step_run; auto; lia. }
  f_equal. destruct (unknown_at t r c).
  - by rewrite fold_left_over_map.
  - clear. generalize (seq 1 (dim t)). intros l. by induction l.
Qed.

(** The scan keeps the first position of the greatest score above the
    score it started from, or keeps its start when no score is above. *)
Lemma fold_best t l :
  forall acc,
    (fold_left (best_step t) l acc = acc
     /\ forall y, In y l -> score t y <= snd acc)
    \/ (exists l1 x l2,
          l = l1 ++ x :: l2
          /\ fold_left (best_step t) l acc
             = (Z.of_nat (fst (fst x)), Z.of_nat (snd (fst x)), score t x)
          /\ snd acc < score t x
          /\ (forall y, In y l1 -> score t y < score t x)
          /\ (forall y, In y l2 -> score t y <= score t x)).
Proof.
  induction l as [|y l IH]; intros acc; simpl.
  - left. split; [done|]. intros y [].
  - unfold best_step at 2 4. destruct y as [[r c] v] eqn:Ey. rewrite <- Ey.
    destruct (Z.ltb_spec (snd acc) (score t y)) as [Hlt|Hge].
    + right. destruct (IH (Z.of_nat r, Z.of_nat c, score t y))
        as [[Hres Hall] | (l1 & x & l2 & -> & Hres & Hacc & H1 & H2)].
      * exists [], y, l. simpl. rewrite Hres. subst y. simpl. split_and!; auto.
        intros ? [].
      * exists (y :: l1), x, l2. simpl in *. split_and!; auto; [lia|].
        intros z [<-|Hz]; [lia | auto].
    + destruct (IH acc) as [[Hres Hall] | (l1 & x & l2 & -> & Hres & Hacc & H1 & H2)].
      * left. split; [done|]. intros z [<-|Hz]; [lia | auto].
      * right. exists (y :: l1), x, l2. simpl. split_and!; auto.
        intros z [<-|Hz]; [lia | auto].
Qed.

Lemma scan_In t r c v :
  In (r, c, v) (scan t) <->
  (r < dim t)%nat /\ (c < dim t)%nat /\ (1 <= v <= dim t)%nat
  /\ unknown_at t r c = true.
Proof.
  unfold scan. rewrite in_flat_map. split.
  - intros (r' & Hr' & H). apply in_flat_map in H as (c' & Hc' & H).
    apply in_seq in Hr', Hc'.
    destruct (unknown_at t r' c') eqn:Hu; [|done].
    apply in_map_iff in H as (v' & [= -> -> ->] & Hv'). apply in_seq in Hv'.
    split_and!; auto; lia.
  - intros (Hr & Hc & Hv & Hu). exists r. split; [apply in_seq; lia|].
    apply in_flat_map. exists c. split; [apply in_seq; lia|]. rewrite Hu.
    apply in_map_iff. exists v. split; [done|]. apply in_seq. lia.
Qed.

Lemma getFinalizeCandidatePos_run t :
  shape_ok t ->
  getFinalizeCandidatePos t
  = Ok (fst (fold_left (best_step t) (scan t) (0, 0, 0))).
Proof.
  intros Hs. unfold getFinalizeCandidatePos. fold (dim t).
  rewrite (candidate_loop_run t Hs). simpl.
  by destruct (fold_left _ _ _) as [[? ?] ?].
Qed.

(** The scan returns the first greatest entry. *)
Lemma candidate_first_max (t : Table) :
  shape_ok t ->
  (exists x, In x (scan t) /\ 0 < score t x) ->
  exists r c v,
    getFinalizeCandidatePos t = Ok (Z.of_nat r, Z.of_nat c)
    /\ first_max (score t) (scan t) (r, c, v).
Proof.
  intros Hs (x0 & Hin & Hpos). rewrite (getFinalizeCandidatePos_run t Hs).
  destruct (fold_best t (scan t) (0, 0, 0))
    as [[_ Hall] | (l1 & x & l2 & Hl & Hres & _ & H1 & H2)].
  - apply Hall in Hin. simpl in Hin. lia.
  - destruct x as [[r c] v]. exists r, c, v. rewrite Hres. simpl.
    split; [done|]. exists l1, l2. auto.
Qed.

(** When no scanned entry has a positive score (in particular when no
    cell is Unknown) the position returned is the initial (0, 0). *)
Lemma getFinalizeCandidatePos_default t :
  shape_ok t -> (forall x, In x (scan t) -> score t x <= 0) ->
  getFinalizeCandidatePos t = Ok (0, 0).
Proof.
  intros Hs Hall. rewrite (getFinalizeCandidatePos_run t Hs).
  destruct (fold_best t (scan t) (0, 0, 0))
    as [[-> _] | (l1 & x & l2 & Hl & Hres & Hlt & H1 & H2)]; [done|].
  simpl in Hlt. specialize (Hall x). rewrite Hl in Hall.
  assert (score t x <= 0) by (apply Hall, in_elt). lia.
Qed.

(** ** The methods at any position *)

Lemma at2_cells_range t r c cell :
  shape_ok t -> at2 (cells t) r c = Ok cell ->
  0 <= r < size t /\ 0 <= c < size t.
Proof.
  intros Hs H. apply at2_Ok in H as (row & Hr & Hc & Hrow & Hcell).
  pose proof (shape_rows t Hs _ _ Hrow) as Hlen.
  apply lookup_lt_Some in Hrow, Hcell.
  destruct (shape_cells t Hs) as [H0|Hl]; unfold dim in *; lia.
Qed.

Lemma Inv_board_ok t : Inv t <-> board_ok True t.
Proof.
  split.
  - intros [? ? ?]. by split_and!.
  - intros (? & ? & H). constructor; auto.
Qed.

Section AnyPosition.

Variables (B OO : Prop).
Hypothesis HBO : ~ B -> OO.

Lemma finalizeCell_any fuel t row column :
  board_ok B t -> OO \/ (unknowns t < fuel)%nat ->
  rpred (decided B t) (method_exn B t row column) (outside t row column \/ ~ B) OO
    (finalizeCell fuel t row column).
Proof.
  intros Hok Hfuel. pose proof Hok as (Hs & _).
  destruct (at2 (cells t) row column) as [cell| | |] eqn:Hat.
  - destruct (at2_cells_range t _ _ _ Hs Hat) as [Hr Hc].
    destruct (State_eqb (state cell) Unknown) eqn:Hst.
    + apply State_eqb_eq in Hst.
      pose proof (at2_unknown_at t _ _ _ Hat Hst) as Hu.
      eapply rpred_mono; [by apply (proj1 (cascade_spec B OO HBO fuel)) | auto..].
      intros e He. by right.
    + destruct fuel as [|fuel]; simpl; [destruct Hfuel; [done | lia]|].
      unfold finalizeCell_body. rewrite Hat. simpl. rewrite Hst. simpl.
      left. split; [done|]. apply at2_Ok in Hat as (rw & _ & _ & Hrw & Hcell).
      unfold unknown_at, cell_at. by rewrite Hrw, Hcell.
  - destruct (at2_cases (cells t) row column) as [[? H] | H]; congruence.
  - destruct fuel as [|fuel]; simpl; [destruct Hfuel; [done | lia]|].
    unfold finalizeCell_body. rewrite Hat. simpl. left. intros [Hr Hc].
    destruct (shape_cell t _ _ Hs Hr Hc) as (? & ? & _ & _ & H). congruence.
  - destruct (at2_cases (cells t) row column) as [[? H] | H]; congruence.
Qed.

Lemma deleteCell_any fuel t row column :
  board_ok B t -> OO \/ (unknowns t < fuel)%nat ->
  rpred (decided B t) (method_exn B t row column) (outside t row column \/ ~ B) OO
    (deleteCell fuel t row column).
Proof.
  intros Hok Hfuel. pose proof Hok as (Hs & _).
  destruct (at2 (cells t) row column) as [cell| | |] eqn:Hat.
  - destruct (at2_cells_range t _ _ _ Hs Hat) as [Hr Hc].
    destruct (State_eqb (state cell) Unknown) eqn:Hst.
    + apply State_eqb_eq in Hst.
      pose proof (at2_unknown_at t _ _ _ Hat Hst) as Hu.
      eapply rpred_mono; [by apply (proj2 (cascade_spec B OO HBO fuel)) | auto..].
      intros e He. by right.
    + destruct fuel as [|fuel]; simpl; [destruct Hfuel; [done | lia]|].
      unfold deleteCell_body. rewrite Hat. simpl. rewrite Hst. simpl.
      left. split; [done|]. apply at2_Ok in Hat as (rw & _ & _ & Hrw & Hcell).
      unfold unknown_at, cell_at. by rewrite Hrw, Hcell.
  - destruct (at2_cases (cells t) row column) as [[? H] | H]; congruence.
  - destruct fuel as [|fuel]; simpl; [destruct Hfuel; [done | lia]|].
    unfold deleteCell_body. rewrite Hat. simpl. left. intros [Hr Hc].
    destruct (shape_cell t _ _ Hs Hr Hc) as (? & ? & _ & _ & H). congruence.
  - destruct (at2_cases (cells t) row column) as [[? H] | H]; congruence.
Qed.

End AnyPosition.

Lemma board_ok_False t : shape_ok t -> counts_ok t -> board_ok False t.
Proof. intros. by split_and!. Qed.

(** Any run of a method that returns keeps the shape and the counts. *)
Lemma finalizeCell_keeps_counts fuel t row column t' :
  shape_ok t -> counts_ok t -> finalizeCell fuel t row column = Ok t' ->
  shape_ok t' /\ counts_ok t'.
Proof.
  intros Hs Hc H.
  pose proof (finalizeCell_any False True (fun _ => I) fuel t row column
                (board_ok_False t Hs Hc) (or_introl I)) as R.
  rewrite H in R. destruct R as ((? & ? & _) & _). auto.
Qed.

Lemma deleteCell_keeps_counts fuel t row column t' :
  shape_ok t -> counts_ok t -> deleteCell fuel t row column = Ok t' ->
  shape_ok t' /\ counts_ok t'.
Proof.
  intros Hs Hc H.
  pose proof (deleteCell_any False True (fun _ => I) fuel t row column
                (board_ok_False t Hs Hc) (or_introl I)) as R.
  rewrite H in R. destruct R as ((? & ? & _) & _). auto.
Qed.

(** ** The candidate is an Unknown cell *)

Lemma unknowns_exists t :
  (0 < unknowns t)%nat ->
  exists r c, (r < dim t)%nat /\ (c < dim t)%nat /\ unknown_at t r c = true.
Proof.
  intros H. apply sum_upto_exists in H as (r & Hr & H).
  apply count_upto_exists in H as (c & Hc & H). eauto.
Qed.

Lemma unknown_score_positive t r c :
  shape_ok t -> counts_ok t -> size t < 2 ^ 31 ->
  (r < dim t)%nat -> (c < dim t)%nat -> unknown_at t r c = true ->
  exists v, In (r, c, v) (scan t) /\ 0 < score t (r, c, v).
Proof.
  intros Hs Hc Hb Hr Hcl Hu. pose proof (dim_bound t Hs) as Hd.
  destruct (unknown_at_cell t (Z.of_nat r) (Z.of_nat c))
    as (rw & cell & Hrw & Hcell & Hst & _); [lia | lia | by rewrite !Nat2Z.id|].
  rewrite !Nat2Z.id in *.
  pose proof (settle_value t _ _ _ _ Hs Hrw Hcell) as Hv.
  exists (Z.to_nat (value cell)). split.
  - apply scan_In. split_and!; auto; lia.
  - unfold score.
    destruct (Hc r (Z.to_nat (value cell))) as [-> _]; [lia..|].
    destruct (Hc c (Z.to_nat (value cell))) as [_ ->]; [lia..|].
    rewrite Z2Nat.id by lia.
    pose proof (row_unknowns_le t r (value cell)).
    pose proof (column_unknowns_le t c (value cell)).
    assert (0 < row_unknowns t r (value cell))%nat.
    { apply (count_upto_pos _ _ c); [done|]. by eapply settle_unknown_with_here. }
    assert (0 < column_unknowns t c (value cell))%nat.
    { apply (count_upto_pos _ _ r); [done|]. by eapply settle_unknown_with_here. }
    rewrite u32_small by lia. lia.
Qed.

(** The candidate of a board with an Unknown cell. *)
Lemma candidate_unknown (t : Table) :
  shape_ok t -> counts_ok t -> size t < 2 ^ 31 -> (0 < unknowns t)%nat ->
  exists row column,
    getFinalizeCandidatePos t = Ok (row, column)
    /\ 0 <= row < size t /\ 0 <= column < size t
    /\ unknown_at t (Z.to_nat row) (Z.to_nat column) = true
    /\ forall fuel,
        finalizeCell fuel t row column <> Throw MultipleStateChangeException
        /\ deleteCell fuel t row column <> Throw MultipleStateChangeException.
Proof.
  intros Hs Hc Hb Hu. pose proof (dim_bound t Hs) as Hd.
  destruct (unknowns_exists t Hu) as (r0 & c0 & Hr0 & Hc0 & Hu0).
  destruct (unknown_score_positive t r0 c0 Hs Hc Hb Hr0 Hc0 Hu0) as (v0 & Hin & Hpos).
  destruct (candidate_first_max t Hs)
    as (r & c & v & Hpos' & (l1 & l2 & Hl & _)); [eauto|].
  assert (Hin' : In (r, c, v) (scan t)) by (rewrite Hl; apply in_elt).
  apply scan_In in Hin' as (Hr & Hcl & _ & Hunk).
  exists (Z.of_nat r), (Z.of_nat c). rewrite !Nat2Z.id.
  split; [done|]. split; [lia|]. split; [lia|]. split; [done|].
  intros fuel. split.
  - pose proof (proj1 (cascade_spec False True (fun _ => I) fuel) t
                  (Z.of_nat r) (Z.of_nat c) (board_ok_False t Hs Hc) (or_introl I)) as R.
    intros E. rewrite E in R. rewrite !Nat2Z.id in R.
    destruct R as [R _]; [lia | lia | done | done].
  - pose proof (proj2 (cascade_spec False True (fun _ => I) fuel) t
                  (Z.of_nat r) (Z.of_nat c) (board_ok_False t Hs Hc) (or_introl I)) as R.
    intros E. rewrite E in R. rewrite !Nat2Z.id in R.
    destruct R as [R _]; [lia | lia | done | done].
Qed.

(** ** solve *)

Lemma solve_unfold fuel t :
  solve (S fuel) t
  = (t1 <- finalizeUniqueCells t ;;
     if isSolved t1 then Ok t1 else
     pos <- getFinalizeCandidatePos t1 ;;
     let attempt :=
       tCopy <- finalizeCell (S fuel) t1 (fst pos) (snd pos) ;; solve fuel tCopy in
     if is_NoSolutionExists attempt
     then t' <- deleteCell (S fuel) t1 (fst pos) (snd pos) ;; solve fuel t'
     else attempt).
Proof.
  change (solve (S fuel) t) with
    (t1 <- finalizeUniqueCells t ;;
     if isSolved t1 then Ok t1 else
     pos <- getFinalizeCandidatePos t1 ;;
     let '(row, column) := pos in
     let attempt :=
       tCopy <- finalizeCell (S fuel) t1 row column ;; solve fuel tCopy in
     if is_NoSolutionExists attempt
     then t' <- deleteCell (S fuel) t1 row column ;; solve fuel t'
     else attempt).
  destruct (finalizeUniqueCells t) as [t1| | |]; try done. cbn [bind].
  destruct (isSolved t1); [done|].
  destruct (getFinalizeCandidatePos t1) as [[row column]| | |]; done.
Qed.

Lemma Inv_size_small t : Inv t -> size t < 2 ^ 31.
Proof.
  intros [Hs _ [Hb _ _ _]]. pose proof (shape_size t Hs). nia.
Qed.

Lemma not_True_False : ~ True -> False.
Proof. tauto. Qed.

(** What [solve] finds before it branches. *)
Lemma solve_branch_point t :
  Inv t ->
  exists t1, finalizeUniqueCells t = Ok t1 /\ Inv t1 /\ size t1 = size t
    /\ (unknowns t1 <= unknowns t)%nat
    /\ (isSolved t1 = false ->
        exists row column,
          getFinalizeCandidatePos t1 = Ok (row, column)
          /\ 0 <= row < size t1 /\ 0 <= column < size t1
          /\ unknown_at t1 (Z.to_nat row) (Z.to_nat column) = true).
Proof.
  intros [Hs Hc Ht].
  destruct (finalizeUniqueCells_spec t Hs Hc) as (t1 & H1 & Hs1 & Hc1 & Hsz1 & Hu1 & Ht1).
  exists t1. split; [done|]. assert (Hinv1 : Inv t1) by (constructor; auto).
  split; [done|]. split; [done|]. split; [done|].
  intros Hsolved. unfold isSolved in Hsolved. apply Z.eqb_neq in Hsolved.
  pose proof (trees_unknown t1 (Ht1 Ht)) as Hunk.
  destruct (candidate_unknown t1 Hs1 Hc1 (Inv_size_small t1 Hinv1))
    as (row & column & Hpos & Hr & Hcl & Hu & _); [lia|].
  exists row, column. auto.
Qed.

Lemma solve_total fuel :
  forall t, Inv t -> (unknowns t < fuel)%nat ->
            rpred (fun _ => True) (fun _ => True) False False (solve fuel t).
Proof.
  induction fuel as [|fuel IH]; intros t Hinv Hlt; [lia|].
  rewrite solve_unfold.
  destruct (solve_branch_point t Hinv) as (t1 & -> & Hinv1 & Hsz1 & Hu1 & Hcand).
  rewrite bind_ret. destruct (isSolved t1) eqn:Hsolved; [done|].
  destruct (Hcand eq_refl) as (row & column & -> & Hr & Hc & Hunk).
  rewrite bind_ret. cbn [fst snd]. cbv zeta.
  apply Inv_board_ok in Hinv1.
  pose proof (cascade_spec True False not_True_False (S fuel)) as [Rf Rd].
  assert (Hnext : forall t', decided True t1 t' ->
            rpred (fun _ => True) (fun _ => True) False False (solve fuel t')).
  { intros t' (Hok & _ & Hu'). apply IH; [by apply Inv_board_ok | lia]. }
  assert (Hatt : rpred (fun _ => True) (fun _ => True) False False
            (tCopy <- finalizeCell (S fuel) t1 row column ;; solve fuel tCopy)).
  { eapply (rpred_bind (decided True t1)); [|done].
    eapply rpred_mono; [apply Rf; auto; right; lia | auto..]. }
  assert (Hfall : rpred (fun _ => True) (fun _ => True) False False
            (t' <- deleteCell (S fuel) t1 row column ;; solve fuel t')).
  { eapply (rpred_bind (decided True t1)); [|done].
    eapply rpred_mono; [apply Rd; auto; right; lia | auto..]. }
  by destruct (is_NoSolutionExists _).
Qed.

Lemma solve_calls_decrease t t' :
  Inv t -> solve_calls t t' ->
  Inv t' /\ unknownCellCount t' < unknownCellCount t.
Proof.
  intros Hinv (t1 & row & column & fuel & H1 & Hsolved & Hpos & Hcall).
  destruct (solve_branch_point t Hinv) as (t1' & H1' & Hinv1 & Hsz1 & Hu1 & Hcand).
  rewrite H1 in H1'. injection H1' as <-.
  destruct (Hcand Hsolved) as (row' & column' & Hpos' & Hr & Hc & Hunk).
  rewrite Hpos in Hpos'. injection Hpos' as <- <-.
  pose proof (cascade_spec True True (fun _ => I) fuel) as [Rf Rd].
  assert (Hd : decided True t1 t').
  { destruct Hcall as [Hcall|Hcall].
    - specialize (Rf t1 row column). rewrite Hcall in Rf.
      apply Rf; auto. by apply Inv_board_ok.
    - specialize (Rd t1 row column). rewrite Hcall in Rd.
      apply Rd; auto. by apply Inv_board_ok. }
  destruct Hd as (Hok & _ & Hlt). apply Inv_board_ok in Hok.
  split; [done|].
  rewrite (trees_unknown t' (Inv_trees t' Hok)).
  rewrite (trees_unknown t (Inv_trees t Hinv)). lia.
Qed.

Lemma is_NoSolutionExists_true {A} (r : result A) :
  is_NoSolutionExists r = true <->
  exists reason, r = Throw (NoSolutionExistsException reason).
Proof.
  destruct r as [a|e| |]; simpl; split; try discriminate;
    try (intros [? ?]; discriminate).
  - destruct e; try discriminate. eauto.
  - intros [reason [= ->]]. done.
Qed.

(** ** The constructor *)

Section Place.

Variables (sz : Z) (cs : list (list Cell)) (rowCells : list Cell)
          (rc cc : list (list Z)) (v : Z) (lr lc : list Z).

Let k := length cs.
Let j := length rowCells.
Let P := partial_table sz cs rowCells rc cc.
Let P' := partial_table sz cs (rowCells ++ [mkCell v Unknown])
            (<[k := <[Z.to_nat v := Z.of_nat (row_unknowns P k v) + 1]> lr]> rc)
            (<[j := <[Z.to_nat v := Z.of_nat (column_unknowns P j v) + 1]> lc]> cc).

Hypothesis Hok : partial_ok sz cs rowCells rc cc.
Hypothesis Hk : (k < Z.to_nat sz)%nat.
Hypothesis Hj : (j < Z.to_nat sz)%nat.
Hypothesis Hv : 1 <= v <= sz.
Hypothesis Hlr : rc !! k = Some lr.
Hypothesis Hlc : cc !! j = Some lc.

Lemma place_cell_at r c :
  cell_at P' r c
  = if decide (r = k /\ c = j) then Some (mkCell v Unknown) else cell_at P r c.
Proof.
  unfold cell_at, P', P, partial_table. simpl.
  destruct (lt_eq_lt_dec r k) as [[Hlt | ->] | Hgt].
  - rewrite !lookup_app_l by done. rewrite decide_False by lia. done.
  - rewrite (list_lookup_middle cs [] rowCells k) by done.
    rewrite (list_lookup_middle cs [] (rowCells ++ [mkCell v Unknown]) k) by done.
    destruct (lt_eq_lt_dec c j) as [[Hlt | ->] | Hgt].
    + rewrite lookup_app_l by done. rewrite decide_False by lia. done.
    + rewrite list_lookup_middle by done. rewrite decide_True by done. done.
    + rewrite decide_False by lia.
      rewrite !lookup_ge_None_2; [done | fold j; lia |].
      rewrite length_app. simpl. fold j. lia.
  - rewrite decide_False by lia.
    rewrite !lookup_ge_None_2; [done | |]; rewrite length_app; simpl; fold k; lia.
Qed.

Lemma place_fresh : cell_at P k j = None.
Proof.
  unfold cell_at, P, partial_table. simpl.
  rewrite list_lookup_middle by done. by apply lookup_ge_None_2.
Qed.

Lemma place_unknown_with v' r c :
  unknown_with P' v' r c
  = if decide (r = k /\ c = j) then v =? v' else unknown_with P v' r c.
Proof.
  unfold unknown_with. rewrite place_cell_at. case_decide; [|done].
  simpl. by rewrite andb_true_r.
Qed.

Lemma place_unknown_with_fresh v' : unknown_with P v' k j = false.
Proof. unfold unknown_with. by rewrite place_fresh. Qed.

Lemma place_row_unknowns i v' :
  row_unknowns P' i v'
  = if decide (i = k /\ v' = v)
    then S (row_unknowns P i v') else row_unknowns P i v'.
Proof.
  unfold row_unknowns. change (dim P') with (dim P). case_decide as Hd.
  - destruct Hd as [-> ->]. apply (count_upto_clear _ _ _ j).
    + exact Hj.
    + rewrite place_unknown_with. rewrite decide_True by done. apply Z.eqb_refl.
    + apply place_unknown_with_fresh.
    + intros c _ Hc. rewrite place_unknown_with. rewrite decide_False; [done | tauto].
  - apply count_upto_ext. intros c _. rewrite place_unknown_with.
    case_decide as Hd'; [|done]. destruct Hd' as [-> ->].
    rewrite place_unknown_with_fresh. apply Z.eqb_neq. intros ->. tauto.
Qed.

Lemma place_column_unknowns i v' :
  column_unknowns P' i v'
  = if decide (i = j /\ v' = v)
    then S (column_unknowns P i v') else column_unknowns P i v'.
Proof.
  unfold column_unknowns. change (dim P') with (dim P). case_decide as Hd.
  - destruct Hd as [-> ->]. apply (count_upto_clear _ _ _ k).
    + exact Hk.
    + rewrite place_unknown_with. rewrite decide_True by done. apply Z.eqb_refl.
    + apply place_unknown_with_fresh.
    + intros c _ Hc. rewrite place_unknown_with. rewrite decide_False; [done | tauto].
  - apply count_upto_ext. intros c _. rewrite place_unknown_with.
    case_decide as Hd'; [|done]. destruct Hd' as [-> ->].
    rewrite place_unknown_with_fresh. apply Z.eqb_neq. intros ->. tauto.
Qed.

Lemma place_ok :
  partial_ok sz cs (rowCells ++ [mkCell v Unknown])
    (<[k := <[Z.to_nat v := Z.of_nat (row_unknowns P k v) + 1]> lr]> rc)
    (<[j := <[Z.to_nat v := Z.of_nat (column_unknowns P j v) + 1]> lc]> cc).
Proof.
  destruct Hok as [Hrows Hcells Hrc Hrcl Hcc Hccl Hcounts].
  assert (Llr : (Z.to_nat v < length lr)%nat) by (rewrite (Hrcl _ _ Hlr); lia).
  assert (Llc : (Z.to_nat v < length lc)%nat) by (rewrite (Hccl _ _ Hlc); lia).
  constructor.
  - done.
  - intros r c cell. fold P'. rewrite place_cell_at. case_decide.
    + intros [= <-]. simpl. done.
    + apply Hcells.
  - by rewrite length_insert.
  - intros r l. destruct (decide (r = k)) as [->|Hne].
    + rewrite list_lookup_insert_eq by (by eapply lookup_lt_Some).
      intros [= <-]. rewrite length_insert. by eapply Hrcl.
    + rewrite list_lookup_insert_ne by done. apply Hrcl.
  - by rewrite length_insert.
  - intros r l. destruct (decide (r = j)) as [->|Hne].
    + rewrite list_lookup_insert_eq by (by eapply lookup_lt_Some).
      intros [= <-]. rewrite length_insert. by eapply Hccl.
    + rewrite list_lookup_insert_ne by done. apply Hccl.
  - fold P'. intros i v' Hi Hv'. change (dim P') with (dim P) in Hi, Hv'.
    destruct (Hcounts i v' Hi Hv') as [Hcr Hcc']. fold P in Hcr, Hcc'. split.
    + change (rowCounts P') with
        (<[k := <[Z.to_nat v := Z.of_nat (row_unknowns P k v) + 1]> lr]> rc).
      rewrite count_in_insert by done.
      pose proof (place_row_unknowns i (Z.of_nat v')) as L.
      destruct (decide (i = k /\ v' = Z.to_nat v)) as [Hd|Hd].
      * rewrite decide_True in L by (split; [tauto | lia]).
        destruct Hd as [-> ->]. rewrite Z2Nat.id in * by lia. f_equal. lia.
      * rewrite decide_False in L by (intros [-> Hx]; apply Hd; split; [done | lia]).
        rewrite L. exact Hcr.
    + change (columnCounts P') with
        (<[j := <[Z.to_nat v := Z.of_nat (column_unknowns P j v) + 1]> lc]> cc).
      rewrite count_in_insert by done.
      pose proof (place_column_unknowns i (Z.of_nat v')) as L.
      destruct (decide (i = j /\ v' = Z.to_nat v)) as [Hd|Hd].
      * rewrite decide_True in L by (split; [tauto | lia]).
        destruct Hd as [-> ->]. rewrite Z2Nat.id in * by lia. f_equal. lia.
      * rewrite decide_False in L by (intros [-> Hx]; apply Hd; split; [done | lia]).
        rewrite L. exact Hcc'.
Qed.

End Place.

Lemma count_upto_none n p : (forall i, (i < n)%nat -> p i = false) -> count_upto n p = 0%nat.
Proof.
  induction n as [|n IH]; intros H; simpl; [done|].
  rewrite H by lia. rewrite IH; auto.
Qed.

Lemma count_upto_all n p : (forall i, (i < n)%nat -> p i = true) -> count_upto n p = n.
Proof.
  induction n as [|n IH]; intros H; simpl; [done|].
  rewrite H by lia. rewrite IH; auto.
Qed.

Lemma sum_upto_const n f m : (forall i, (i < n)%nat -> f i = m) -> sum_upto n f = (n * m)%nat.
Proof.
  induction n as [|n IH]; intros H; simpl; [done|].
  rewrite H by lia. rewrite IH; auto.
Qed.

Lemma u32_succ a : u32 (u32 a + 1) = u32 (a + 1).
Proof. unfold u32. by rewrite Zplus_mod_idemp_l. Qed.

(** Two boards with the same cells, seen through [cell_at], and the same
    counts. *)
Lemma counts_ok_same_cells t t' :
  size t' = size t -> rowCounts t' = rowCounts t -> columnCounts t' = columnCounts t ->
  (forall r c, cell_at t' r c = cell_at t r c) ->
  counts_ok t -> counts_ok t'.
Proof.
  intros Hsz Hrc Hcc Hcell Hc i v Hi Hv.
  unfold dim in *. rewrite Hsz in Hi, Hv. destruct (Hc i v Hi Hv) as [H1 H2].
  rewrite Hrc, Hcc. unfold row_unknowns, column_unknowns, dim in *. rewrite Hsz.
  split.
  - rewrite H1. do 2 f_equal. apply count_upto_ext. intros c _.
    unfold unknown_with. by rewrite Hcell.
  - rewrite H2. do 2 f_equal. apply count_upto_ext. intros c _.
    unfold unknown_with. by rewrite Hcell.
Qed.

Lemma cell_at_closed_row sz cs rowCells rc cc u ds r c :
  cell_at (mkTable sz (cs ++ [rowCells]) rc cc u ds) r c
  = cell_at (partial_table sz (cs ++ [rowCells]) [] rc cc) r c.
Proof.
  unfold cell_at, partial_table. simpl.
  destruct (decide (r < length (cs ++ [rowCells]))%nat) as [Hlt|Hge].
  - by rewrite (lookup_app_l (cs ++ [rowCells])) by done.
  - rewrite (lookup_ge_None_2 (cs ++ [rowCells])) by lia.
    destruct (decide (r = length (cs ++ [rowCells]))) as [->|Hne].
    + rewrite list_lookup_middle by done. done.
    + rewrite lookup_ge_None_2; [done|]. rewrite length_app. simpl. lia.
Qed.

Lemma cell_at_no_open_row sz cs rc cc u ds r c :
  cell_at (mkTable sz cs rc cc u ds) r c
  = cell_at (partial_table sz cs [] rc cc) r c.
Proof.
  unfold cell_at, partial_table. simpl.
  destruct (decide (r < length cs)%nat) as [Hlt|Hge].
  - by rewrite lookup_app_l by done.
  - rewrite (lookup_ge_None_2 cs) by lia.
    destruct (decide (r = length cs)) as [->|Hne].
    + rewrite list_lookup_middle by done. done.
    + rewrite lookup_ge_None_2; [done|]. rewrite length_app. simpl. lia.
Qed.

Lemma partial_ok_next_row sz cs rowCells rc cc :
  partial_ok sz cs rowCells rc cc -> length rowCells = Z.to_nat sz ->
  partial_ok sz (cs ++ [rowCells]) [] rc cc.
Proof.
  intros [Hrows Hcells Hrc Hrcl Hcc Hccl Hcounts] Hlen.
  assert (Hsame : forall r c,
    cell_at (partial_table sz (cs ++ [rowCells]) [] rc cc) r c
    = cell_at (partial_table sz cs rowCells rc cc) r c).
  { intros r c.
    by rewrite <- (cell_at_closed_row sz cs rowCells rc cc 0 (mkDisjointSets [])). }
  constructor; auto.
  - intros r row Hr. apply lookup_app_Some in Hr as [Hr | [_ Hr]]; [by eapply Hrows|].
    apply list_lookup_singleton_Some in Hr as [_ <-]. done.
  - intros r c cell. rewrite Hsame. apply Hcells.
  - eapply counts_ok_same_cells; [| | | |exact Hcounts]; done.
Qed.

Lemma Table_new_row_spec sz cs :
  0 <= sz < 2 ^ 32 -> (length cs <= Z.to_nat sz)%nat ->
  forall row rowCells rc cc res,
    partial_ok sz cs rowCells rc cc ->
    (length rowCells + length row)%nat = Z.to_nat sz ->
    Table_new_row sz (Z.of_nat (length cs)) (Z.of_nat (length rowCells))
      row rowCells rc cc = Ok res ->
    partial_ok sz cs (fst (fst res)) (snd (fst res)) (snd res)
    /\ length (fst (fst res)) = Z.to_nat sz
    /\ (row <> [] -> (length cs < Z.to_nat sz)%nat).
Proof.
  intros Hsz Hk. induction row as [|v row IH]; intros rowCells rc cc res Hok Hlen H.
  - simpl in H. injection H as <-. simpl in *. split; [done|]. split; [lia | done].
  - simpl in H. destruct ((v =? 0) || (sz <? v)) eqn:Hv; [discriminate|].
    apply orb_false_iff in Hv as [Hv0 Hvs].
    apply Z.eqb_neq in Hv0. apply Z.ltb_ge in Hvs.
    apply bind_Ok in H as (x & Hx & H). apply bind_Ok in H as (rc' & Hrc' & H).
    apply bind_Ok in H as (y & Hy & H). apply bind_Ok in H as (cc' & Hcc' & H).
    apply at2_Ok in Hx as (lr & _ & Hvpos & Hlr & Hlrv).
    apply at2_Ok in Hy as (lc & _ & _ & Hlc & Hlcv).
    rewrite Nat2Z.id in Hlr, Hlc.
    apply set_at2_Ok in Hrc' as (lr' & _ & Hlr' & _ & ->).
    apply set_at2_Ok in Hcc' as (lc' & _ & Hlc' & _ & ->).
    rewrite Nat2Z.id in Hlr', Hlc'. simplify_eq.
    pose proof (lookup_lt_Some _ _ _ Hlr) as Lk.
    pose proof (lookup_lt_Some _ _ _ Hlc) as Lj.
    rewrite (partial_rc _ _ _ _ _ Hok) in Lk. rewrite (partial_cc _ _ _ _ _ Hok) in Lj.
    assert (Hv' : 1 <= v <= sz) by lia.
    set (P := partial_table sz cs rowCells rc cc).
    assert (Ex : x = Z.of_nat (row_unknowns P (length cs) v)).
    { destruct (partial_counts _ _ _ _ _ Hok (length cs) (Z.to_nat v)) as [E _];
        [done | unfold dim; simpl; lia |].
      unfold count_in in E. simpl in E. rewrite Hlr, Hlrv in E.
      rewrite Z2Nat.id in E by lia. by injection E as ->. }
    assert (Ey : y = Z.of_nat (column_unknowns P (length rowCells) v)).
    { destruct (partial_counts _ _ _ _ _ Hok (length rowCells) (Z.to_nat v)) as [_ E];
        [done | unfold dim; simpl; lia |].
      unfold count_in in E. simpl in E. rewrite Hlc, Hlcv in E.
      rewrite Z2Nat.id in E by lia. by injection E as ->. }
    pose proof (place_ok sz cs rowCells rc cc v lr lc Hok Lk Lj Hv' Hlr Hlc) as Hok'.
    pose proof (place_row_unknowns sz cs rowCells rc cc v lr lc) as Er.
    pose proof (place_column_unknowns sz cs rowCells rc cc v lr lc) as Ec.
    feed Er. feed Ec.
    specialize (Er (length cs) v). specialize (Ec (length rowCells) v).
    rewrite decide_True in Er by done. rewrite decide_True in Ec by done.
    fold P in Er, Ec, Hok'.
    match type of Er with row_unknowns ?P' _ _ = _ =>
      pose proof (row_unknowns_le P' (length cs) v) as Br;
      pose proof (column_unknowns_le P' (length rowCells) v) as Bc end.
    rewrite Er in Br. rewrite Ec in Bc. unfold dim in Br, Bc. simpl in Br, Bc.
    subst x y. rewrite !Nat2Z.id in H.
    rewrite (u32_small (Z.of_nat (row_unknowns P (length cs) v) + 1)) in H by lia.
    rewrite (u32_small (Z.of_nat (column_unknowns P (length rowCells) v) + 1)) in H by lia.
    rewrite u32_small in H by lia.
    replace (Z.of_nat (length rowCells) + 1)
      with (Z.of_nat (length (rowCells ++ [mkCell v Unknown]))) in H
      by (rewrite length_app; simpl; lia).
    apply IH in H; [|done|rewrite length_app; simpl in *; lia].
    destruct H as (H1 & H2 & _). split; [done|]. split; [done|]. intros _. done.
Qed.

Lemma Table_new_rows_spec sz :
  0 <= sz < 2 ^ 32 ->
  forall rows cs rc cc res,
    partial_ok sz cs [] rc cc ->
    (length cs <= Z.to_nat sz)%nat \/ sz = 0 ->
    Table_new_rows sz (u32 (Z.of_nat (length cs))) rows cs rc cc = Ok res ->
    partial_ok sz (fst (fst res)) [] (snd (fst res)) (snd res)
    /\ ((length (fst (fst res)) <= Z.to_nat sz)%nat \/ sz = 0)
    /\ length (fst (fst res)) = (length cs + length rows)%nat.
Proof.
  intros Hsz. induction rows as [|row rows IH]; intros cs rc cc res Hok Hk H.
  - simpl in H. injection H as <-. simpl. split; [done|]. split; [done | lia].
  - simpl in H.
    destruct (Z.eqb_spec (Z.of_nat (length row)) sz) as [Hlen|]; simpl in H;
      [|discriminate].
    apply bind_Ok in H as ([[rowCells rc1] cc1] & Hrow & H).
    rewrite u32_succ in H.
    replace (Z.of_nat (length cs) + 1)
      with (Z.of_nat (length (cs ++ [rowCells]))) in H
      by (rewrite length_app; simpl; lia).
    destruct (decide (sz = 0)) as [Hz|Hnz].
    + assert (row = []) as -> by (destruct row; [done | simpl in Hlen; lia]).
      simpl in Hrow. injection Hrow as <- <- <-.
      apply IH in H; [| |by right].
      * rewrite length_app in H. simpl in *. destruct H as (? & ? & ?).
        split; [done|]. split; [done | lia].
      * apply partial_ok_next_row; [done|]. subst sz. done.
    + destruct Hk as [Hk|Hk]; [|done].
      rewrite u32_small in Hrow by lia.
      apply (Table_new_row_spec sz cs Hsz Hk row [] rc cc) in Hrow;
        [|done|simpl; lia].
      simpl in Hrow. destruct Hrow as (Hok' & Hlen' & Hlt).
      assert (row <> []) by (intros ->; simpl in Hlen; lia).
      apply IH in H.
      * rewrite length_app in H. simpl in *. destruct H as (? & ? & ?).
        split; [done|]. split; [done | lia].
      * by apply partial_ok_next_row.
      * left. rewrite length_app. simpl. specialize (Hlt ltac:(done)). lia.
Qed.

Lemma partial_ok_init sz :
  0 <= sz -> sz + 1 < 2 ^ 32 ->
  partial_ok sz [] []
    (replicate (Z.to_nat sz) (replicate (Z.to_nat (u32 (sz + 1))) 0))
    (replicate (Z.to_nat sz) (replicate (Z.to_nat (u32 (sz + 1))) 0)).
Proof.
  intros Hsz Hb. rewrite u32_small by lia.
  replace (Z.to_nat (sz + 1)) with (S (Z.to_nat sz)) by lia.
  assert (Hnone : forall r c, cell_at (partial_table sz [] []
            (replicate (Z.to_nat sz) (replicate (S (Z.to_nat sz)) 0))
            (replicate (Z.to_nat sz) (replicate (S (Z.to_nat sz)) 0))) r c = None).
  { intros r c. unfold cell_at, partial_table. simpl.
    destruct r as [|r]; simpl; [done|]. done. }
  constructor.
  - intros r row Hr. done.
  - intros r c cell. by rewrite Hnone.
  - apply length_replicate.
  - intros r l Hl. apply lookup_replicate in Hl as [-> _]. apply length_replicate.
  - apply length_replicate.
  - intros r l Hl. apply lookup_replicate in Hl as [-> _]. apply length_replicate.
  - intros i v Hi Hv. unfold dim in Hi, Hv. simpl in Hi, Hv.
    assert (Hci : count_in (replicate (Z.to_nat sz) (replicate (S (Z.to_nat sz)) 0)) i v
                  = Some 0).
    { unfold count_in. rewrite lookup_replicate_2 by done.
      apply lookup_replicate_2. lia. }
    unfold row_unknowns, column_unknowns.
    rewrite !count_upto_none; [split; exact Hci | |].
    + intros r _. unfold unknown_with. by rewrite Hnone.
    + intros c _. unfold unknown_with. by rewrite Hnone.
Qed.

(** A vector of 2^32 - 1 rows cannot be read: the count rows would have
    [u32 (size + 1) = 0] entries. *)
Lemma Table_new_rows_no_counts sz rows res :
  0 < sz -> rows <> [] ->
  Table_new_rows sz 0 rows []
    (replicate (Z.to_nat sz) (replicate 0 0))
    (replicate (Z.to_nat sz) (replicate 0 0)) = Ok res ->
  False.
Proof.
  intros Hsz Hrows H. destruct rows as [|row rows]; [done|]. simpl in H.
  destruct (Z.eqb_spec (Z.of_nat (length row)) sz) as [Hlen|]; simpl in H;
    [|discriminate].
  destruct row as [|v row]; [simpl in Hlen; lia|]. simpl in H.
  destruct ((v =? 0) || (sz <? v)); simpl in H; [discriminate|].
  unfold at2 at 1 in H. unfold at_ at 1 in H. simpl in H.
  rewrite lookup_replicate_2 in H by lia. simpl in H.
  unfold at_ in H. destruct (v <? 0); simpl in H; discriminate.
Qed.

Lemma forest_ok_roots n : forest_ok (replicate n (-1)).
Proof.
  exists (fun _ => 0%nat). intros i x Hx Hpos.
  apply lookup_replicate in Hx as [-> _]. lia.
Qed.

(** The board the constructor returns. *)
Lemma Table_new_spec initValues t :
  Table_new initValues = Ok t ->
  shape_ok t /\ counts_ok t
  /\ (forall r c cell, cell_at t r c = Some cell -> state cell = Unknown)
  /\ (size t * size t + 1 < 2 ^ 31 -> trees_ok t).
Proof.
  unfold Table_new. intros H.
  pose proof (u32_range (Z.of_nat (length initValues))) as Hsz.
  set (sz := u32 (Z.of_nat (length initValues))) in *.
  apply bind_Ok in H as ([[cs rc] cc] & Hrows & H). injection H as <-.
  assert (Hb : sz + 1 < 2 ^ 32).
  { destruct (Z.lt_ge_cases (sz + 1) (2 ^ 32)) as [|Hge]; [done|]. exfalso.
    assert (Hu : u32 (sz + 1) = 0).
    { replace (sz + 1) with (2 ^ 32) by lia. done. }
    rewrite Hu in Hrows. change (Z.to_nat 0) with 0%nat in Hrows.
    eapply (Table_new_rows_no_counts sz initValues); [lia | | exact Hrows].
    intros ->. unfold sz in Hge. simpl in Hge. unfold u32 in Hge.
    rewrite Z.mod_0_l in Hge by lia. lia. }
  change 0 with (u32 (Z.of_nat (length (@nil (list Cell))))) in Hrows at 1.
  apply (Table_new_rows_spec sz Hsz) in Hrows;
    [|apply partial_ok_init; lia | left; simpl; lia].
  simpl in Hrows. destruct Hrows as (Hok & Hk & Hlen).
  destruct Hok as [Hrws Hcells Hrc Hrcl Hcc Hccl Hcounts].
  assert (Hcs : Z.to_nat sz = 0%nat \/ length cs = Z.to_nat sz).
  { destruct Hk as [Hk | ->]; [|by left]. right.
    assert (sz <= Z.of_nat (length initValues)); [|lia].
    unfold sz, u32. apply Z.mod_le; lia. }
  set (t0 := mkTable sz cs rc cc (u32 (sz * sz))
               (DisjointSets_new (u32 (sz * sz + 1)))).
  assert (Hsame : forall r c, cell_at t0 r c
                              = cell_at (partial_table sz cs [] rc cc) r c)
    by (intros r c; apply cell_at_no_open_row).
  assert (Hshape : shape_ok t0).
  { constructor; simpl; auto.
    - apply u32_range.
    - intros r c cell. rewrite Hsame. intros Hc. by apply Hcells in Hc as [? _]. }
  split; [done|]. split.
  { eapply counts_ok_same_cells; [| | | |exact Hcounts]; done. }
  split.
  { intros r c cell. rewrite Hsame. intros Hc. by apply Hcells in Hc as [_ ?]. }
  intros Hbound. change (size t0) with sz in Hbound.
  constructor.
  - exact Hbound.
  - change (parents (deletedTrees t0))
      with (replicate (Z.to_nat (u32 (sz * sz + 1))) (-1)).
    rewrite length_replicate. rewrite u32_small by nia. done.
  - apply forest_ok_roots.
  - change (unknownCellCount t0) with (u32 (sz * sz)).
    rewrite u32_small by nia. unfold unknowns. change (dim t0) with (Z.to_nat sz).
    rewrite (sum_upto_const _ _ (Z.to_nat sz)); [nia|].
    intros r Hr. apply count_upto_all. intros c Hc.
    destruct Hcs as [Hcs|Hcs]; [lia|].
    destruct (lookup_lt_is_Some_2 cs r) as [row Hrow]; [lia|].
    destruct (lookup_lt_is_Some_2 row c) as [cell Hcell];
      [rewrite (Hrws _ _ Hrow); lia|].
    assert (Hat : cell_at t0 r c = Some cell)
      by (unfold cell_at; simpl; by rewrite Hrow).
    unfold unknown_at. rewrite Hat.
    rewrite Hsame in Hat. apply Hcells in Hat as [_ ->]. done.
Qed.

(** ** Reachable boards *)

Lemma reachable_counts t : reachable t -> shape_ok t /\ counts_ok t.
Proof.
  induction 1 as [vals t H | t t' _ [Hs Hc] H | fuel t row column t' _ [Hs Hc] H
                  | fuel t row column t' _ [Hs Hc] H].
  - apply Table_new_spec in H. tauto.
  - destruct (finalizeUniqueCells_spec t Hs Hc) as (t'' & H' & ? & ? & _).
    rewrite H in H'. injection H' as <-. auto.
  - by eapply finalizeCell_keeps_counts.
  - by eapply deleteCell_keeps_counts.
Qed.

(** ** The topology checks of deleteCell *)

(** The test that guards every neighbour access of [deleteCell], on the
    wrapped coordinates, against the same test on the plain ones. *)
Lemma probe_spec {X} t row column rOffs cOffs st (A B : result X) :
  shape_ok t -> 0 <= row < size t -> 0 <= column < size t ->
  -1 <= rOffs <= 1 -> -1 <= cOffs <= 1 ->
  (if in_grid t (u32 (row + rOffs)) (u32 (column + cOffs))
   then n <- at2 (cells t) (u32 (row + rOffs)) (u32 (column + cOffs)) ;;
        if State_eqb (state n) st then A else B
   else B)
  = if has_state t st (row + rOffs, column + cOffs) then A else B.
Proof.
  intros Hs Hrow Hcol Hro Hco. pose proof (shape_size t Hs) as Hsz.
  unfold has_state, in_grid. simpl.
  assert (Hwrap : forall a o, 0 <= a < size t -> -1 <= o <= 1 ->
            (0 <= a + o < size t /\ u32 (a + o) = a + o)
            \/ (~ 0 <= a + o < size t /\ ~ u32 (a + o) < size t)).
  { intros a o Ha Ho. destruct (decide (0 <= a + o < size t)) as [Hin|Hout].
    - left. split; [done|]. apply u32_small. lia.
    - right. split; [done|]. destruct (decide (a + o = -1)) as [E|E].
      + rewrite E. unfold u32. change (-1 mod 2 ^ 32) with (2 ^ 32 - 1). lia.
      + rewrite u32_small by lia. lia. }
  pose proof (u32_range (row + rOffs)). pose proof (u32_range (column + cOffs)).
  destruct (Hwrap row rOffs Hrow Hro) as [[Hr ->] | [Hr Hr']].
  2:{ replace (u32 (row + rOffs) <? size t) with false by (symmetry; apply Z.ltb_ge; lia).
      rewrite andb_false_r. simpl.
      destruct (0 <=? row + rOffs) eqn:E1; [|done].
      destruct (row + rOffs <? size t) eqn:E2; [|done].
      apply Z.leb_le in E1. apply Z.ltb_lt in E2. lia. }
  destruct (Hwrap column cOffs Hcol Hco) as [[Hc ->] | [Hc Hc']].
  2:{ replace (u32 (column + cOffs) <? size t) with false
        by (symmetry; apply Z.ltb_ge; lia).
      rewrite !andb_false_r. simpl.
      destruct (0 <=? column + cOffs) eqn:E1; [|by rewrite !andb_false_r].
      destruct (column + cOffs <? size t) eqn:E2; [|by rewrite !andb_false_r].
      apply Z.leb_le in E1. apply Z.ltb_lt in E2. lia. }
  replace (0 <=? row + rOffs) with true by (symmetry; apply Z.leb_le; lia).
  replace (row + rOffs <? size t) with true by (symmetry; apply Z.ltb_lt; lia).
  replace (0 <=? column + cOffs) with true by (symmetry; apply Z.leb_le; lia).
  replace (column + cOffs <? size t) with true by (symmetry; apply Z.ltb_lt; lia).
  simpl.
  destruct (shape_cell t _ _ Hs Hr Hc) as (rw & n & Hrw & Hn & ->). simpl.
  unfold cell_at. by rewrite Hrw, Hn.
Qed.

Lemma offs_loop_S {St} n rOffs cOffs body (s : St) :
  offs_loop (S n) rOffs cOffs body s
  = (s' <- body rOffs cOffs s ;; offs_loop n (- cOffs) rOffs body s').
Proof. reflexivity. Qed.

Lemma neighbor_loop_spec t row column :
  shape_ok t -> 0 <= row < size t -> 0 <= column < size t ->
  offs_loop 4 0 (-1) (deleteCell_neighbor_step t row column) tt
  = if has_deleted_neighbor t row column
    then Throw deleted_neighbor_found else Ok tt.
Proof.
  intros Hs Hrow Hcol.
  assert (Hstep : forall ro co, -1 <= ro <= 1 -> -1 <= co <= 1 ->
            deleteCell_neighbor_step t row column ro co tt
            = if has_state t Deleted (row + ro, column + co)
              then Throw deleted_neighbor_found else Ok tt).
  { intros ro co Hro Hco. unfold deleteCell_neighbor_step, deleted_neighbor_found.
    by rewrite (probe_spec t row column ro co Deleted
                  (Throw (NoSolutionExistsException "deleted neighbor found"))
                  (Ok tt)) by done. }
  unfold has_deleted_neighbor, orthogonal_neighbors. cbn [existsb].
  rewrite offs_loop_S, Hstep by lia.
  replace (row + 0) with row by lia. replace (column + -1) with (column - 1) by lia.
  destruct (has_state t Deleted (row, column - 1)); [done|]. cbn [bind orb].
  change (- (-1)) with 1. rewrite offs_loop_S, Hstep by lia.
  replace (column + 0) with column by lia.
  destruct (has_state t Deleted (row + 1, column)); [done|]. cbn [bind orb].
  change (- 0) with 0. rewrite offs_loop_S, Hstep by lia.
  replace (row + 0) with row by lia.
  destruct (has_state t Deleted (row, column + 1)); [done|]. cbn [bind orb].
  rewrite offs_loop_S, Hstep by lia.
  replace (row + Z.opp 1) with (row - 1) by lia.
  replace (column + 0) with column by lia.
  destruct (has_state t Deleted (row - 1, column)); done.
Qed.

Lemma bind_ext {A B} (m : result A) (k k' : A -> result B) :
  (forall a, k a = k' a) -> (x <- m ;; k x) = (x <- m ;; k' x).
Proof. intros H. destruct m; simpl; auto. Qed.

Lemma probe_all_filter t cellSet ps :
  forall ds,
    probe_all t cellSet ps ds
    = unite_all cellSet (map (element_of t) (List.filter (has_state t Deleted) ps)) ds.
Proof.
  induction ps as [|p ps IH]; intros ds; simpl; [done|].
  destruct (has_state t Deleted p); simpl; [|apply IH].
  apply bind_ext. intros ds'. apply IH.
Qed.

Lemma has_state_range t st p :
  has_state t st p = true -> 0 <= fst p < size t /\ 0 <= snd p < size t.
Proof. unfold has_state. rewrite !andb_true_iff. lia. Qed.

Lemma diagonal_step_spec t row column rOffs cOffs ds :
  shape_ok t -> size t * size t + 1 < 2 ^ 31 ->
  0 <= row < size t -> 0 <= column < size t ->
  -1 <= rOffs <= 1 -> -1 <= cOffs <= 1 ->
  deleteCell_diagonal_step t row column
    (to_int (u32 (row * size t + column + 1))) rOffs cOffs ds
  = if has_state t Deleted (row + rOffs, column + cOffs)
    then unite_or_cycle (element_of t (row, column)) ds
           (element_of t (row + rOffs, column + cOffs))
    else Ok ds.
Proof.
  intros Hs Hb Hrow Hcol Hro Hco. pose proof (shape_size t Hs) as Hsz.
  unfold deleteCell_diagonal_step. cbv zeta.
  rewrite (probe_spec t row column rOffs cOffs Deleted) by done.
  destruct (has_state t Deleted (row + rOffs, column + cOffs)) eqn:Hh; [|done].
  apply has_state_range in Hh as [Hr Hc]. simpl in Hr, Hc.
  rewrite (u32_small (row + rOffs)) by lia.
  rewrite (u32_small (column + cOffs)) by lia.
  destruct (cellSet_range t _ _ (proj1 Hsz) Hb Hr Hc) as [-> _].
  destruct (cellSet_range t _ _ (proj1 Hsz) Hb Hrow Hcol) as [-> _].
  done.
Qed.

Lemma diagonal_loop_spec t row column ds :
  shape_ok t -> size t * size t + 1 < 2 ^ 31 ->
  0 <= row < size t -> 0 <= column < size t ->
  offs_loop 4 (-1) (-1)
    (deleteCell_diagonal_step t row column
       (to_int (u32 (row * size t + column + 1)))) ds
  = unite_all (element_of t (row, column)) (deleted_diagonals t row column) ds.
Proof.
  intros Hs Hb Hrow Hcol. unfold deleted_diagonals.
  rewrite <- probe_all_filter. unfold diagonal_neighbors. cbn [probe_all].
  rewrite offs_loop_S, diagonal_step_spec by (done || lia).
  replace (row + -1) with (row - 1) by lia.
  replace (column + -1) with (column - 1) by lia.
  apply bind_ext. intros ds1. change (- (-1)) with 1.
  rewrite offs_loop_S, diagonal_step_spec by (done || lia).
  replace (column + -1) with (column - 1) by lia.
  apply bind_ext. intros ds2. change (- (-1)) with 1.
  rewrite offs_loop_S, diagonal_step_spec by (done || lia).
  apply bind_ext. intros ds3.
  rewrite offs_loop_S, diagonal_step_spec by (done || lia).
  replace (row + Z.opp 1) with (row - 1) by lia.
  apply bind_ext. intros ds4. done.
Qed.

Lemma on_border_spec t row column :
  shape_ok t -> 0 <= row < size t ->
  on_border t row column = touches_border t row column.
Proof.
  intros Hs Hrow. pose proof (shape_size t Hs).
  unfold on_border, touches_border. by rewrite u32_small by lia.
Qed.

(** The checks of [deleteCell], read on plain coordinates. *)
Lemma deleteCell_checks_run t row column :
  shape_ok t -> size t * size t + 1 < 2 ^ 31 ->
  0 <= row < size t -> 0 <= column < size t ->
  deleteCell_checks t row column
  = if has_deleted_neighbor t row column then Throw deleted_neighbor_found
    else ds0 <- border_union t row column ;;
         unite_all (element_of t (row, column)) (deleted_diagonals t row column) ds0.
Proof.
  intros Hs Hb Hrow Hcol. pose proof (shape_size t Hs) as Hsz.
  unfold deleteCell_checks. rewrite neighbor_loop_spec by done.
  destruct (has_deleted_neighbor t row column); [done|]. cbn [bind]. cbv zeta.
  unfold border_union. rewrite on_border_spec by done.
  destruct (cellSet_range t _ _ (proj1 Hsz) Hb Hrow Hcol) as [E _].
  rewrite E at 1. fold (element_of t (row, column)).
  apply bind_ext. intros ds0. by apply diagonal_loop_spec.
Qed.

Lemma unite_or_cycle_spec len cellSet ds d :
  forest_kept len ds ->
  0 <= cellSet < Z.of_nat len -> 0 <= d < Z.of_nat len ->
  (unite_or_cycle cellSet ds d = Throw circular_neighbors_found
   /\ exists root, root_of (parents ds) d root /\ root_of (parents ds) cellSet root)
  \/ (exists ds', unite_or_cycle cellSet ds d = Ok ds'
        /\ unionSets ds d cellSet = Ok ds' /\ forest_kept len ds'
        /\ forall root, root_of (parents ds) d root ->
                        ~ root_of (parents ds) cellSet root).
Proof.
  intros [Hlen Hf] Hcs Hd. unfold unite_or_cycle, unionSets.
  destruct (findSet_spec ds d Hf)
    as (r1 & ds1 & -> & Hr1 & Hlen1 & Hf1 & Hneg1 & Hroots1); [lia|]. simpl.
  destruct (findSet_spec ds1 cellSet Hf1)
    as (r2 & ds2 & -> & Hr2 & Hlen2 & Hf2 & Hneg2 & Hroots2); [lia|]. simpl.
  apply Hroots1 in Hr2.
  destruct (Z.eqb_spec r1 r2) as [<-|Hne]; simpl.
  - left. split; [done|]. eauto.
  - right.
    pose proof Hr1 as Hr1'. apply Hroots1, Hroots2 in Hr1'.
    pose proof Hr2 as Hr2'. apply Hroots1, Hroots2 in Hr2'.
    destruct (root_of_is_root _ _ _ Hr1') as (x1 & Hx1 & Hn1).
    destruct (root_of_is_root _ _ _ Hr2') as (x2 & Hx2 & Hn2).
    destruct (linkSets_spec ds2 r1 r2 x1 x2) as (ds' & -> & Hlen' & Hf'); auto.
    exists ds'. split; [done|]. split; [done|]. split; [split; [lia | done]|].
    intros root Hd' Hc'. apply Hne.
    rewrite (root_of_det _ _ _ _ Hr1 Hd'). by apply (root_of_det _ _ _ _ Hc').
Qed.

Lemma unite_all_spec len cellSet l :
  0 <= cellSet < Z.of_nat len ->
  (forall d, In d l -> 0 <= d < Z.of_nat len) ->
  forall ds, forest_kept len ds ->
    ((exists ds', unite_all cellSet l ds = Ok ds' /\ forest_kept len ds')
     \/ unite_all cellSet l ds = Throw circular_neighbors_found)
    /\ (unite_all cellSet l ds = Throw circular_neighbors_found
        <-> closes_cycle ds cellSet l).
Proof.
  intros Hcs. induction l as [|d l IH]; intros Hl ds Hds; simpl.
  - split; [left; eauto|]. split; [discriminate|]. intros H. inversion H.
  - destruct (unite_or_cycle_spec len cellSet ds d Hds Hcs)
      as [[-> (root & Hd & Hc)] | (ds' & -> & Hu & Hds' & Hne)];
      [apply Hl; by left | |]; simpl.
    + split; [by right|]. split; [|done]. intros _. by eapply closes_cycle_here.
    + destruct (IH (fun d' H => Hl d' (or_intror H)) ds' Hds') as [IH1 IH2].
      split; [done|]. rewrite IH2. split.
      * intros H. by eapply closes_cycle_later.
      * intros H. inversion H as [? ? ? ? root Hd Hc | ? ? ? ? ds'' _ Hu' Hrest]; subst.
        -- exfalso. by eapply Hne.
        -- rewrite Hu in Hu'. by injection Hu' as <-.
Qed.

Lemma deleteCell_after_checks t row column fuel :
  shape_ok t -> counts_ok t ->
  0 <= row < size t -> 0 <= column < size t ->
  unknown_at t (Z.to_nat row) (Z.to_nat column) = true ->
  (forall e, deleteCell_checks t row column = Throw e ->
             deleteCell (S fuel) t row column = Throw e)
  /\ (forall ds, deleteCell_checks t row column = Ok ds ->
        exists t', shaded t row column ds t'
          /\ deleteCell (S fuel) t row column
             = offs_loop 4 0 1 (deleteCell_force_step (finalizeCell fuel) row column) t').
Proof.
  intros Hs Hc Hrow Hcol Hunk.
  destruct (unknown_at_cell t row column) as (rw & cell & Hrw & Hcell & Hst & Hat);
    [lia | lia | done |].
  change (deleteCell (S fuel) t row column)
    with (deleteCell_body (finalizeCell fuel) t row column).
  unfold deleteCell_body. rewrite Hat, bind_ret. rewrite Hst. cbn [State_eqb negb].
  split.
  - intros e ->. done.
  - intros ds ->. rewrite bind_ret. cbv zeta.
    destruct (settle_run_steps (set_deletedTrees t ds) row column Deleted rw cell)
      as (lr & lc & t1 & Hlr & Hlc & H1 & H2); auto; [by destruct Hs | lia |].
    rewrite H1, bind_ret, H2, bind_ret.
    eexists. split; [|done]. exists rw, cell, lr, lc. auto.
Qed.

Lemma deleted_diagonals_range t row column d :
  0 <= size t -> size t * size t + 1 < 2 ^ 31 ->
  In d (deleted_diagonals t row column) ->
  0 <= d < Z.of_nat (Z.to_nat (size t * size t + 1)).
Proof.
  intros Hsz Hb Hd. unfold deleted_diagonals in Hd.
  apply in_map_iff in Hd as (p & <- & Hp). apply filter_In in Hp as [_ Hp].
  apply has_state_range in Hp as [Hr Hc].
  destruct (cellSet_range t _ _ Hsz Hb Hr Hc) as [_ H].
  unfold element_of. lia.
Qed.

Lemma border_union_spec t row column :
  shape_ok t -> trees_ok t -> 0 <= row < size t -> 0 <= column < size t ->
  exists ds0, border_union t row column = Ok ds0
              /\ forest_kept (Z.to_nat (size t * size t + 1)) ds0.
Proof.
  intros Hs [Hb Hlen Hf Hu] Hrow Hcol. pose proof (shape_size t Hs) as Hsz.
  unfold border_union. destruct (touches_border t row column).
  - destruct (cellSet_range t _ _ (proj1 Hsz) Hb Hrow Hcol) as [_ Hcs].
    destruct (unionSets_spec (deletedTrees t) 0 (element_of t (row, column)) Hf)
      as (ds' & -> & Hlen' & Hf'); [unfold element_of; simpl; lia..|].
    exists ds'. split; [done|]. split; [lia | done].
  - exists (deletedTrees t). split; [done|]. by split.
Qed.

Lemma Table_new_Inv initValues t :
  Table_new initValues = Ok t -> size t * size t + 1 < 2 ^ 31 -> Inv t.
Proof.
  intros H Hb. apply Table_new_spec in H as (Hs & Hc & _ & Ht).
  constructor; auto.
Qed.

(** * Worked boards *)

Lemma board_3x3_new : Table_new puzzle_3x3 = Ok board_3x3.
Proof. reflexivity. Qed.

Lemma board_2x2_new : Table_new puzzle_2x2 = Ok board_2x2.
Proof. reflexivity. Qed.

Lemma board_212_new : Table_new puzzle_212 = Ok board_212.
Proof. reflexivity. Qed.

Lemma board_2x2_Inv : Inv board_2x2.
Proof. apply (Table_new_Inv puzzle_2x2); [reflexivity | vm_compute; reflexivity]. Qed.

Lemma board_212_Inv : Inv board_212.
Proof. apply (Table_new_Inv puzzle_212); [reflexivity | vm_compute; reflexivity]. Qed.

(** * The claims *)

(** C1.  The specification asks that every board returned by [solve] has
    no Unknown cell left and satisfies the Hitori rules, among them that
    no row holds the same Final value twice.  The program does not keep
    this: on the solvable puzzle
    [[1 1 2] [3 2 1] [1 2 3]] it returns a board without Unknown cells
    whose first row keeps both 1s Final. *)
Theorem solve_returns_repeated_finals :
  exists b row,
    solve 9 board_3x3 = Ok b
    /\ isSolved b = true
    /\ states b = [[Final; Final; Final]; [Final; Deleted; Final];
                   [Deleted; Final; Final]]
    /\ cells b !! 0%nat = Some row
    /\ final_values row = [1; 1; 2]
    /\ ~ List.NoDup (final_values row).
Proof.
  eexists _, _. split; [vm_compute; reflexivity|].
  split; [reflexivity|]. split; [reflexivity|]. split; [reflexivity|].
  split; [reflexivity|].
  intros H. simpl in H. apply List.NoDup_cons_iff in H as [H _].
  apply H. by left.
Qed.

(** C2.  [solve] terminates on every board that satisfies the invariant
    of the program: with fuel above the number of Unknown cells (the
    fuel bounds the depth of the recursion) it returns a board or raises
    an exception; every board on which it calls itself satisfies the
    invariant again and has a strictly smaller [unknownCellCount], which
    is the number of Unknown cells. *)
Theorem solve_terminates (t : Table) :
  Inv t ->
  (forall fuel, (unknowns t < fuel)%nat ->
     (exists b, solve fuel t = Ok b) \/ (exists e, solve fuel t = Throw e))
  /\ (forall t', solve_calls t t' ->
        Inv t' /\ unknownCellCount t' < unknownCellCount t)
  /\ unknownCellCount t = Z.of_nat (unknowns t).
Proof.
  intros Hinv. split; [|split].
  - intros fuel Hfuel. pose proof (solve_total fuel t Hinv Hfuel) as R.
    destruct (solve fuel t) as [b|e| |]; simpl in R; try done; eauto.
  - intros t' Hcall. by apply solve_calls_decrease.
  - apply trees_unknown, Inv_trees, Hinv.
Qed.

Lemma solve_terminates_witness :
  Inv board_2x2
  /\ ((exists b, solve 5 board_2x2 = Ok b) \/ (exists e, solve 5 board_2x2 = Throw e)).
Proof.
  split; [exact board_2x2_Inv|].
  apply (proj1 (solve_terminates board_2x2 board_2x2_Inv) 5%nat).
  vm_compute. lia.
Defined.

(** C3.  In [solve], when the attempt on the copy (finalizeCell at the
    candidate, then the recursive call) raises NoSolutionExistsException,
    the exception is caught: deleteCell is applied to the board that was
    copied, at the same position, and the search goes on from there,
    nothing of its outcome being caught.  Any other outcome of the
    attempt, a board or an exception of another class, is the outcome of
    [solve]. *)
Theorem solve_catches_contradictions_only
    (fuel : nat) (t t1 : Table) (row column : Z) :
  finalizeUniqueCells t = Ok t1 ->
  isSolved t1 = false ->
  getFinalizeCandidatePos t1 = Ok (row, column) ->
  let attempt :=
    tCopy <- finalizeCell (S fuel) t1 row column ;; solve fuel tCopy in
  (forall reason,
      attempt = Throw (NoSolutionExistsException reason) ->
      solve (S fuel) t
      = (t' <- deleteCell (S fuel) t1 row column ;; solve fuel t'))
  /\ ((forall reason, attempt <> Throw (NoSolutionExistsException reason)) ->
      solve (S fuel) t = attempt).
Proof.
  intros H1 H2 H3 attempt. rewrite solve_unfold, H1, bind_ret, H2, H3, bind_ret.
  cbn [fst snd]. cbv zeta. fold attempt. split.
  - intros reason E. by rewrite E.
  - intros Hn. destruct (is_NoSolutionExists attempt) eqn:E; [|done].
    apply is_NoSolutionExists_true in E as [reason E]. by destruct (Hn reason).
Qed.

Lemma solve_catches_contradictions_only_witness :
  exists t1,
    finalizeUniqueCells board_2x2 = Ok t1
    /\ isSolved t1 = false
    /\ getFinalizeCandidatePos t1 = Ok (0, 0)
    /\ (tCopy <- finalizeCell 4 t1 0 0 ;; solve 3 tCopy)
       = Throw circular_neighbors_found
    /\ solve 4 board_2x2 = (t' <- deleteCell 4 t1 0 0 ;; solve 3 t').
Proof.
  eexists. split; [vm_compute; reflexivity|].
  split; [reflexivity|]. split; [reflexivity|]. split; [vm_compute; reflexivity|].
  eapply (proj1 (solve_catches_contradictions_only 3 board_2x2 _ 0 0
                   ltac:(vm_compute; reflexivity) eq_refl eq_refl)).
  vm_compute. reflexivity.
Defined.

(** C4, as the program has it.  For [deleteCell] on an Unknown cell of a
    board that satisfies the invariant: its own checks fail with
    "deleted neighbor found" if and only if an orthogonal neighbour in
    the grid is Deleted; when none is, the forest after the border union
    exists and the checks fail with "circular neighbors found" exactly
    when, going through the Deleted diagonal neighbours in order, one of
    them has the root of the cell before its union is made; an exception
    of the checks is the outcome of [deleteCell]; and when the checks
    pass, the cell is shaded and the outcome of [deleteCell] is that of
    the forced finalizeCell calls on its neighbours, which may raise
    either contradiction themselves. *)
Theorem deleteCell_contradictions (t : Table) (row column : Z) (fuel : nat) :
  Inv t -> 0 <= row < size t -> 0 <= column < size t ->
  unknown_at t (Z.to_nat row) (Z.to_nat column) = true ->
  (deleteCell_checks t row column = Throw deleted_neighbor_found
   <-> has_deleted_neighbor t row column = true)
  /\ (has_deleted_neighbor t row column = false ->
      exists ds0,
        border_union t row column = Ok ds0
        /\ (deleteCell_checks t row column = Throw circular_neighbors_found
            <-> closes_cycle ds0 (element_of t (row, column))
                  (deleted_diagonals t row column)))
  /\ (forall e, deleteCell_checks t row column = Throw e ->
                deleteCell (S fuel) t row column = Throw e)
  /\ (forall ds, deleteCell_checks t row column = Ok ds ->
        exists t', shaded t row column ds t'
          /\ deleteCell (S fuel) t row column
             = offs_loop 4 0 1
                 (deleteCell_force_step (finalizeCell fuel) row column) t').
Proof.
  intros [Hs Hc Ht] Hrow Hcol Hunk. pose proof (shape_size t Hs) as Hsz.
  pose proof (trees_bound t Ht) as Hb.
  destruct (deleteCell_after_checks t row column fuel Hs Hc Hrow Hcol Hunk)
    as [Hthrow Hpass].
  split; [|split; [|split; [exact Hthrow | exact Hpass]]].
  - rewrite deleteCell_checks_run by done.
    destruct (has_deleted_neighbor t row column); [done|].
    destruct (border_union_spec t row column Hs Ht Hrow Hcol) as (ds0 & -> & Hds0).
    cbn [bind]. split; [|done]. intros H. exfalso.
    destruct (cellSet_range t _ _ (proj1 Hsz) Hb Hrow Hcol) as [_ Hcs].
    destruct (unite_all_spec (Z.to_nat (size t * size t + 1))
                (element_of t (row, column)) (deleted_diagonals t row column))
      with (ds := ds0) as [[(ds' & E & _) | E] _];
      [unfold element_of; cbn [fst snd]; lia
      | intros d Hd; eapply deleted_diagonals_range; [lia | exact Hb | exact Hd]
      | done | |];
      rewrite E in H; discriminate.
  - intros Hnone. rewrite deleteCell_checks_run by done. rewrite Hnone.
    destruct (border_union_spec t row column Hs Ht Hrow Hcol) as (ds0 & -> & Hds0).
    exists ds0. split; [done|]. cbn [bind].
    destruct (cellSet_range t _ _ (proj1 Hsz) Hb Hrow Hcol) as [_ Hcs].
    apply (unite_all_spec (Z.to_nat (size t * size t + 1))); auto.
    + unfold element_of. cbn [fst snd]. lia.
    + intros d Hd. eapply deleted_diagonals_range; [lia | exact Hb | exact Hd].
Qed.

Lemma deleteCell_contradictions_witness :
  Inv board_212 /\ 0 <= 1 < size board_212
  /\ unknown_at board_212 1 1 = true
  /\ (deleteCell_checks board_212 1 1 = Throw deleted_neighbor_found
      <-> has_deleted_neighbor board_212 1 1 = true).
Proof.
  split; [exact board_212_Inv|]. split; [vm_compute; split; [discriminate | reflexivity]|].
  split; [reflexivity|].
  apply (deleteCell_contradictions board_212 1 1 0 board_212_Inv);
    [vm_compute; split; [discriminate | reflexivity]..| reflexivity].
Defined.

(** C4, as the specification has it, fails: on the fresh board
    [[1 2 3] [2 1 2] [3 3 1]] the cell (1,1) is Unknown and none of its
    orthogonal neighbours is Deleted, yet [deleteCell] at (1,1) fails with
    "deleted neighbor found".  The exception comes from the cascade: the
    cell is shaded, its right neighbour 2 is forced Final, and the other
    2 of the row, left of the shaded cell, must then be shaded too. *)
Lemma deleteCell_cascade_reports_deleted_neighbor :
  unknown_at board_212 1 1 = true
  /\ has_deleted_neighbor board_212 1 1 = false
  /\ deleteCell 3 board_212 1 1 = Throw deleted_neighbor_found
  /\ ~ (deleteCell 3 board_212 1 1 = Throw deleted_neighbor_found
        <-> has_deleted_neighbor board_212 1 1 = true).
Proof.
  assert (H : deleteCell 3 board_212 1 1 = Throw deleted_neighbor_found)
    by (vm_compute; reflexivity).
  split; [reflexivity|]. split; [reflexivity|]. split; [exact H|].
  intros [Hiff _]. specialize (Hiff H). discriminate.
Qed.

(** C5.  The specification asks [finalizeCell] to raise "multiple
    finalized values found in a row" whenever another cell of the row
    with the same value is already Final.  The program looks for such a
    cell only while the row still counts an Unknown cell of that value.
    On the board of [puzzle_3x3] after [finalizeUniqueCells],
    [finalizeCell] at the Unknown cell (0,0) returns a board, although
    the cell (0,1), of the same value 1, was made Final by the cascade
    started in the column: both 1s of row 0 end up Final. *)
Theorem finalizeCell_misses_final_duplicate :
  exists t1 t',
    finalizeUniqueCells board_3x3 = Ok t1
    /\ at2 (cells t1) 0 0 = Ok (mkCell 1 Unknown)
    /\ at2 (cells t1) 0 1 = Ok (mkCell 1 Unknown)
    /\ finalizeCell 9 t1 0 0 = Ok t'
    /\ at2 (cells t') 0 0 = Ok (mkCell 1 Final)
    /\ at2 (cells t') 0 1 = Ok (mkCell 1 Final).
Proof.
  eexists _, _. split; [vm_compute; reflexivity|].
  split; [reflexivity|]. split; [reflexivity|].
  split; [vm_compute; reflexivity|]. split; reflexivity.
Qed.

(** C6.  On every board reachable from a constructed Table by runs of
    finalizeUniqueCells, finalizeCell and deleteCell that return, for
    every row r and every value v that indexes the counts,
    [rowCounts[r][v]] is the number of Unknown cells of value v in row
    r, and [columnCounts[r][v]] the number of those in column r. *)
Theorem counts_invariant (t : Table) (r v : Z) :
  reachable t -> 0 <= r < size t -> 0 <= v <= size t ->
  at2 (rowCounts t) r v = Ok (Z.of_nat (row_unknowns t (Z.to_nat r) v))
  /\ at2 (columnCounts t) r v = Ok (Z.of_nat (column_unknowns t (Z.to_nat r) v)).
Proof.
  intros Hreach Hr Hv. destruct (reachable_counts t Hreach) as [Hs Hc].
  destruct (shape_rowCount t r v Hs Hr Hv) as (lr & x & Hlr & Hx & ->).
  destruct (shape_columnCount t r v Hs Hr Hv) as (lc & y & Hlc & Hy & ->).
  rewrite (counts_rowCount t r v lr x Hs Hc Hr Hv Hlr Hx).
  rewrite (counts_columnCount t r v lc y Hs Hc Hr Hv Hlc Hy). done.
Qed.

Lemma counts_invariant_witness :
  reachable board_3x3
  /\ at2 (rowCounts board_3x3) 0 1 = Ok 2
  /\ at2 (columnCounts board_3x3) 0 1 = Ok 2.
Proof.
  assert (Hreach : reachable board_3x3)
    by (apply (reachable_new puzzle_3x3); reflexivity).
  split; [exact Hreach|].
  apply (counts_invariant board_3x3 0 1 Hreach); vm_compute;
    split; (discriminate || reflexivity).
Defined.

Lemma board_3x3_counts : shape_ok board_3x3 /\ counts_ok board_3x3.
Proof.
  destruct (Table_new_spec puzzle_3x3 board_3x3 board_3x3_new) as (? & ? & _).
  auto.
Qed.

(** C7.  [getFinalizeCandidatePos] scans the Unknown cells in row-major
    order and, for each of them, the values 1..N in ascending order; the
    score of a scanned (cell, value) is
    [rowCounts[r][v] + columnCounts[c][v] - 1] in unsigned 32-bit
    arithmetic.  Whenever the scan meets a positive score, the position
    returned is that of the first scanned entry whose score is the
    greatest: every entry before it scores strictly less and no entry
    after it scores more. *)
Theorem getFinalizeCandidatePos_first_max (t : Table) :
  shape_ok t ->
  (exists x, In x (scan t) /\ 0 < score t x) ->
  exists r c v,
    getFinalizeCandidatePos t = Ok (Z.of_nat r, Z.of_nat c)
    /\ first_max (score t) (scan t) (r, c, v).
Proof. exact (candidate_first_max t). Qed.

Lemma getFinalizeCandidatePos_first_max_witness :
  shape_ok board_3x3
  /\ (In (0, 0, 1)%nat (scan board_3x3) /\ 0 < score board_3x3 (0, 0, 1)%nat)
  /\ exists r c v,
      getFinalizeCandidatePos board_3x3 = Ok (Z.of_nat r, Z.of_nat c)
      /\ first_max (score board_3x3) (scan board_3x3) (r, c, v).
Proof.
  assert (Hx : In (0, 0, 1)%nat (scan board_3x3) /\ 0 < score board_3x3 (0, 0, 1)%nat).
  { split; [|reflexivity]. apply scan_In. vm_compute. repeat split; lia. }
  split; [exact (proj1 board_3x3_counts)|]. split; [exact Hx|].
  apply (getFinalizeCandidatePos_first_max board_3x3 (proj1 board_3x3_counts)).
  exists (0, 0, 1)%nat. exact Hx.
Defined.

(** C8.  Idempotence of propagation: when [finalizeUniqueCells] has run
    on a board, running it again on the outcome changes nothing, neither
    a cell state, nor a row or column count, nor [unknownCellCount]; the
    second run returns the very board it was given. *)
Theorem finalizeUniqueCells_idempotent (t t1 : Table) :
  finalizeUniqueCells t = Ok t1 -> finalizeUniqueCells t1 = Ok t1.
Proof. exact (finalizeUniqueCells_twice t t1). Qed.

Lemma finalizeUniqueCells_idempotent_witness :
  exists t1,
    finalizeUniqueCells board_3x3 = Ok t1
    /\ states t1 = [[Unknown; Unknown; Final]; [Final; Unknown; Final];
                    [Unknown; Unknown; Final]]
    /\ finalizeUniqueCells t1 = Ok t1.
Proof.
  eexists. split; [vm_compute; reflexivity|]. split; [reflexivity|].
  apply (finalizeUniqueCells_idempotent board_3x3). vm_compute. reflexivity.
Defined.

(** C9, as the specification has it, fails: the constructor accepts only
    the values 1..N, so the 1x1 matrix [[5]] is rejected with
    InvalidValueException and there is no board to solve. *)
Lemma table_of_5_is_rejected :
  Table_new [[5]] = Throw InvalidValueException
  /\ ~ (exists t fuel b, Table_new [[5]] = Ok t /\ solve fuel t = Ok b).
Proof.
  split; [reflexivity|]. intros (t & fuel & b & H & _). discriminate.
Qed.

(** C9, as the program has it.  The only 1x1 matrix the constructor
    accepts is [[1]]; [solve] on its board succeeds at once, without a
    recursive call, and returns a solved board whose single cell is Final
    with value 1, no cell being Deleted.  The matrix [[5]] is rejected. *)
Theorem solve_1x1 :
  (exists t b,
      Table_new [[1]] = Ok t /\ solve 1 t = Ok b
      /\ isSolved b = true /\ cells b = [[mkCell 1 Final]])
  /\ Table_new [[5]] = Throw InvalidValueException
  /\ forall v, (exists t, Table_new [[v]] = Ok t) -> v = 1.
Proof.
  split; [|split].
  - eexists _, _. split; [vm_compute; reflexivity|]. split; [vm_compute; reflexivity|].
    split; reflexivity.
  - reflexivity.
  - intros v [t H]. unfold Table_new in H. simpl in H.
    change (u32 (Z.of_nat 1)) with 1 in H.
    destruct (Z.eqb_spec v 0) as [->|Hv0]; [discriminate|].
    destruct (Z.ltb_spec 1 v) as [Hlt|Hge]; [discriminate|].
    simpl in H. unfold at2 at 1 in H. simpl in H. unfold at_ at 1 in H.
    destruct (Z.ltb_spec v 0) as [Hneg|Hpos]; [discriminate | lia].
Qed.

(** C10.  On a board with at least one Unknown cell whose row and column
    counts are the numbers of Unknown cells (and whose side is below
    2^31, so that the sum of two counts does not wrap),
    [getFinalizeCandidatePos] returns the position of an Unknown cell of
    the grid; hence neither [finalizeCell] nor [deleteCell], called at
    that position, raises [MultipleStateChangeException], whatever the
    cascade does. *)
Theorem candidate_is_unknown (t : Table) :
  shape_ok t -> counts_ok t -> size t < 2 ^ 31 -> (0 < unknowns t)%nat ->
  exists row column,
    getFinalizeCandidatePos t = Ok (row, column)
    /\ 0 <= row < size t /\ 0 <= column < size t
    /\ unknown_at t (Z.to_nat row) (Z.to_nat column) = true
    /\ forall fuel,
        finalizeCell fuel t row column <> Throw MultipleStateChangeException
        /\ deleteCell fuel t row column <> Throw MultipleStateChangeException.
Proof. exact (candidate_unknown t). Qed.

Lemma candidate_is_unknown_witness :
  (shape_ok board_3x3 /\ counts_ok board_3x3)
  /\ size board_3x3 < 2 ^ 31 /\ (0 < unknowns board_3x3)%nat
  /\ exists row column,
      getFinalizeCandidatePos board_3x3 = Ok (row, column)
      /\ unknown_at board_3x3 (Z.to_nat row) (Z.to_nat column) = true.
Proof.
  split; [exact board_3x3_counts|]. split; [reflexivity|].
  split; [vm_compute; lia|].
  destruct (candidate_is_unknown board_3x3 (proj1 board_3x3_counts)
              (proj2 board_3x3_counts) eq_refl)
    as (row & column & Hpos & _ & _ & Hunk & _); [vm_compute; lia|].
  exists row, column. auto.
Defined.

(** * Proofs of the further properties *)

(** ** DisjointSets *)

Lemma assertElementRange_out ds e :
  ~ (0 <= e < Z.of_nat (length (parents ds))) ->
  assertElementRange ds e = Throw out_of_range.
Proof.
  intros H. unfold assertElementRange.
  destruct (Z.ltb_spec e 0); simpl; [done|].
  destruct (Z.leb_spec (Z.of_nat (length (parents ds))) e); simpl; [done | lia].
Qed.

Lemma assertElementRange_in ds e :
  0 <= e < Z.of_nat (length (parents ds)) -> assertElementRange ds e = Ok tt.
Proof.
  intros H. unfold assertElementRange.
  destruct (Z.ltb_spec e 0); simpl; [lia|].
  destruct (Z.leb_spec (Z.of_nat (length (parents ds))) e); simpl; [lia | done].
Qed.

Lemma at_insert {A} (p : list A) a v y :
  0 <= a < Z.of_nat (length p) ->
  at_ (<[Z.to_nat a := v]> p) y = if decide (y = a) then Ok v else at_ p y.
Proof.
  intros Ha. unfold at_. destruct (decide (y = a)) as [->|Hne].
  - destruct (Z.ltb_spec a 0); [lia|].
    rewrite list_lookup_insert_eq by lia. done.
  - destruct (Z.ltb_spec y 0); [done|].
    rewrite list_lookup_insert_ne by lia. done.
Qed.

Lemma at_range {A} (p : list A) e x : at_ p e = Ok x -> 0 <= e < Z.of_nat (length p).
Proof. intros H. apply at_Ok in H as [? H]. apply lookup_lt_Some in H. lia. Qed.

(** Hanging the root [a] below the root [b]. *)
Lemma root_of_attach p a b xa xb :
  at_ p a = Ok xa -> xa < 0 -> at_ p b = Ok xb -> xb < 0 -> a <> b ->
  forall y r, root_of (<[Z.to_nat a := b]> p) y r
              <-> (root_of p y a /\ r = b) \/ (root_of p y r /\ r <> a).
Proof.
  intros Ha Hxa Hb Hxb Hne y r.
  pose proof (at_range _ _ _ Ha) as Ra. pose proof (at_range _ _ _ Hb) as Rb.
  assert (Hbb : root_of (<[Z.to_nat a := b]> p) b b).
  { apply (root_of_here _ b xb); [|done]. rewrite at_insert by done.
    by rewrite decide_False by done. }
  split.
  - induction 1 as [e x Hx Hneg | e x r Hx Hpos Hr IH].
    + rewrite at_insert in Hx by done. destruct (decide (e = a)) as [->|Hea].
      * simplify_eq. lia.
      * right. split; [by apply (root_of_here _ e x) | done].
    + rewrite at_insert in Hx by done. destruct (decide (e = a)) as [->|Hea].
      * simplify_eq. left. split; [by apply (root_of_here _ a xa)|].
        by apply (root_of_det _ _ _ _ Hr Hbb).
      * destruct IH as [[IH ->] | [IH Hra]].
        -- left. split; [|done]. by apply (root_of_step _ e x a).
        -- right. split; [|done]. by apply (root_of_step _ e x r).
  - intros [[H ->] | [H Hra]].
    + remember a as a' eqn:Ea in H. induction H as [e x Hx Hneg | e x r Hx Hpos Hr IH].
      * subst e. apply (root_of_step _ a b b); [|lia|done].
        by rewrite at_insert, decide_True.
      * apply (root_of_step _ e x b); [|done|by apply IH].
        rewrite at_insert by done. rewrite decide_False; [done|].
        intros ->. same_ok. lia.
    + induction H as [e x Hx Hneg | e x r Hx Hpos Hr IH].
      * apply (root_of_here _ e x); [|done]. by rewrite at_insert, decide_False.
      * apply (root_of_step _ e x r); [|done|by apply IH].
        rewrite at_insert by done. rewrite decide_False; [done|].
        intros ->. same_ok. lia.
Qed.

(** Changing the rank stored at a root moves no element. *)
Lemma root_of_rerank_1 p k x y :
  at_ p k = Ok x -> x < 0 -> y < 0 ->
  forall e r, root_of p e r -> root_of (<[Z.to_nat k := y]> p) e r.
Proof.
  intros Hk Hx Hy e r. pose proof (at_range _ _ _ Hk) as Rk.
  induction 1 as [e x' Hx' Hneg | e x' r Hx' Hpos Hr IH].
  - destruct (decide (e = k)) as [->|Hne].
    + apply (root_of_here _ k y); [|done]. by rewrite at_insert, decide_True.
    + apply (root_of_here _ e x'); [|done]. by rewrite at_insert, decide_False.
  - apply (root_of_step _ e x' r); [|done..].
    rewrite at_insert by done. rewrite decide_False; [done|].
    intros ->. same_ok. lia.
Qed.

Lemma root_of_rerank p k x y :
  at_ p k = Ok x -> x < 0 -> y < 0 ->
  forall e r, root_of p e r <-> root_of (<[Z.to_nat k := y]> p) e r.
Proof.
  intros Hk Hx Hy e r. pose proof (at_range _ _ _ Hk) as Rk. split.
  - by apply (root_of_rerank_1 p k x y).
  - intros H. apply (root_of_rerank_1 _ k y x) in H; [| |done..].
    + rewrite list_insert_insert_eq in H. rewrite list_insert_id in H; [done|].
      by apply at_Ok in Hk as [_ ?].
    + by rewrite at_insert, decide_True.
Qed.

Lemma same_set_attach p a b xa xb :
  at_ p a = Ok xa -> xa < 0 -> at_ p b = Ok xb -> xb < 0 -> a <> b ->
  forall u v, same_set (<[Z.to_nat a := b]> p) u v
    <-> same_set p u v \/ (root_of p u a /\ root_of p v b)
        \/ (root_of p u b /\ root_of p v a).
Proof.
  intros Ha Hxa Hb Hxb Hne u v.
  pose proof (root_of_attach p a b xa xb Ha Hxa Hb Hxb Hne) as R.
  unfold same_set. split.
  - intros (r & Hu & Hv). apply R in Hu, Hv.
    destruct Hu as [[Hu ->] | [Hu Hr]], Hv as [[Hv E] | [Hv Hr']]; subst.
    + left. by exists a.
    + right. left. done.
    + right. right. done.
    + left. by exists r.
  - intros [(r & Hu & Hv) | [[Hu Hv] | [Hu Hv]]].
    + destruct (decide (r = a)) as [->|Hr].
      * exists b. split; apply R; by left.
      * exists r. split; apply R; by right.
    + exists b. split; apply R; [by left | right; split; [done | lia]].
    + exists b. split; apply R; [right; split; [done | lia] | by left].
Qed.

Lemma same_set_sym p a b : same_set p a b -> same_set p b a.
Proof. intros (r & ? & ?). by exists r. Qed.

Lemma linkSets_roots ds r1 r2 x1 x2 :
  at_ (parents ds) r1 = Ok x1 -> x1 < 0 ->
  at_ (parents ds) r2 = Ok x2 -> x2 < 0 ->
  exists ds', linkSets ds r1 r2 = Ok ds'
    /\ forall u v, same_set (parents ds') u v
         <-> same_set (parents ds) u v
             \/ (root_of (parents ds) u r1 /\ root_of (parents ds) v r2)
             \/ (root_of (parents ds) u r2 /\ root_of (parents ds) v r1).
Proof.
  intros H1 Hx1 H2 Hx2.
  pose proof (at_range _ _ _ H1) as R1. pose proof (at_range _ _ _ H2) as R2.
  unfold linkSets. rewrite !assertElementRange_in by done. simpl.
  rewrite H1. simpl. destruct (Z.leb_spec 0 x1); [lia|].
  rewrite H2. simpl. destruct (Z.leb_spec 0 x2); [lia|].
  destruct (Z.eqb_spec r1 r2) as [Heq|Hne].
  { subst r2. exists ds. split; [done|]. intros u v. split; [by left|].
    intros [? | [[? ?] | [? ?]]]; [done | by exists r1..]. }
  destruct (Z.ltb_spec (- x1 - 1) (- x2 - 1)).
  { rewrite set_at_in_range by lia. simpl. eexists. split; [done|]. simpl.
    by apply (same_set_attach _ r1 r2 x1 x2). }
  destruct (Z.ltb_spec (- x2 - 1) (- x1 - 1)).
  { rewrite set_at_in_range by lia. simpl. eexists. split; [done|]. simpl.
    intros u v.
    pose proof (same_set_attach _ r2 r1 x2 x1 H2 Hx2 H1 Hx1 (not_eq_sym Hne) u v) as E.
    tauto. }
  rewrite set_at_in_range by lia. simpl.
  assert (Hl2' : at_ (<[Z.to_nat r1 := r2]> (parents ds)) r2 = Ok x2)
    by (rewrite at_insert by done; by rewrite decide_False by lia).
  rewrite Hl2'. simpl. rewrite set_at_in_range by (rewrite length_insert; lia). simpl.
  eexists. split; [done|]. simpl. intros u v.
  rewrite <- (same_set_attach _ r1 r2 x1 x2 H1 Hx1 H2 Hx2 Hne u v).
  assert (Hlt : x2 - 1 < 0) by lia.
  pose proof (root_of_rerank _ r2 x2 (x2 - 1) Hl2' Hx2 Hlt) as RR.
  unfold same_set. split; intros (r & Hu & Hv); exists r; split; by apply RR.
Qed.

Lemma same_set_root p a e r : root_of p e r -> (root_of p a r <-> same_set p a e).
Proof.
  intros He. split.
  - intros Ha. by exists r.
  - intros (r' & Ha & He'). by rewrite (root_of_det _ _ _ _ He He').
Qed.

Lemma unionSets_same_set ds e1 e2 :
  forest_ok (parents ds) ->
  0 <= e1 < Z.of_nat (length (parents ds)) ->
  0 <= e2 < Z.of_nat (length (parents ds)) ->
  exists ds', unionSets ds e1 e2 = Ok ds'
    /\ length (parents ds') = length (parents ds)
    /\ forest_ok (parents ds')
    /\ forall a b, same_set (parents ds') a b
         <-> same_set (parents ds) a b
             \/ (same_set (parents ds) a e1 /\ same_set (parents ds) b e2)
             \/ (same_set (parents ds) a e2 /\ same_set (parents ds) b e1).
Proof.
  intros Hf He1 He2.
  destruct (unionSets_spec ds e1 e2 Hf He1 He2) as (ds' & Hu & Hlen & Hf').
  exists ds'. split_and!; [done..|].
  unfold unionSets in Hu.
  destruct (findSet_spec ds e1 Hf He1)
    as (r1 & ds1 & E1 & Hr1 & Hlen1 & Hf1 & Hneg1 & Hroots1).
  rewrite E1 in Hu. simpl in Hu.
  destruct (findSet_spec ds1 e2 Hf1) as (r2 & ds2 & E2 & Hr2 & Hlen2 & Hf2 & Hneg2 & Hroots2);
    [lia|].
  rewrite E2 in Hu. simpl in Hu.
  pose proof Hr1 as Hr1'. apply Hroots1, Hroots2 in Hr1'.
  pose proof Hr2 as Hr2'. apply Hroots2 in Hr2'.
  destruct (root_of_is_root _ _ _ Hr1') as (x1 & Hx1 & Hn1).
  destruct (root_of_is_root _ _ _ Hr2') as (x2 & Hx2 & Hn2).
  destruct (linkSets_roots ds2 r1 r2 x1 x2) as (ds'' & Hl & Hsame); auto.
  rewrite Hl in Hu. simplify_eq.
  assert (Hroots : forall y r, root_of (parents ds) y r <-> root_of (parents ds2) y r).
  { intros y r. rewrite Hroots1. apply Hroots2. }
  assert (Hss : forall a b, same_set (parents ds) a b <-> same_set (parents ds2) a b).
  { intros a b. unfold same_set. split; intros (r & ? & ?); exists r; split;
      by apply Hroots. }
  assert (Hr2o : root_of (parents ds) e2 r2) by (by apply Hroots1).
  intros a b. rewrite Hsame.
  rewrite <- !Hroots. rewrite <- Hss.
  rewrite !(same_set_root _ _ e1 r1) by done.
  rewrite !(same_set_root _ _ e2 r2) by done. done.
Qed.

(** Path compression leaves the elements below [e] alone. *)
Lemma findSet_compress_below rk root :
  forall fuel p e p',
    forest_with rk p -> root_of p e root ->
    findSet_compress fuel p e root = Ok p' ->
    forall i, (rk i < rk (Z.to_nat e))%nat -> p' !! i = p !! i.
Proof.
  induction fuel as [|fuel IH]; intros p e p' Hf Hroot H i Hi; [done|].
  simpl in H. apply bind_Ok in H as (x & Hx & H).
  destruct (Z.leb_spec 0 x) as [Hpos|Hneg]; [|by simplify_eq].
  apply bind_Ok in H as (p1 & Hp1 & H).
  apply set_at_Ok in Hp1 as [He ->].
  pose proof Hx as Hx'. apply at_Ok in Hx' as [_ Hl].
  destruct (Hf _ _ Hl Hpos) as [_ Hrk].
  rewrite (IH _ _ _ (forest_with_repoint rk p e x root Hf Hx Hpos Hroot)
             (proj1 (root_of_repoint p e x root Hx Hpos Hroot _ _)
                (root_of_parent _ _ _ _ Hx Hpos Hroot)) H) by lia.
  apply list_lookup_insert_ne. intros <-. lia.
Qed.

Lemma findSet_points_to_root ds e root ds' :
  forest_ok (parents ds) -> findSet ds e = Ok (root, ds') ->
  root_of (parents ds) e root -> e <> root -> at_ (parents ds') e = Ok root.
Proof.
  intros [rk Hf] H Hroot Hne. unfold findSet in H.
  apply bind_Ok in H as ([] & _ & H). apply bind_Ok in H as (r & _ & H).
  apply bind_Ok in H as (p' & Hc & H). simplify_eq. simpl.
  destruct (length (parents ds)) as [|fuel]; [done|]. simpl in Hc.
  apply bind_Ok in Hc as (x & Hx & Hc).
  destruct (Z.leb_spec 0 x) as [Hpos|Hneg].
  - apply bind_Ok in Hc as (p1 & Hp1 & Hc).
    apply set_at_Ok in Hp1 as [He ->].
    pose proof Hx as Hx'. apply at_Ok in Hx' as [_ Hl].
    destruct (Hf _ _ Hl Hpos) as [_ Hrk].
    apply at_Ok. split; [lia|].
    rewrite (findSet_compress_below rk root _ _ _ _
               (forest_with_repoint rk _ e x root Hf Hx Hpos Hroot)
               (proj1 (root_of_repoint _ e x root Hx Hpos Hroot _ _)
                  (root_of_parent _ _ _ _ Hx Hpos Hroot)) Hc) by lia.
    apply list_lookup_insert_eq. lia.
  - by rewrite (root_of_root _ _ _ Hx Hneg _ Hroot) in Hne.
Qed.

Lemma findSet_at_rest ds e root x :
  at_ (parents ds) e = Ok root -> at_ (parents ds) root = Ok x -> x < 0 ->
  findSet ds e = Ok (root, ds).
Proof.
  intros He Hroot Hx.
  pose proof (at_range _ _ _ He) as Re. pose proof (at_range _ _ _ Hroot) as Rr.
  assert (e <> root) by (intros ->; same_ok; lia).
  unfold findSet. rewrite assertElementRange_in by done. simpl.
  destruct (length (parents ds)) as [|[|fuel]] eqn:Hlen; [lia..|].
  simpl. rewrite He. simpl. destruct (Z.leb_spec 0 root); [|lia].
  rewrite Hroot. simpl. destruct (Z.leb_spec 0 x); [lia|]. simpl.
  rewrite set_at_in_range by lia. simpl.
  rewrite list_insert_id by (by apply at_Ok in He as [_ ?]).
  rewrite Hroot. simpl. destruct (Z.leb_spec 0 x); [lia|]. by destruct ds.
Qed.

Lemma findSet_of_root ds root x :
  at_ (parents ds) root = Ok x -> x < 0 -> findSet ds root = Ok (root, ds).
Proof.
  intros Hroot Hx. pose proof (at_range _ _ _ Hroot) as Rr.
  unfold findSet. rewrite assertElementRange_in by done. simpl.
  destruct (length (parents ds)) as [|fuel] eqn:Hlen; [lia|].
  simpl. rewrite Hroot. simpl. destruct (Z.leb_spec 0 x); [lia|]. simpl.
  by destruct ds.
Qed.

Lemma at_replicate {A} n (x : A) i :
  0 <= i < Z.of_nat n -> at_ (replicate n x) i = Ok x.
Proof.
  intros H. apply at_Ok. split; [lia|]. apply lookup_replicate_2. lia.
Qed.

Lemma root_of_new n e r :
  root_of (replicate n (-1)) e r <-> r = e /\ 0 <= e < Z.of_nat n.
Proof.
  split.
  - intros H. pose proof H as H'. apply root_of_is_root in H' as (x & Hx & _).
    inversion H as [? y Hy Hneg | ? y ? Hy Hpos Hr]; subst.
    + apply at_range in Hy. rewrite length_replicate in Hy. done.
    + apply at_Ok in Hy as [_ Hy]. apply lookup_replicate in Hy as [-> _]. lia.
  - intros [-> He]. apply (root_of_here _ e (-1)); [|lia]. by apply at_replicate.
Qed.

(** ** The cascade as a sequence of decisions *)

Lemma decisions_trans t s s' : decisions t s -> decisions s s' -> decisions t s'.
Proof. intros H. induction 1; [done|]. by eapply decisions_step. Qed.

Lemma decisions_one t t' : decision t t' -> decisions t t'.
Proof. intros H. eapply decisions_step; [apply decisions_none | done]. Qed.

Lemma returns_bind {A B} (Q' : A -> Prop) (Q : B -> Prop) (m : result A) k :
  returns Q' m -> (forall a, m = Ok a -> Q' a -> returns Q (k a)) ->
  returns Q (x <- m ;; k x).
Proof. unfold returns. destruct m; simpl; auto. Qed.

Lemma returns_Ok {A} (Q : A -> Prop) r a : returns Q r -> r = Ok a -> Q a.
Proof. by intros H ->. Qed.

Lemma returns_intro {A} (Q : A -> Prop) r : (forall a, r = Ok a -> Q a) -> returns Q r.
Proof. unfold returns. destruct r; simpl; auto. Qed.

Lemma for_loop_returns {St} (I : St -> Prop) n i0 body (s : St) :
  I s -> (forall i s, i0 <= i < i0 + Z.of_nat n -> I s -> returns I (body i s)) ->
  returns I (for_loop n i0 body s).
Proof.
  intros H0 Hstep.
  apply (for_loop_rpred (fun _ => I) (fun _ => True) True True); done.
Qed.

Lemma offs_loop_returns {St} (I : St -> Prop) n rOffs cOffs body (s : St) :
  I s -> (forall ro co s, I s -> returns I (body ro co s)) ->
  returns I (offs_loop n rOffs cOffs body s).
Proof. intros. by apply offs_loop_rpred. Qed.

Section Decisions.

Variable callee : Table -> Z -> Z -> result Table.
Hypothesis Hcallee : forall s r c, returns (decisions s) (callee s r c).

Lemma callee_decisions t s r c :
  decisions t s -> returns (decisions t) (callee s r c).
Proof.
  intros Hd. eapply rpred_mono; [apply Hcallee | | auto..].
  intros s' Hs'. by eapply decisions_trans.
Qed.

Lemma finalizeCell_body_trace t row column :
  returns (fun t' => exists cell t1 t2,
             at2 (cells t) row column = Ok cell /\ state cell = Unknown
             /\ set_cell_state t row column Final = Ok t1
             /\ decrement_counts t1 row column (value cell) = Ok t2
             /\ decisions t2 t')
    (finalizeCell_body callee t row column).
Proof.
  unfold finalizeCell_body.
  destruct (at2 (cells t) row column) as [cell| | |] eqn:Hat; try done. simpl.
  destruct (State_eqb (state cell) Unknown) eqn:Hst; [|done].
  apply State_eqb_eq in Hst. simpl.
  destruct (set_cell_state t row column Final) as [t1| | |] eqn:H1; try done.
  rewrite bind_ret.
  destruct (decrement_counts t1 row column (value cell)) as [t2| | |] eqn:H2;
    try done.
  rewrite bind_ret.
  apply (rpred_mono (decisions t2) _ (fun _ => True) (fun _ => True) True True True True);
    [|by eauto 10|done..].
  destruct (at2 (columnCounts t2) column (value cell)) as [y| | |]; try done.
  rewrite bind_ret.
  apply (returns_bind (decisions t2)).
  { destruct (0 <? y); [|apply decisions_none].
    apply for_loop_returns; [apply decisions_none|].
    intros r s _ Hs. unfold finalizeCell_column_step.
    destruct (at2 (cells s) r column) as [n| | |]; try done. simpl.
    destruct (_ && _); [|done].
    destruct (state n); [by apply callee_decisions | done | done]. }
  intros t3 _ Hd3.
  destruct (at2 (rowCounts t3) row (value cell)) as [x| | |]; try done.
  rewrite bind_ret. destruct (0 <? x); [|done].
  apply for_loop_returns; [done|].
  intros c s _ Hs. unfold finalizeCell_row_step.
  destruct (at2 (cells s) row c) as [n| | |]; try done. simpl.
  destruct (_ && _); [|done].
  destruct (state n); [by apply callee_decisions | done | done].
Qed.

Lemma deleteCell_body_trace t row column :
  returns (fun t' => exists cell ds t1 t2,
             at2 (cells t) row column = Ok cell /\ state cell = Unknown
             /\ deleteCell_checks t row column = Ok ds
             /\ set_cell_state (set_deletedTrees t ds) row column Deleted = Ok t1
             /\ decrement_counts t1 row column (value cell) = Ok t2
             /\ decisions t2 t')
    (deleteCell_body callee t row column).
Proof.
  unfold deleteCell_body.
  destruct (at2 (cells t) row column) as [cell| | |] eqn:Hat; try done. simpl.
  destruct (State_eqb (state cell) Unknown) eqn:Hst; [|done].
  apply State_eqb_eq in Hst. simpl.
  destruct (deleteCell_checks t row column) as [ds| | |] eqn:Hds; try done.
  rewrite bind_ret. cbv beta zeta.
  destruct (set_cell_state (set_deletedTrees t ds) row column Deleted)
    as [t1| | |] eqn:H1; try done.
  rewrite bind_ret.
  destruct (decrement_counts t1 row column (value cell)) as [t2| | |] eqn:H2;
    try done.
  rewrite bind_ret.
  apply (rpred_mono (decisions t2) _ (fun _ => True) (fun _ => True) True True True True);
    [|by eauto 10|done..].
  apply offs_loop_returns; [apply decisions_none|].
  intros ro co s Hs. unfold deleteCell_force_step.
  destruct (in_grid s _ _); [|done].
  destruct (at2 (cells s) _ _) as [n| | |]; try done. simpl.
  destruct (State_eqb _ _); [by apply callee_decisions | done].
Qed.

Lemma finalizeCell_body_decisions t row column :
  returns (decisions t) (finalizeCell_body callee t row column).
Proof.
  eapply rpred_mono; [apply finalizeCell_body_trace | | done..].
  intros t' (cell & t1 & t2 & ? & ? & ? & ? & Hd).
  eapply decisions_trans; [|exact Hd]. apply decisions_one. by eapply decision_final.
Qed.

Lemma deleteCell_body_decisions t row column :
  returns (decisions t) (deleteCell_body callee t row column).
Proof.
  eapply rpred_mono; [apply deleteCell_body_trace | | done..].
  intros t' (cell & ds & t1 & t2 & ? & ? & ? & ? & ? & Hd).
  eapply decisions_trans; [|exact Hd]. apply decisions_one. by eapply decision_deleted.
Qed.

End Decisions.

Lemma cascade_decisions fuel :
  (forall t row column, returns (decisions t) (finalizeCell fuel t row column))
  /\ (forall t row column, returns (decisions t) (deleteCell fuel t row column)).
Proof.
  induction fuel as [|fuel [IHf IHd]]; [done|]. split; intros t row column; simpl.
  - by apply finalizeCell_body_decisions.
  - by apply deleteCell_body_decisions.
Qed.

Lemma set_cell_state_fields t r c st t' :
  set_cell_state t r c st = Ok t' ->
  size t' = size t /\ rowCounts t' = rowCounts t
  /\ columnCounts t' = columnCounts t
  /\ unknownCellCount t' = unknownCellCount t /\ deletedTrees t' = deletedTrees t.
Proof. intros H. apply set_cell_state_Ok in H as (? & ? & _ & _ & _ & _ & ->). done. Qed.

Lemma set_rowCount_fields t r v x t' :
  set_rowCount t r v x = Ok t' ->
  size t' = size t /\ cells t' = cells t /\ columnCounts t' = columnCounts t
  /\ unknownCellCount t' = unknownCellCount t /\ deletedTrees t' = deletedTrees t.
Proof. intros H. apply set_rowCount_Ok in H as (? & _ & _ & _ & ->). done. Qed.

Lemma set_columnCount_fields t c v x t' :
  set_columnCount t c v x = Ok t' ->
  size t' = size t /\ cells t' = cells t /\ rowCounts t' = rowCounts t
  /\ unknownCellCount t' = unknownCellCount t /\ deletedTrees t' = deletedTrees t.
Proof. intros H. apply set_columnCount_Ok in H as (? & _ & _ & _ & ->). done. Qed.

Lemma decrement_counts_fields t r c v t' :
  decrement_counts t r c v = Ok t' ->
  size t' = size t /\ cells t' = cells t /\ deletedTrees t' = deletedTrees t.
Proof.
  unfold decrement_counts. intros H.
  apply bind_Ok in H as (x & _ & H). apply bind_Ok in H as (t1 & H1 & H).
  apply bind_Ok in H as (y & _ & H). apply bind_Ok in H as (t2 & H2 & H).
  injection H as <-. simpl.
  apply set_columnCount_fields in H2 as (-> & -> & _ & _ & ->).
  apply set_rowCount_fields in H1 as (-> & -> & _ & _ & ->). done.
Qed.

Lemma finalizeUniqueCells_body_decision r c t t' :
  finalizeUniqueCells_body r c t = Ok t' -> t' = t \/ decision t t'.
Proof.
  unfold finalizeUniqueCells_body. intros H.
  apply bind_Ok in H as (cell & Hat & H).
  destruct (state cell) eqn:Hst; try (left; congruence).
  apply bind_Ok in H as (x & Hx & H).
  destruct (Z.eqb_spec x 1) as [->|]; simpl in H; [|left; congruence].
  apply bind_Ok in H as (y & Hy & H).
  destruct (Z.eqb_spec y 1) as [->|]; simpl in H; [|left; congruence].
  apply bind_Ok in H as (t1 & H1 & H). apply bind_Ok in H as (t2 & H2 & H).
  apply bind_Ok in H as (t3 & H3 & H). injection H as <-.
  right. apply (decision_final t r c cell t1); [done..|].
  destruct (set_cell_state_fields _ _ _ _ _ H1) as (_ & E1 & E1' & _).
  destruct (set_rowCount_fields _ _ _ _ _ H2) as (_ & _ & E2 & _).
  unfold decrement_counts. rewrite E1, Hx, bind_ret.
  change (u32 (1 - 1)) with 0. rewrite H2, bind_ret.
  rewrite E2, E1', Hy, bind_ret. change (u32 (1 - 1)) with 0. by rewrite H3.
Qed.

Lemma finalizeUniqueCells_decisions t :
  returns (decisions t) (finalizeUniqueCells t).
Proof.
  unfold finalizeUniqueCells.
  apply for_loop_returns; [apply decisions_none|].
  intros r s _ Hs. apply for_loop_returns; [done|].
  intros c s' _ Hs'. apply returns_intro. intros s'' H.
  apply finalizeUniqueCells_body_decision in H as [->|H]; [done|].
  by eapply decisions_step.
Qed.

Lemma solve_decisions fuel :
  forall t, returns (fun b => decisions t b /\ isSolved b = true) (solve fuel t).
Proof.
  induction fuel as [|fuel IH]; intros t; [done|].
  rewrite solve_unfold.
  apply (returns_bind (decisions t)); [apply finalizeUniqueCells_decisions|].
  intros t1 _ H1. destruct (isSolved t1) eqn:Hsol; [done|].
  destruct (getFinalizeCandidatePos t1) as [pos| | |]; try done.
  rewrite bind_ret. cbv zeta.
  assert (Ha : returns (fun b => decisions t b /\ isSolved b = true)
                 (tCopy <- finalizeCell (S fuel) t1 (fst pos) (snd pos) ;;
                  solve fuel tCopy)).
  { apply (returns_bind (decisions t)).
    - eapply rpred_mono; [apply (proj1 (cascade_decisions (S fuel))) | | auto..].
      intros s Hs. by eapply decisions_trans.
    - intros s _ Hs. eapply rpred_mono; [apply IH | | auto..].
      intros b [Hb ?]. split; [|done]. by eapply decisions_trans. }
  destruct (is_NoSolutionExists _); [|done].
  apply (returns_bind (decisions t)).
  - eapply rpred_mono; [apply (proj2 (cascade_decisions (S fuel))) | | auto..].
    intros s Hs. by eapply decisions_trans.
  - intros s _ Hs. eapply rpred_mono; [apply IH | | auto..].
    intros b [Hb ?]. split; [|done]. by eapply decisions_trans.
Qed.

Lemma set_cell_state_cell_at t r c st t1 :
  set_cell_state t r c st = Ok t1 ->
  exists cell, at2 (cells t) r c = Ok cell /\ size t1 = size t
    /\ forall r' c', cell_at t1 r' c'
         = if decide (r' = Z.to_nat r /\ c' = Z.to_nat c)
           then Some (setState cell st) else cell_at t r' c'.
Proof.
  intros H. apply set_cell_state_Ok in H as (rw & cell & Hr & Hc & Hrw & Hcell & ->).
  exists cell. split; [apply at2_Ok; by exists rw|]. split; [done|].
  intros r' c'. unfold cell_at. simpl.
  apply lookup2_insert; [done|]. by eapply lookup_lt_Some.
Qed.

(** What a decision does to the cells. *)
Lemma decision_cells t t2 :
  decision t t2 ->
  exists row column cell st,
    at2 (cells t) row column = Ok cell /\ state cell = Unknown
    /\ (st = Final \/ (st = Deleted /\ exists ds, deleteCell_checks t row column = Ok ds))
    /\ size t2 = size t
    /\ forall r' c', cell_at t2 r' c'
         = if decide (r' = Z.to_nat row /\ c' = Z.to_nat column)
           then Some (setState cell st) else cell_at t r' c'.
Proof.
  intros [row column cell t1 ? Hat Hst H1 H2 | row column cell ds t1 ? Hat Hst Hds H1 H2].
  - exists row, column, cell, Final.
    apply set_cell_state_cell_at in H1 as (cell' & Hat' & Hsz & Hcells). same_ok.
    apply decrement_counts_fields in H2 as (Hsz2 & Hc2 & _).
    split_and!; [done | done | by left | congruence |].
    intros r' c'. rewrite <- Hcells. unfold cell_at. by rewrite Hc2.
  - exists row, column, cell, Deleted.
    apply set_cell_state_cell_at in H1 as (cell' & Hat' & Hsz & Hcells).
    simpl in Hat'. same_ok.
    apply decrement_counts_fields in H2 as (Hsz2 & Hc2 & _).
    split_and!; [done | done | right; eauto | by rewrite Hsz2, Hsz |].
    intros r' c'. change (cell_at t r' c') with (cell_at (set_deletedTrees t ds) r' c').
    rewrite <- Hcells. unfold cell_at. by rewrite Hc2.
Qed.

Lemma cell_kept_refl a : cell_kept a a.
Proof. destruct a; simpl; auto. Qed.

Lemma cell_kept_trans a b c : cell_kept a b -> cell_kept b c -> cell_kept a c.
Proof.
  destruct a as [a|], b as [b|], c as [c|]; simpl; try done.
  intros [E1 H1] [E2 H2]. split; [congruence|].
  destruct H1 as [?|H1]; [by left|]. destruct H2 as [H2|H2]; [|right; congruence].
  left. congruence.
Qed.

Lemma keeps_refl t : keeps t t.
Proof. split; [done|]. intros. apply cell_kept_refl. Qed.

Lemma keeps_trans t s s' : keeps t s -> keeps s s' -> keeps t s'.
Proof.
  intros [E1 H1] [E2 H2]. split; [congruence|].
  intros r c. by eapply cell_kept_trans.
Qed.

Lemma decision_keeps t t2 : decision t t2 -> keeps t t2.
Proof.
  intros H. apply decision_cells in H
    as (row & column & cell & st & Hat & Hst & _ & Hsz & Hcells).
  split; [done|]. intros r c. rewrite Hcells.
  destruct (decide _) as [[-> ->]|_]; [|apply cell_kept_refl].
  apply at2_Ok in Hat as (rw & _ & _ & Hrw & Hcell).
  unfold cell_at. rewrite Hrw, Hcell. simpl. auto.
Qed.

Lemma decisions_keeps t t' : decisions t t' -> keeps t t'.
Proof.
  induction 1 as [|t1 t2 _ IH H]; [apply keeps_refl|].
  eapply keeps_trans; [done|]. by apply decision_keeps.
Qed.

Lemma set_deletedTrees_shape t ds : shape_ok t -> shape_ok (set_deletedTrees t ds).
Proof. intros []. by constructor. Qed.

(** A decision keeps the shape and the counts and takes one Unknown cell
    away. *)
Lemma decision_counts t t2 :
  shape_ok t -> counts_ok t -> decision t t2 ->
  shape_ok t2 /\ counts_ok t2 /\ unknowns t = S (unknowns t2)
  /\ (trees_ok t -> trees_ok t2).
Proof.
  intros Hs Hc
    [row column cell t1 ? Hat Hst H1 H2 | row column cell ds t1 ? Hat Hst Hds H1 H2].
  - destruct (at2_cells_range t _ _ _ Hs Hat) as [Hr Hcl].
    pose proof Hat as Hat'. apply at2_Ok in Hat' as (rw & _ & _ & Hrw & Hcell).
    assert (Hrd : (Z.to_nat row < dim t)%nat) by (unfold dim; lia).
    destruct (settle_run_steps t row column Final rw cell)
      as (lr & lc & t1' & Hlr & Hlc & H1' & H2'); [done | done | lia | lia | done..|].
    same_ok. same_ok.
    split; [by eapply settle_shape|]. split; [by eapply settle_counts|].
    split; [by eapply settle_unknowns|]. by eapply settle_trees.
  - destruct (at2_cells_range t _ _ _ Hs Hat) as [Hr Hcl].
    pose proof Hat as Hat'. apply at2_Ok in Hat' as (rw & _ & _ & Hrw & Hcell).
    assert (Hrd : (Z.to_nat row < dim t)%nat) by (unfold dim; lia).
    pose proof (set_deletedTrees_shape t ds Hs) as Hs'.
    set (t' := set_deletedTrees t ds) in *.
    assert (Hc' : counts_ok t') by exact Hc.
    destruct (settle_run_steps t' row column Deleted rw cell)
      as (lr & lc & t1' & Hlr & Hlc & H1' & H2'); [done | done | done | lia | done..|].
    same_ok. same_ok.
    split; [by eapply settle_shape|]. split; [by eapply settle_counts|].
    split; [by apply (settle_unknowns t')|].
    intros Ht. apply (settle_trees t'); try done.
    pose proof (deleteCell_checks_trees t row column Hs Ht Hr Hcl) as Hk.
    rewrite Hds in Hk. destruct Hk as [Hl Hf]. destruct Ht as [Hb _ _ Hu].
    by constructor.
Qed.

Lemma decisions_counts t t' :
  shape_ok t -> counts_ok t -> decisions t t' ->
  shape_ok t' /\ counts_ok t' /\ (unknowns t' <= unknowns t)%nat
  /\ (trees_ok t -> trees_ok t').
Proof.
  intros Hs Hc. induction 1 as [|t1 t2 _ (Hs1 & Hc1 & Hu1 & Ht1) H]; [by auto|].
  destruct (decision_counts t1 t2 Hs1 Hc1 H) as (? & ? & ? & ?).
  split_and!; auto. lia.
Qed.

Lemma decisions_Inv t t' : Inv t -> decisions t t' -> Inv t'.
Proof.
  intros [Hs Hc Ht] H.
  destruct (decisions_counts t t' Hs Hc H) as (? & ? & _ & ?).
  constructor; auto.
Qed.

Lemma has_state_decided t t2 row column cell st :
  size t2 = size t -> 0 <= row < size t -> 0 <= column < size t ->
  (forall r' c', cell_at t2 r' c'
     = if decide (r' = Z.to_nat row /\ c' = Z.to_nat column)
       then Some (setState cell st) else cell_at t r' c') ->
  forall st' p, has_state t2 st' p
    = if decide (p = (row, column)) then State_eqb st st' else has_state t st' p.
Proof.
  intros Hsz Hr Hc Hcells st' [a b]. unfold has_state. simpl.
  rewrite Hsz, Hcells.
  destruct (decide ((a, b) = (row, column))) as [E|Hne].
  - injection E as -> ->. rewrite decide_True by done. simpl.
    destruct (Z.leb_spec 0 row); [|lia]. destruct (Z.ltb_spec row (size t)); [|lia].
    destruct (Z.leb_spec 0 column); [|lia].
    destruct (Z.ltb_spec column (size t)); [|lia]. done.
  - destruct (Z.leb_spec 0 a); [|done]. destruct (Z.ltb_spec a (size t)); [|done].
    destruct (Z.leb_spec 0 b); [|done]. destruct (Z.ltb_spec b (size t)); [|done].
    rewrite decide_False; [done|]. intros [? ?]. apply Hne. f_equal; lia.
Qed.

Lemma checks_no_deleted_neighbor t row column ds :
  shape_ok t -> 0 <= row < size t -> 0 <= column < size t ->
  deleteCell_checks t row column = Ok ds -> has_deleted_neighbor t row column = false.
Proof.
  intros Hs Hr Hc H. unfold deleteCell_checks in H.
  rewrite neighbor_loop_spec in H by done.
  by destruct (has_deleted_neighbor t row column).
Qed.

Lemma decision_no_adjacent_deleted t t2 :
  shape_ok t -> no_adjacent_deleted t -> decision t t2 -> no_adjacent_deleted t2.
Proof.
  intros Hs Hn H. apply decision_cells in H
    as (row & column & cell & st & Hat & Hst & Hcase & Hsz & Hcells).
  destruct (at2_cells_range t _ _ _ Hs Hat) as [Hr Hc].
  pose proof (has_state_decided t t2 row column cell st Hsz Hr Hc Hcells Deleted) as E.
  assert (Hhere : has_state t Deleted (row, column) = false).
  { unfold has_state. simpl. apply at2_Ok in Hat as (rw & _ & _ & Hrw & Hcell).
    unfold cell_at. rewrite Hrw, Hcell, Hst. simpl. by rewrite !andb_false_r. }
  intros r c. unfold has_deleted_neighbor, orthogonal_neighbors. cbn [existsb].
  rewrite !E. rewrite orb_false_r.
  destruct Hcase as [-> | [-> (ds & Hds)]]; simpl.
  - intros H. assert (H' : has_state t Deleted (r, c) = true).
    { destruct (decide _) as [Heq|]; [done|done]. }
    apply Hn in H'. unfold has_deleted_neighbor, orthogonal_neighbors in H'.
    cbn [existsb] in H'. rewrite orb_false_r in H'.
    apply orb_false_iff in H' as [H1 H']. apply orb_false_iff in H' as [H2 H'].
    apply orb_false_iff in H' as [H3 H4].
    repeat destruct (decide _); rewrite ?H1, ?H2, ?H3, ?H4; done.
  - pose proof (checks_no_deleted_neighbor t row column ds Hs Hr Hc Hds) as Hnb.
    unfold has_deleted_neighbor, orthogonal_neighbors in Hnb.
    cbn [existsb] in Hnb. rewrite orb_false_r in Hnb.
    apply orb_false_iff in Hnb as [N1 Hnb]. apply orb_false_iff in Hnb as [N2 Hnb].
    apply orb_false_iff in Hnb as [N3 N4].
    destruct (decide ((r, c) = (row, column))) as [Heq|Hne].
    + injection Heq as -> ->. intros _.
      rewrite N1, N2, N3, N4.
      repeat (destruct (decide _) as [Hx|_]; [injection Hx; lia|]). done.
    + intros H. pose proof (Hn _ _ H) as H'.
      unfold has_deleted_neighbor, orthogonal_neighbors in H'.
      cbn [existsb] in H'. rewrite orb_false_r in H'.
      apply orb_false_iff in H' as [H1 H']. apply orb_false_iff in H' as [H2 H'].
      apply orb_false_iff in H' as [H3 H4].
      rewrite H1, H2, H3, H4.
      repeat (destruct (decide _) as [Hx|_];
              [injection Hx as Hx1 Hx2; exfalso|]); try done.
      * replace r with row in H by lia. replace c with (column + 1) in H by lia.
        congruence.
      * replace r with (row - 1) in H by lia. replace c with column in H by lia.
        congruence.
      * replace r with row in H by lia. replace c with (column - 1) in H by lia.
        congruence.
      * replace r with (row + 1) in H by lia. replace c with column in H by lia.
        congruence.
Qed.

Lemma decisions_no_adjacent_deleted t t' :
  shape_ok t -> counts_ok t -> no_adjacent_deleted t -> decisions t t' ->
  no_adjacent_deleted t'.
Proof.
  intros Hs Hc Hn. induction 1 as [|t1 t2 H1 IH H]; [done|].
  destruct (decisions_counts t t1 Hs Hc H1) as (Hs1 & _).
  by apply (decision_no_adjacent_deleted t1).
Qed.

Lemma fresh_no_adjacent_deleted t :
  (forall r c cell, cell_at t r c = Some cell -> state cell = Unknown) ->
  no_adjacent_deleted t.
Proof.
  intros H row column Hd. unfold has_state in Hd. simpl in Hd.
  apply andb_true_iff in Hd as [_ Hd].
  destruct (cell_at t _ _) as [cell|] eqn:Hc; [|done].
  apply H in Hc. rewrite Hc in Hd. done.
Qed.

Lemma reachable_no_adjacent t : reachable t -> no_adjacent_deleted t.
Proof.
  induction 1 as [vals t H | t t' Hr IH H | fuel t row column t' Hr IH H
                  | fuel t row column t' Hr IH H].
  - apply Table_new_spec in H as (_ & _ & H & _). by apply fresh_no_adjacent_deleted.
  - destruct (reachable_counts t Hr) as [Hs Hc].
    apply (decisions_no_adjacent_deleted t); [done..|].
    pose proof (finalizeUniqueCells_decisions t) as R. by rewrite H in R.
  - destruct (reachable_counts t Hr) as [Hs Hc].
    apply (decisions_no_adjacent_deleted t); [done..|].
    pose proof (proj1 (cascade_decisions fuel) t row column) as R. by rewrite H in R.
  - destruct (reachable_counts t Hr) as [Hs Hc].
    apply (decisions_no_adjacent_deleted t); [done..|].
    pose proof (proj2 (cascade_decisions fuel) t row column) as R. by rewrite H in R.
Qed.

Lemma solve_reachable fuel :
  forall t b, reachable t -> solve fuel t = Ok b -> reachable b.
Proof.
  induction fuel as [|fuel IH]; intros t b Hr H; [done|].
  rewrite solve_unfold in H. apply bind_Ok in H as (t1 & H1 & H).
  assert (Hr1 : reachable t1) by (by eapply reachable_finalizeUniqueCells).
  destruct (isSolved t1); [by injection H as <-|].
  apply bind_Ok in H as (pos & _ & H). cbv zeta in H.
  destruct (is_NoSolutionExists _).
  - apply bind_Ok in H as (t2 & H2 & H). apply (IH t2); [|done].
    by eapply reachable_deleteCell.
  - apply bind_Ok in H as (t2 & H2 & H). apply (IH t2); [|done].
    by eapply reachable_finalizeCell.
Qed.

Lemma unknowns_none t r c :
  shape_ok t -> unknowns t = 0%nat -> unknown_at t r c = false.
Proof.
  intros Hs Hu. destruct (unknown_at t r c) eqn:H; [|done]. exfalso.
  unfold unknown_at in H. destruct (cell_at t r c) as [cell|] eqn:Hc; [|done].
  unfold cell_at in Hc. destruct (cells t !! r) as [rw|] eqn:Hrw; [|done].
  pose proof (shape_rows t Hs _ _ Hrw) as Hlen.
  pose proof (lookup_lt_Some _ _ _ Hc) as Hlt. rewrite Hlen in Hlt.
  pose proof (lookup_lt_Some _ _ _ Hrw) as Hlt'.
  destruct (shape_cells t Hs) as [E|E]; [lia|]. rewrite E in Hlt'.
  assert (0 < unknowns t)%nat; [|lia].
  apply (sum_upto_pos _ _ r); [done|]. apply (count_upto_pos _ _ c); [done|].
  unfold unknown_at, cell_at. by rewrite Hrw, Hc.
Qed.

Lemma finalizeUniqueCells_rest t :
  shape_ok t -> (forall r c, unknown_at t r c = false) ->
  finalizeUniqueCells t = Ok t.
Proof.
  intros Hs Hu. unfold finalizeUniqueCells.
  pose proof (shape_size t Hs) as Hsz.
  apply for_loop_noop. intros r Hr. apply for_loop_noop. intros c Hc.
  destruct (shape_cell t r c Hs) as (rw & cell & Hrw & Hcell & Hat); [lia..|].
  unfold finalizeUniqueCells_body. rewrite Hat. simpl.
  specialize (Hu (Z.to_nat r) (Z.to_nat c)). unfold unknown_at, cell_at in Hu.
  rewrite Hrw, Hcell in Hu. by destruct (state cell).
Qed.

Lemma solved_at_rest t fuel :
  Inv t -> isSolved t = true -> solve (S fuel) t = Ok t.
Proof.
  intros [Hs Hc Ht] Hsol. rewrite solve_unfold.
  assert (Hu : unknowns t = 0%nat).
  { unfold isSolved in Hsol. apply Z.eqb_eq in Hsol.
    rewrite (trees_unknown t Ht) in Hsol. lia. }
  rewrite finalizeUniqueCells_rest; [|done|]. 2: { intros. by apply unknowns_none. }
  simpl. by rewrite Hsol.
Qed.

Lemma solve_Inv fuel t b :
  Inv t -> solve fuel t = Ok b ->
  Inv b /\ isSolved b = true /\ keeps t b
  /\ forall r c, unknown_at b r c = false.
Proof.
  intros HI H. pose proof (solve_decisions fuel t) as R. rewrite H in R.
  destruct R as [Hd Hsol]. pose proof (decisions_Inv t b HI Hd) as HIb.
  split_and!; [done | done | by apply decisions_keeps |].
  intros r c. apply unknowns_none; [by destruct HIb|].
  unfold isSolved in Hsol. apply Z.eqb_eq in Hsol.
  rewrite (trees_unknown b (Inv_trees b HIb)) in Hsol. lia.
Qed.

Lemma decided_cell t2 t' row column cell st :
  st <> Unknown -> 0 <= row -> 0 <= column ->
  cell_at t2 (Z.to_nat row) (Z.to_nat column) = Some (setState cell st) ->
  keeps t2 t' -> at2 (cells t') row column = Ok (setState cell st).
Proof.
  intros Hst Hr Hc Hat [_ Hk]. specialize (Hk (Z.to_nat row) (Z.to_nat column)).
  rewrite Hat in Hk. unfold cell_at in Hk.
  destruct (cells t' !! Z.to_nat row) as [rw|] eqn:Hrw; [|done].
  destruct (rw !! Z.to_nat column) as [b|] eqn:Hb; [|done].
  simpl in Hk. destruct Hk as [Hv [?|Hs]]; [done|].
  apply at2_Ok. exists rw. split_and!; [done..|].
  rewrite Hb. f_equal. destruct b. simpl in *. unfold setState. by subst.
Qed.

(** ** The scan of finalizeUniqueCells *)

Lemma finalizeUniqueCells_body_run r c s :
  shape_ok s -> counts_ok s -> 0 <= r < size s -> 0 <= c < size s ->
  exists rw cell lr lc,
    cells s !! Z.to_nat r = Some rw /\ rw !! Z.to_nat c = Some cell
    /\ rowCounts s !! Z.to_nat r = Some lr /\ columnCounts s !! Z.to_nat c = Some lc
    /\ finalizeUniqueCells_body r c s
       = Ok (if unique_unknown s (Z.to_nat r) (Z.to_nat c)
             then settle s (Z.to_nat r) (Z.to_nat c) rw cell lr lc Final
             else s).
Proof.
  intros Hs Hc Hr Hcl.
  destruct (shape_cell s r c Hs Hr Hcl) as (rw & cell & Hrw & Hcell & Hat).
  pose proof (settle_value s _ _ _ _ Hs Hrw Hcell) as Hv.
  destruct (shape_rowCount s r (value cell) Hs) as (lr & x & Hlr & Hx & Hax); [lia..|].
  destruct (shape_columnCount s c (value cell) Hs) as (lc & y & Hlc & Hy & Hay);
    [lia..|].
  exists rw, cell, lr, lc. split_and!; [done..|].
  pose proof (counts_rowCount s r (value cell) lr x Hs Hc) as Ex.
  pose proof (counts_columnCount s c (value cell) lc y Hs Hc) as Ey.
  feed Ex. feed Ey.
  unfold unique_unknown, cell_at. rewrite Hrw, Hcell.
  unfold finalizeUniqueCells_body. rewrite Hat, bind_ret.
  destruct (state cell) eqn:Hst; simpl; [|done..].
  rewrite Hax, bind_ret. subst x y.
  destruct (Nat.eqb_spec (row_unknowns s (Z.to_nat r) (value cell)) 1) as [E1|N1].
  2: { destruct (Z.eqb_spec (Z.of_nat (row_unknowns s (Z.to_nat r) (value cell))) 1);
       [lia | done]. }
  rewrite E1. simpl. rewrite Hay, bind_ret.
  destruct (Nat.eqb_spec (column_unknowns s (Z.to_nat c) (value cell)) 1) as [E2|N2].
  2: { destruct (Z.eqb_spec (Z.of_nat (column_unknowns s (Z.to_nat c) (value cell))) 1);
       [lia | done]. }
  rewrite E2. simpl.
  destruct (settle_run_steps s r c Final rw cell)
    as (lr' & lc' & t1 & Hlr' & Hlc' & H1 & H2); [done | done | lia | lia | done..|].
  simplify_eq. rewrite H1, bind_ret. rewrite <- H2.
  destruct (set_cell_state_fields _ _ _ _ _ H1) as (_ & R1 & C1 & _).
  unfold decrement_counts. rewrite R1, Hax, bind_ret. rewrite E1.
  change (u32 (Z.of_nat 1 - 1)) with 0.
  destruct (set_rowCount t1 r (value cell) 0) as [t2| | |] eqn:H3; try done.
  rewrite !bind_ret.
  destruct (set_rowCount_fields _ _ _ _ _ H3) as (_ & _ & C2 & _).
  rewrite C2, C1, Hay, bind_ret, E2. done.
Qed.

Lemma count_upto_two n p a b :
  (a < n)%nat -> (b < n)%nat -> a <> b -> p a = true -> p b = true ->
  (2 <= count_upto n p)%nat.
Proof.
  intros Ha Hb Hne Hpa Hpb.
  pose (q := fun i => if decide (i = a) then false else p i).
  assert (E : count_upto n p = S (count_upto n q)).
  { apply (count_upto_clear n p q a); [done | done | | ].
    - unfold q. by rewrite decide_True.
    - intros i _ Hi. unfold q. by rewrite decide_False. }
  assert (0 < count_upto n q)%nat; [|lia].
  apply (count_upto_pos _ _ b); [done|]. unfold q. by rewrite decide_False.
Qed.

Lemma unknown_with_cell t v r c :
  unknown_with t v r c = true <->
  exists cell, cell_at t r c = Some cell /\ value cell = v /\ state cell = Unknown.
Proof.
  unfold unknown_with. destruct (cell_at t r c) as [cell|]; [|split; [done|]].
  - rewrite andb_true_iff, Z.eqb_eq, State_eqb_eq. split.
    + intros [? ?]. by exists cell.
    + intros (? & ? & ? & ?). by simplify_eq.
  - by intros (? & ? & _).
Qed.

Lemma unique_unknown_cell t r c :
  unique_unknown t r c = true <->
  exists cell, cell_at t r c = Some cell /\ state cell = Unknown
    /\ row_unknowns t r (value cell) = 1%nat
    /\ column_unknowns t c (value cell) = 1%nat.
Proof.
  unfold unique_unknown. destruct (cell_at t r c) as [cell|]; [|split; [done|]].
  - rewrite !andb_true_iff, State_eqb_eq, !Nat.eqb_eq. split.
    + intros [[? ?] ?]. by exists cell.
    + intros (? & ? & ? & ? & ?). by simplify_eq.
  - by intros (? & ? & _).
Qed.

Section Scan.

Variables (t s : Table) (i j : Z).
Hypothesis Hs : shape_ok t.
Hypothesis Hsize : size s = size t.
Hypothesis Hscan :
  finalized_where (fun r c => scanned_before i j r c && unique_unknown t r c) t s.

(** A cell that is still Unknown in [s] shares its row and its column
    with the same Unknown cells as in [t]. *)
Lemma scan_unknown_with r c cell :
  cell_at s r c = Some cell -> state cell = Unknown ->
  (r < dim t)%nat -> (c < dim t)%nat ->
  cell_at t r c = Some cell
  /\ (forall c', (c' < dim t)%nat ->
        unknown_with s (value cell) r c' = unknown_with t (value cell) r c')
  /\ (forall r', (r' < dim t)%nat ->
        unknown_with s (value cell) r' c = unknown_with t (value cell) r' c).
Proof.
  intros Hcell Hst Hr Hc.
  assert (Ht : cell_at t r c = Some cell).
  { pose proof (Hscan r c) as E. rewrite Hcell in E.
    destruct (cell_at t r c) as [cell0|]; [|done].
    destruct (_ && _); [|done]. injection E as ->. done. }
  assert (Hu : unknown_with t (value cell) r c = true)
    by (apply unknown_with_cell; by exists cell).
  assert (Hany : forall r' c', (r' < dim t)%nat -> (c' < dim t)%nat ->
            (r' = r /\ c' <> c) \/ (c' = c /\ r' <> r) ->
            unknown_with s (value cell) r' c' = unknown_with t (value cell) r' c').
  { intros r' c' Hr' Hc' Hpos. unfold unknown_with at 1. rewrite Hscan.
    destruct (cell_at t r' c') as [cell'|] eqn:Hcell'; [|by unfold unknown_with; rewrite Hcell'].
    destruct (scanned_before i j r' c' && unique_unknown t r' c') eqn:Hb;
      [|by unfold unknown_with; rewrite Hcell'].
    apply andb_true_iff in Hb as [_ Hb].
    apply unique_unknown_cell in Hb as (cell'' & ? & Hst' & Hrow & Hcol). simplify_eq.
    simpl. rewrite andb_false_r.
    destruct (unknown_with t (value cell) r' c') eqn:Hw; [|done]. exfalso.
    pose proof Hw as Hw'. apply unknown_with_cell in Hw' as (? & ? & Hv & _).
    simplify_eq. rewrite Hv in Hrow, Hcol.
    destruct Hpos as [[-> Hne] | [-> Hne]].
    - pose proof (count_upto_two (dim t) (fun c => unknown_with t (value cell) r c)
                    c c' Hc Hc' ltac:(auto) Hu Hw) as H2.
      unfold row_unknowns in Hrow. lia.
    - pose proof (count_upto_two (dim t) (fun r => unknown_with t (value cell) r c)
                    r r' Hr Hr' ltac:(auto) Hu Hw) as H2.
      unfold column_unknowns in Hcol. lia. }
  assert (Hhere : unknown_with s (value cell) r c = true)
    by (apply unknown_with_cell; by exists cell).
  split; [done|]. split.
  - intros c' Hc'. destruct (decide (c' = c)) as [->|]; [congruence|].
    apply Hany; auto.
  - intros r' Hr'. destruct (decide (r' = r)) as [->|]; [congruence|].
    apply Hany; auto.
Qed.

Lemma scan_unique_unknown r c :
  (r < dim t)%nat -> (c < dim t)%nat -> scanned_before i j r c = false ->
  unique_unknown s r c = unique_unknown t r c.
Proof.
  intros Hr Hc Hb.
  assert (Hd : dim s = dim t) by (unfold dim; by rewrite Hsize).
  assert (E : cell_at s r c = cell_at t r c).
  { rewrite Hscan, Hb. simpl. by destruct (cell_at t r c). }
  unfold unique_unknown. rewrite E.
  destruct (cell_at t r c) as [cell|] eqn:Hcell; [|done].
  destruct (State_eqb (state cell) Unknown) eqn:Hst; [|done].
  apply State_eqb_eq in Hst.
  destruct (scan_unknown_with r c cell E Hst Hr Hc) as (_ & Hrow & Hcol).
  assert (row_unknowns s r (value cell) = row_unknowns t r (value cell)) as ->
    by (unfold row_unknowns; rewrite Hd; apply count_upto_ext; exact Hrow).
  assert (column_unknowns s c (value cell) = column_unknowns t c (value cell)) as ->
    by (unfold column_unknowns; rewrite Hd; apply count_upto_ext; exact Hcol).
  done.
Qed.

End Scan.

Lemma cell_at_in_grid t r c cell :
  shape_ok t -> cell_at t r c = Some cell -> (r < dim t)%nat /\ (c < dim t)%nat.
Proof.
  intros Hs H. unfold cell_at in H.
  destruct (cells t !! r) as [rw|] eqn:Hrw; [|done].
  pose proof (shape_rows t Hs _ _ Hrw) as Hlen.
  pose proof (lookup_lt_Some _ _ _ H) as Hlt. rewrite Hlen in Hlt.
  pose proof (lookup_lt_Some _ _ _ Hrw) as Hlt'.
  destruct (shape_cells t Hs) as [E|E]; lia.
Qed.

Lemma finalized_where_ext p q t s :
  (forall r c cell, cell_at t r c = Some cell -> p r c = q r c) ->
  finalized_where p t s -> finalized_where q t s.
Proof.
  intros H Hp r c. rewrite Hp. destruct (cell_at t r c) as [cell|] eqn:E; [|done].
  by rewrite (H r c cell E).
Qed.

Lemma finalizeUniqueCells_body_scan t s i j :
  shape_ok t -> shape_ok s -> counts_ok s -> size s = size t ->
  0 <= i < size t -> 0 <= j < size t ->
  finalized_where (fun r c => scanned_before i j r c && unique_unknown t r c) t s ->
  exists s', finalizeUniqueCells_body i j s = Ok s'
    /\ shape_ok s' /\ counts_ok s' /\ size s' = size t
    /\ finalized_where
         (fun r c => scanned_before i (j + 1) r c && unique_unknown t r c) t s'.
Proof.
  intros Ht Hs Hc Hsz Hi Hj Hscan.
  destruct (finalizeUniqueCells_body_run i j s Hs Hc) as
    (rw & cell & lr & lc & Hrw & Hcell & Hlr & Hlc & Hrun); [lia..|].
  assert (Hid : (Z.to_nat i < dim t)%nat) by (unfold dim; lia).
  assert (Hjd : (Z.to_nat j < dim t)%nat) by (unfold dim; lia).
  assert (Hd : dim s = dim t) by (unfold dim; by rewrite Hsz).
  assert (Hnot : scanned_before i j (Z.to_nat i) (Z.to_nat j) = false).
  { unfold scanned_before. rewrite !Z2Nat.id by lia.
    rewrite Z.ltb_irrefl, Z.ltb_irrefl, andb_false_r. done. }
  rewrite (scan_unique_unknown t s i j Hsz Hscan _ _ Hid Hjd Hnot) in Hrun.
  assert (Hnext : forall r c, scanned_before i (j + 1) r c
            = scanned_before i j r c
              || bool_decide (r = Z.to_nat i /\ c = Z.to_nat j)).
  { intros r c. unfold scanned_before.
    destruct (Z.ltb_spec (Z.of_nat r) i); simpl; [done|].
    destruct (Z.eqb_spec (Z.of_nat r) i); simpl.
    - destruct (Z.ltb_spec (Z.of_nat c) (j + 1)), (Z.ltb_spec (Z.of_nat c) j); simpl;
        try lia; try done.
      + symmetry. apply bool_decide_eq_true. lia.
      + symmetry. apply bool_decide_eq_false. lia.
    - symmetry. apply bool_decide_eq_false. lia. }
  assert (Hcur : cell_at t (Z.to_nat i) (Z.to_nat j) = Some cell).
  { pose proof (Hscan (Z.to_nat i) (Z.to_nat j)) as E. cbv beta in E. rewrite Hnot in E.
    simpl in E. unfold cell_at in E at 1. rewrite Hrw, Hcell in E.
    by destruct (cell_at t (Z.to_nat i) (Z.to_nat j)). }
  eexists. split; [exact Hrun|].
  destruct (unique_unknown t (Z.to_nat i) (Z.to_nat j)) eqn:Hu.
  - pose proof Hu as Hu'. apply unique_unknown_cell in Hu' as (cell' & ? & Hst & _).
    simplify_eq.
    split; [by eapply settle_shape|]. split.
    { eapply settle_counts; try done. by rewrite Hd. }
    split; [done|].
    intros r c. rewrite settle_cell_at' by done. cbv beta. rewrite Hnext.
    destruct (decide (r = Z.to_nat i /\ c = Z.to_nat j)) as [[-> ->]|Hne].
    + rewrite Hcur, Hu, bool_decide_eq_true_2 by done. by rewrite orb_true_r.
    + rewrite Hscan. cbv beta. rewrite bool_decide_eq_false_2 by done.
      by rewrite orb_false_r.
  - split; [done|]. split; [done|]. split; [done|].
    intros r c. rewrite Hscan. cbv beta. rewrite Hnext.
    destruct (cell_at t r c) as [cell'|] eqn:Hc'; [|done].
    destruct (decide (r = Z.to_nat i /\ c = Z.to_nat j)) as [[-> ->]|Hne].
    + by rewrite Hu, !andb_false_r.
    + rewrite bool_decide_eq_false_2 by done. by rewrite orb_false_r.
Qed.

(** [finalizeUniqueCells] makes Final exactly the Unknown cells that are
    alone with their value in their row and in their column. *)
Lemma finalizeUniqueCells_result t :
  shape_ok t -> counts_ok t ->
  exists t', finalizeUniqueCells t = Ok t' /\ size t' = size t
    /\ finalized_where (unique_unknown t) t t'.
Proof.
  intros Hs Hc. pose proof (shape_size t Hs) as Hsz.
  pose (I := fun i j s =>
    shape_ok s /\ counts_ok s /\ size s = size t
    /\ finalized_where (fun r c => scanned_before i j r c && unique_unknown t r c) t s).
  assert (R : rpred (I (0 + Z.of_nat (Z.to_nat (size t))) 0) (fun _ => False) False False
                (finalizeUniqueCells t)).
  { unfold finalizeUniqueCells.
    apply (for_loop_rpred (fun i => I i 0) (fun _ => False) False False).
    { unfold I. split_and!; auto. intros r c.
      destruct (cell_at t r c) as [cell|]; [|done].
      assert (scanned_before 0 0 r c = false) as ->; [|done].
      unfold scanned_before. destruct (Z.ltb_spec (Z.of_nat r) 0); [lia|].
      destruct (Z.ltb_spec (Z.of_nat c) 0); [lia|]. by rewrite andb_false_r. }
    intros i s Hi (Hs' & Hc' & Hsz' & Hscan). rewrite Hsz'.
    eapply rpred_mono;
      [apply (for_loop_rpred (fun j => I i j) (fun _ => False) False False)
      | | done..].
    - unfold I. split_and!; auto.
    - intros j s' Hj (Hs'' & Hc'' & Hsz'' & Hscan').
      destruct (finalizeUniqueCells_body_scan t s' i j) as (s'' & -> & ? & ? & ? & ?);
        [done.. | lia | lia | done |].
      simpl. unfold I. by split_and!.
    - intros s' (Hs'' & Hc'' & Hsz'' & Hscan'). unfold I. split_and!; auto.
      eapply finalized_where_ext; [|exact Hscan'].
      intros r c cell Hcell. simpl.
      destruct (cell_at_in_grid t r c cell Hs Hcell) as [_ Hcd]. unfold dim in Hcd.
      f_equal. unfold scanned_before.
      destruct (Z.ltb_spec (Z.of_nat r) i), (Z.ltb_spec (Z.of_nat r) (i + 1)),
        (Z.eqb_spec (Z.of_nat r) i), (Z.eqb_spec (Z.of_nat r) (i + 1)),
        (Z.ltb_spec (Z.of_nat c) (0 + Z.of_nat (Z.to_nat (size t)))),
        (Z.ltb_spec (Z.of_nat c) 0); simpl; try done; lia. }
  destruct (finalizeUniqueCells t) as [t'| | |]; simpl in R; try done.
  destruct R as (_ & _ & Hsz' & Hscan).
  exists t'. split; [done|]. split; [done|].
  eapply finalized_where_ext; [|exact Hscan].
  intros r c cell Hcell. simpl.
  destruct (cell_at_in_grid t r c cell Hs Hcell) as [Hrd _]. unfold dim in Hrd.
  unfold scanned_before. destruct (Z.ltb_spec (Z.of_nat r) (0 + Z.of_nat (Z.to_nat (size t))));
    [done | lia].
Qed.

Lemma no_unknown_unknowns t :
  (forall r c, unknown_at t r c = false) -> unknowns t = 0%nat.
Proof.
  intros H. unfold unknowns. rewrite (sum_upto_const _ _ 0%nat); [lia|].
  intros r _. apply count_upto_none. intros c _. apply H.
Qed.

(** ** The constructor *)

Lemma Table_new_row_cells sz :
  forall row actRow actColumn rowCells rc cc res,
    Table_new_row sz actRow actColumn row rowCells rc cc = Ok res ->
    fst (fst res) = rowCells ++ map (fun v => mkCell v Unknown) row.
Proof.
  induction row as [|v row IH]; intros actRow actColumn rowCells rc cc res H.
  - simpl in H. injection H as <-. simpl. by rewrite app_nil_r.
  - simpl in H. destruct (_ || _); [done|].
    apply bind_Ok in H as (x & _ & H). apply bind_Ok in H as (rc' & _ & H).
    apply bind_Ok in H as (y & _ & H). apply bind_Ok in H as (cc' & _ & H).
    apply IH in H. rewrite H, <- app_assoc. done.
Qed.

Lemma Table_new_rows_cells sz :
  forall rows actRow cs rc cc res,
    Table_new_rows sz actRow rows cs rc cc = Ok res ->
    fst (fst res) = cs ++ fresh_cells rows.
Proof.
  induction rows as [|row rows IH]; intros actRow cs rc cc res H.
  - simpl in H. injection H as <-. simpl. by rewrite app_nil_r.
  - simpl in H. destruct (negb _); [done|].
    apply bind_Ok in H as ([[rowCells rc1] cc1] & Hrow & H).
    apply Table_new_row_cells in Hrow. simpl in Hrow. subst rowCells.
    apply IH in H. rewrite H, <- app_assoc. done.
Qed.

Lemma counts_shape_insert sz m i j x l :
  counts_shape sz m -> m !! i = Some l ->
  counts_shape sz (<[i := <[j := x]> l]> m).
Proof.
  intros [Hlen Hrows] Hl. split; [by rewrite length_insert|].
  intros r l' H. destruct (decide (r = i)) as [->|Hne].
  - rewrite list_lookup_insert_eq in H by (by eapply lookup_lt_Some).
    injection H as <-. rewrite length_insert. by eapply Hrows.
  - rewrite list_lookup_insert_ne in H by done. by eapply Hrows.
Qed.

Lemma counts_shape_bump sz m i v :
  counts_shape sz m -> 0 <= i < sz -> 0 <= v <= sz ->
  exists x m', at2 m i v = Ok x /\ set_at2 m i v (u32 (x + 1)) = Ok m'
               /\ counts_shape sz m'.
Proof.
  intros Hm Hi Hv. pose proof Hm as [Hlen Hrows].
  destruct (lookup_lt_is_Some_2 m (Z.to_nat i)) as [l Hl]; [lia|].
  pose proof (Hrows _ _ Hl) as Hll.
  destruct (lookup_lt_is_Some_2 l (Z.to_nat v)) as [x Hx]; [lia|].
  exists x, (<[Z.to_nat i := <[Z.to_nat v := u32 (x + 1)]> l]> m).
  split; [apply at2_Ok; exists l; split_and!; (done || lia)|].
  split; [apply set_at2_Ok; exists l; split_and!; (done || lia)|].
  by apply counts_shape_insert.
Qed.

Lemma Table_new_row_run sz k :
  0 <= sz -> sz + 1 < 2 ^ 32 -> 0 <= k < sz ->
  forall row j rowCells rc cc,
    counts_shape sz rc -> counts_shape sz cc ->
    0 <= j -> j + Z.of_nat (length row) <= sz ->
    Forall (fun v => 0 <= v) row ->
    rpred (fun res => Forall (fun v => 1 <= v <= sz) row
                      /\ counts_shape sz (snd (fst res)) /\ counts_shape sz (snd res))
      (fun e => e = InvalidValueException /\ Exists (fun v => v = 0 \/ sz < v) row)
      False False
      (Table_new_row sz k j row rowCells rc cc).
Proof.
  intros Hsz Hb Hk. induction row as [|v row IH];
    intros j rowCells rc cc Hrc Hcc Hj Hlen Hpos.
  - simpl. by split_and!.
  - simpl in Hlen. apply Forall_cons in Hpos as [Hv Hpos]. simpl.
    destruct (Z.eqb_spec v 0) as [->|Hv0]; simpl.
    { split; [done|]. apply Exists_cons_hd. by left. }
    destruct (Z.ltb_spec sz v); simpl.
    { split; [done|]. apply Exists_cons_hd. by right. }
    destruct (counts_shape_bump sz rc k v Hrc) as (x & rc' & -> & Hrc1 & Hrc');
      [lia..|].
    rewrite bind_ret, Hrc1, bind_ret.
    destruct (counts_shape_bump sz cc j v Hcc) as (y & cc' & -> & Hcc1 & Hcc');
      [lia..|].
    rewrite bind_ret, Hcc1, bind_ret. rewrite u32_small by lia.
    eapply rpred_mono; [apply IH; (done || lia) | | | done..].
    + intros res (? & ? & ?). split_and!; [|done..].
      apply Forall_cons. split; [lia | done].
    + intros e [-> ?]. split; [done|]. by apply Exists_cons_tl.
Qed.

Lemma Table_new_rows_run sz :
  0 <= sz -> sz + 1 < 2 ^ 32 ->
  forall rows k cs rc cc,
    counts_shape sz rc -> counts_shape sz cc ->
    0 <= k -> k + Z.of_nat (length rows) <= sz ->
    Forall (Forall (fun v => 0 <= v)) rows ->
    rpred (fun _ => well_formed sz rows) (rejected sz rows) False False
      (Table_new_rows sz k rows cs rc cc).
Proof.
  intros Hsz Hb. induction rows as [|row rows IH];
    intros k cs rc cc Hrc Hcc Hk Hlen Hpos.
  - simpl. constructor.
  - simpl in Hlen. apply Forall_cons in Hpos as [Hrow Hpos]. simpl.
    destruct (Z.eqb_spec (Z.of_nat (length row)) sz) as [Hl|Hl]; simpl.
    2: { left. split; [done|]. by apply Exists_cons_hd. }
    pose proof (Table_new_row_run sz k Hsz Hb ltac:(lia) row 0 [] rc cc Hrc Hcc
                  ltac:(lia) ltac:(lia) Hrow) as R.
    destruct (Table_new_row sz k 0 row [] rc cc) as [[[rowCells rc1] cc1]| e | |];
      simpl in R; try done.
    + destruct R as (Hvals & Hrc1 & Hcc1). rewrite bind_ret.
      rewrite u32_small by lia.
      eapply rpred_mono; [apply IH; (done || lia) | | | done..].
      * intros ? Hwf. by apply Forall_cons.
      * intros e [[-> ?] | [-> ?]]; [left | right]; (split; [done|]);
          by apply Exists_cons_tl.
    + destruct R as [-> R]. right. split; [done|]. by apply Exists_cons_hd.
Qed.

Lemma counts_shape_init sz :
  0 <= sz -> sz + 1 < 2 ^ 32 ->
  counts_shape sz (replicate (Z.to_nat sz) (replicate (Z.to_nat (u32 (sz + 1))) 0)).
Proof.
  intros Hsz Hb. split; [apply length_replicate|].
  intros r l H. apply lookup_replicate in H as [-> _].
  rewrite length_replicate, u32_small by lia. lia.
Qed.

(** The outcome of the constructor on a matrix of unsigned values. *)
Lemma Table_new_run initValues :
  Z.of_nat (length initValues) + 1 < 2 ^ 32 ->
  Forall (Forall (fun v => 0 <= v)) initValues ->
  rpred (fun t => well_formed (Z.of_nat (length initValues)) initValues
                  /\ size t = Z.of_nat (length initValues)
                  /\ cells t = fresh_cells initValues)
    (rejected (Z.of_nat (length initValues)) initValues) False False
    (Table_new initValues).
Proof.
  intros Hb Hpos. unfold Table_new.
  rewrite (u32_small (Z.of_nat (length initValues))) by lia.
  set (sz := Z.of_nat (length initValues)) in *.
  pose proof (counts_shape_init sz ltac:(lia) Hb) as Hc.
  pose proof (Table_new_rows_run sz ltac:(lia) Hb initValues 0 [] _ _ Hc Hc
                ltac:(lia) ltac:(lia) Hpos) as R.
  destruct (Table_new_rows sz 0 initValues [] _ _) as [[[cs rc] cc]| e | |] eqn:E;
    simpl in R; try done.
  rewrite bind_ret. simpl. split; [done|]. split; [done|].
  apply Table_new_rows_cells in E. done.
Qed.

Lemma count_upto_filter {X} (p : X -> bool) (l : list X) :
  count_upto (length l) (fun i => match l !! i with Some x => p x | None => false end)
  = length (List.filter p l).
Proof.
  induction l as [|x l IH] using rev_ind; [done|].
  rewrite length_app. simpl. rewrite Nat.add_1_r. simpl.
  rewrite list_lookup_middle by done. rewrite List.filter_app, length_app. simpl.
  rewrite <- IH.
  rewrite (count_upto_ext (length l)
             (fun i => match (l ++ [x]) !! i with Some x => p x | None => false end)
             (fun i => match l !! i with Some x => p x | None => false end)).
  - destruct (p x); simpl; lia.
  - intros i Hi. by rewrite lookup_app_l.
Qed.

Lemma fresh_cell_at t initValues r c :
  cells t = fresh_cells initValues ->
  cell_at t r c
  = match initValues !! r with
    | Some row => match row !! c with
                  | Some v => Some (mkCell v Unknown)
                  | None => None
                  end
    | None => None
    end.
Proof.
  intros E. unfold cell_at. rewrite E. unfold fresh_cells.
  rewrite list_lookup_fmap. destruct (initValues !! r) as [row|]; [|done]. simpl.
  rewrite list_lookup_fmap. by destruct (row !! c).
Qed.

Lemma fresh_counts t initValues :
  shape_ok t -> counts_ok t ->
  size t = Z.of_nat (length initValues) -> cells t = fresh_cells initValues ->
  forall v, 0 <= v <= size t ->
    (forall r row, initValues !! r = Some row ->
       at2 (rowCounts t) (Z.of_nat r) v = Ok (Z.of_nat (occurrences v row)))
    /\ (forall c, (c < length initValues)%nat ->
          at2 (columnCounts t) (Z.of_nat c) v
          = Ok (Z.of_nat (column_occurrences v c initValues))).
Proof.
  intros Hs Hc Hsz Hcells v Hv.
  assert (Hd : dim t = length initValues) by (unfold dim; lia).
  split.
  - intros r row Hrow. pose proof (lookup_lt_Some _ _ _ Hrow) as Hr.
    destruct (shape_rowCount t (Z.of_nat r) v Hs) as (l & x & Hl & Hx & ->); [lia..|].
    f_equal. rewrite (counts_rowCount t (Z.of_nat r) v l x Hs Hc) by (done || lia).
    f_equal. rewrite Nat2Z.id. unfold row_unknowns, occurrences.
    assert (Hlen : length row = dim t).
    { rewrite <- (shape_rows t Hs r (map (fun v => mkCell v Unknown) row)).
      - by rewrite length_map.
      - rewrite Hcells. unfold fresh_cells. by rewrite list_lookup_fmap, Hrow. }
    rewrite <- Hlen, <- count_upto_filter. apply count_upto_ext. intros c _.
    unfold unknown_with. rewrite (fresh_cell_at t initValues) by done. rewrite Hrow.
    destruct (row !! c); simpl; [|done]. rewrite andb_true_r. apply Z.eqb_sym.
  - intros c Hcl.
    destruct (shape_columnCount t (Z.of_nat c) v Hs) as (l & x & Hl & Hx & ->); [lia..|].
    f_equal. rewrite (counts_columnCount t (Z.of_nat c) v l x Hs Hc) by (done || lia).
    f_equal. rewrite Nat2Z.id. unfold column_unknowns, column_occurrences.
    rewrite Hd, <- count_upto_filter. apply count_upto_ext. intros r _.
    unfold unknown_with. rewrite (fresh_cell_at t initValues) by done.
    destruct (initValues !! r) as [row|]; [|done].
    destruct (row !! c); simpl; [|done]. rewrite andb_true_r. apply Z.eqb_sym.
Qed.

Lemma Table_new_cells initValues t :
  Table_new initValues = Ok t ->
  size t = u32 (Z.of_nat (length initValues)) /\ cells t = fresh_cells initValues.
Proof.
  unfold Table_new. intros H. apply bind_Ok in H as ([[cs rc] cc] & Hrows & H).
  injection H as <-. simpl. split; [done|].
  by apply Table_new_rows_cells in Hrows.
Qed.

Lemma rejected_not_well_formed n initValues e :
  rejected n initValues e -> ~ well_formed n initValues.
Proof.
  unfold well_formed. intros [[_ H] | [_ H]] Hwf.
  - apply Exists_exists in H as (row & Hin & Hne).
    rewrite Forall_forall in Hwf. by destruct (Hwf row Hin).
  - apply Exists_exists in H as (row & Hin & H).
    apply Exists_exists in H as (v & Hv & Hbad).
    rewrite Forall_forall in Hwf. destruct (Hwf row Hin) as [_ Hvals].
    rewrite Forall_forall in Hvals. specialize (Hvals v Hv). lia.
Qed.

(** ** The scan for the candidate *)

Lemma first_max_unique {X} (f : X -> Z) (l1 l2 l1' l2' : list X) x x' :
  l1 ++ x :: l2 = l1' ++ x' :: l2' ->
  (forall y, In y l1 -> f y < f x) -> (forall y, In y l2 -> f y <= f x) ->
  (forall y, In y l1' -> f y < f x') -> (forall y, In y l2' -> f y <= f x') ->
  x = x'.
Proof.
  revert l1'. induction l1 as [|a l1 IH]; intros [|a' l1'] E H1 H2 H1' H2'; simpl in E.
  - by injection E.
  - injection E as <- ->.
    pose proof (H1' x ltac:(by left)). pose proof (H2 x' ltac:(apply in_elt)). lia.
  - injection E as -> <-.
    pose proof (H1 x' ltac:(by left)). pose proof (H2' x ltac:(apply in_elt)). lia.
  - injection E as -> E. apply (IH l1'); auto.
    + intros y Hy. apply H1. by right.
    + intros y Hy. apply H1'. by right.
Qed.

Lemma score_range t x : 0 <= score t x < 2 ^ 32.
Proof.
  unfold score. destruct x as [[r c] v].
  destruct (count_in _ r v); [|lia]. destruct (count_in _ c v); [|lia].
  apply u32_range.
Qed.

(** ** Printing *)

Lemma digits_run fuel :
  forall n d, 0 <= n -> (Z.to_nat n < fuel)%nat ->
    exists k, count_digits fuel n d = Ok (d + k)
      /\ Z.of_nat (length (decimal_digits fuel n)) = k
      /\ 1 <= k /\ n < 10 ^ k /\ (1 < k -> 10 ^ (k - 1) <= n).
Proof.
  induction fuel as [|fuel IH]; intros n d Hn Hf; [lia|]. simpl.
  rewrite length_app. simpl.
  destruct (Z.ltb_spec 0 (n / 10)) as [Hq|Hq].
  - assert (10 <= n).
    { destruct (Z.lt_ge_cases n 10) as [Hlt|]; [|done].
      rewrite Z.div_small in Hq by lia. lia. }
    destruct (Z.ltb_spec n 10); [lia|].
    assert (n / 10 < n) by (apply Z.div_lt; lia).
    destruct (IH (n / 10) (d + 1)) as (k & -> & Hlen & Hk & Hlt & Hge); [lia | lia|].
    exists (k + 1). split; [f_equal; lia|]. split; [lia|]. split; [lia|].
    pose proof (Z.div_mod n 10 ltac:(lia)) as E.
    pose proof (Z.mod_pos_bound n 10 ltac:(lia)) as B.
    rewrite Z.pow_add_r by lia. change (10 ^ 1) with 10. split; [lia|].
    intros _. replace (k + 1 - 1) with k by lia.
    destruct (decide (k = 1)) as [->|]; [change (10 ^ 1) with 10; lia|].
    specialize (Hge ltac:(lia)).
    replace k with ((k - 1) + 1) by lia. rewrite Z.pow_add_r by lia.
    change (10 ^ 1) with 10. lia.
  - assert (n < 10).
    { destruct (Z.lt_ge_cases n 10) as [|Hge]; [done|].
      pose proof (Z.div_le_mono 10 n 10 ltac:(lia) Hge) as H.
      change (10 / 10) with 1 in H. lia. }
    destruct (Z.ltb_spec n 10); [|lia]. simpl.
    exists 1. split; [done|]. split; [done|]. split; [lia|].
    change (10 ^ 1) with 10. split; lia.
Qed.

Lemma decimal_length v n k :
  0 <= v <= n -> count_digits (S (Z.to_nat n)) n 0 = Ok k ->
  Z.of_nat (length (decimal v)) <= k.
Proof.
  intros Hv Hk.
  destruct (digits_run (S (Z.to_nat n)) n 0) as (kn & E & _ & Hkn & Hlt & _); [lia..|].
  rewrite Hk in E. injection E as ->.
  destruct (digits_run (S (Z.to_nat v)) v 0) as (kv & _ & Hlen & Hkv & _ & Hge);
    [lia..|].
  unfold decimal. rewrite Hlen.
  destruct (decide (kv = 1)) as [->|]; [lia|]. specialize (Hge ltac:(lia)).
  destruct (Z.le_gt_cases kv (0 + kn)) as [|Hgt]; [done|]. exfalso.
  assert (10 ^ kn <= 10 ^ (kv - 1)) by (apply Z.pow_le_mono_r; lia). lia.
Qed.

Lemma setw_length w s :
  Z.of_nat (length s) <= w -> Z.of_nat (length (setw w s)) = w.
Proof. intros H. unfold setw. rewrite length_app, length_replicate. lia. Qed.

Lemma flat_map_length_const {X Y} (f : X -> list Y) (l : list X) k :
  (forall x, In x l -> length (f x) = k) ->
  length (flat_map f l) = (length l * k)%nat.
Proof.
  induction l as [|x l IH]; intros H; [done|]. simpl.
  rewrite length_app, H, IH; [done | | by left].
  intros y Hy. apply H. by right.
Qed.

Lemma shape_values_in t row cell :
  shape_ok t -> In row (cells t) -> In cell row -> 1 <= value cell <= size t.
Proof.
  intros Hs Hrow Hcell.
  apply list_elem_of_In, list_elem_of_lookup in Hrow as [r Hr].
  apply list_elem_of_In, list_elem_of_lookup in Hcell as [c Hc].
  apply (shape_values t Hs r c). unfold cell_at. by rewrite Hr.
Qed.

(** ** The forest after the topology checks; the exceptions of solve *)

Lemma unionSets_joins len ds d cellSet ds' :
  forest_kept len ds -> 0 <= d < Z.of_nat len -> 0 <= cellSet < Z.of_nat len ->
  unionSets ds d cellSet = Ok ds' ->
  same_set (parents ds') d cellSet
  /\ forall a b, same_set (parents ds) a b -> same_set (parents ds') a b.
Proof.
  intros [Hlen Hf] Hd Hc H.
  destruct (unionSets_same_set ds d cellSet Hf) as (ds'' & H' & _ & _ & Hiff);
    [lia | lia |].
  rewrite H in H'. injection H' as <-.
  destruct (findSet_spec ds d Hf) as (rd & _ & _ & Hrd & _); [lia|].
  destruct (findSet_spec ds cellSet Hf) as (rc & _ & _ & Hrc & _); [lia|].
  split.
  - apply Hiff. right. left. split; [by exists rd | by exists rc].
  - intros a b Hab. apply Hiff. by left.
Qed.

Lemma unite_all_joins len cellSet :
  0 <= cellSet < Z.of_nat len ->
  forall l ds ds',
    (forall d, In d l -> 0 <= d < Z.of_nat len) ->
    forest_kept len ds -> unite_all cellSet l ds = Ok ds' ->
    forest_kept len ds'
    /\ (forall a b, same_set (parents ds) a b -> same_set (parents ds') a b)
    /\ forall d, In d l -> same_set (parents ds') d cellSet.
Proof.
  intros Hc. induction l as [|d l IH]; intros ds ds' Hl Hk H.
  - simpl in H. injection H as <-. split; [done|]. split; [done|]. by intros d [].
  - simpl in H. apply bind_Ok in H as (ds1 & H1 & H).
    destruct (unite_or_cycle_spec len cellSet ds d Hk Hc (Hl d ltac:(by left)))
      as [[E _] | (ds1' & E & Hu & Hk1 & _)]; [congruence|].
    rewrite E in H1. injection H1 as ->.
    destruct (unionSets_joins len ds d cellSet ds1 Hk (Hl d ltac:(by left)) Hc Hu)
      as [Hj Hmono].
    destruct (IH ds1 ds' ltac:(intros; apply Hl; by right) Hk1 H)
      as (Hk' & Hmono' & Hin).
    split; [done|]. split; [by auto|].
    intros d' [<- | Hd']; [by apply Hmono' | by apply Hin].
Qed.

Lemma solve_safe fuel :
  forall t, Inv t -> (unknowns t < fuel)%nat ->
            rpred (fun _ => True) is_contradiction False False (solve fuel t).
Proof.
  induction fuel as [|fuel IH]; intros t Hinv Hlt; [lia|].
  rewrite solve_unfold.
  destruct (solve_branch_point t Hinv) as (t1 & -> & Hinv1 & Hsz1 & Hu1 & Hcand).
  rewrite bind_ret. destruct (isSolved t1) eqn:Hsolved; [done|].
  destruct (Hcand eq_refl) as (row & column & -> & Hr & Hc & Hunk).
  rewrite bind_ret. cbn [fst snd]. cbv zeta.
  apply Inv_board_ok in Hinv1.
  pose proof (cascade_spec True False not_True_False (S fuel)) as [Rf Rd].
  assert (Hnext : forall t', decided True t1 t' ->
            rpred (fun _ => True) is_contradiction False False (solve fuel t')).
  { intros t' (Hok & _ & Hu'). apply IH; [by apply Inv_board_ok | lia]. }
  assert (Hexn : forall e, cascade_exn True e -> is_contradiction e).
  { intros e [_ He]. by apply He. }
  assert (Hatt : rpred (fun _ => True) is_contradiction False False
            (tCopy <- finalizeCell (S fuel) t1 row column ;; solve fuel tCopy)).
  { eapply (rpred_bind (decided True t1)); [|done].
    eapply rpred_mono; [apply Rf; auto; right; lia | auto..]. }
  assert (Hfall : rpred (fun _ => True) is_contradiction False False
            (t' <- deleteCell (S fuel) t1 row column ;; solve fuel t')).
  { eapply (rpred_bind (decided True t1)); [|done].
    eapply rpred_mono; [apply Rd; auto; right; lia | auto..]. }
  by destruct (is_NoSolutionExists _).
Qed.

(** ** The worked boards of the further properties *)

Lemma chain_forest_ok : forest_ok (parents chain_forest).
Proof.
  exists (fun i => i). intros i x H Hx.
  destruct i as [|[|[|i]]]; simpl in H; simplify_eq; simpl; lia.
Qed.

Lemma board_latin_new : Table_new puzzle_latin = Ok board_latin.
Proof. reflexivity. Qed.

Lemma board_latin_Inv : Inv board_latin.
Proof. apply (Table_new_Inv puzzle_latin); [reflexivity | vm_compute; reflexivity]. Qed.

Lemma board_latin_unique r c cell :
  cell_at board_latin r c = Some cell -> unique_unknown board_latin r c = true.
Proof.
  destruct r as [|[|r]], c as [|[|c]]; try done; intros _; reflexivity.
Qed.

(** * Further properties of the code *)

(** ** DisjointSets *)

(** X1.  On a well-formed forest, [findSet] of an element in range
    returns the root of the element's tree; path compression keeps the
    length of the vector, keeps the forest well-formed, moves no element
    to another tree, and leaves the element pointing at the root. *)
Theorem findSet_representative (ds : DisjointSets) (e : Z) :
  forest_ok (parents ds) -> 0 <= e < Z.of_nat (length (parents ds)) ->
  exists root ds',
    findSet ds e = Ok (root, ds')
    /\ root_of (parents ds) e root
    /\ length (parents ds') = length (parents ds)
    /\ forest_ok (parents ds')
    /\ (forall y r, root_of (parents ds) y r <-> root_of (parents ds') y r)
    /\ (e <> root -> at_ (parents ds') e = Ok root).
Proof.
  intros Hf He.
  destruct (findSet_spec ds e Hf He) as (root & ds' & H & Hr & Hl & Hf' & _ & Hroots).
  exists root, ds'. split_and!; try done.
  intros Hne. by apply (findSet_points_to_root ds).
Qed.

Lemma findSet_representative_witness :
  forest_ok (parents chain_forest)
  /\ exists root ds', findSet chain_forest 0 = Ok (root, ds')
       /\ root_of (parents chain_forest) 0 root.
Proof.
  split; [exact chain_forest_ok|].
  destruct (findSet_representative chain_forest 0 chain_forest_ok)
    as (root & ds' & H1 & H2 & _); [simpl; lia|].
  by exists root, ds'.
Defined.

(** X2.  [findSet] is at rest after one call: asked again for the same
    element, or for the root it returned, it returns the same root and
    leaves the structure as it is. *)
Theorem findSet_again ds e root ds' :
  forest_ok (parents ds) -> 0 <= e < Z.of_nat (length (parents ds)) ->
  findSet ds e = Ok (root, ds') ->
  findSet ds' e = Ok (root, ds') /\ findSet ds' root = Ok (root, ds').
Proof.
  intros Hf He H.
  destruct (findSet_spec ds e Hf He) as (r & ds1 & E & Hr & Hlen & Hf1 & Hneg & Hroots).
  rewrite E in H. simplify_eq.
  pose proof Hr as Hr'. apply Hroots in Hr'.
  destruct (root_of_is_root _ _ _ Hr') as (x & Hx & Hn).
  split; [|by apply (findSet_of_root _ _ x)].
  destruct (decide (e = root)) as [->|Hne]; [by apply (findSet_of_root _ _ x)|].
  apply (findSet_at_rest _ _ _ x); [|done..].
  by apply (findSet_points_to_root ds).
Qed.

Lemma findSet_again_witness :
  findSet chain_forest 0 = Ok (2, mkDisjointSets [2; 2; -1])
  /\ findSet (mkDisjointSets [2; 2; -1]) 0 = Ok (2, mkDisjointSets [2; 2; -1]).
Proof.
  assert (H : findSet chain_forest 0 = Ok (2, mkDisjointSets [2; 2; -1]))
    by reflexivity.
  split; [exact H|].
  apply (findSet_again chain_forest 0 2 _ chain_forest_ok); [simpl; lia | exact H].
Defined.

(** X3.  On a well-formed forest, [unionSets] of two elements in range
    succeeds and merges their two sets and nothing else: afterwards two
    elements are in the same set exactly when they were before, or when
    one was with the first argument and the other with the second. *)
Theorem unionSets_merges (ds : DisjointSets) (e1 e2 : Z) :
  forest_ok (parents ds) ->
  0 <= e1 < Z.of_nat (length (parents ds)) ->
  0 <= e2 < Z.of_nat (length (parents ds)) ->
  exists ds', unionSets ds e1 e2 = Ok ds'
    /\ length (parents ds') = length (parents ds)
    /\ forest_ok (parents ds')
    /\ forall a b, same_set (parents ds') a b
         <-> same_set (parents ds) a b
             \/ (same_set (parents ds) a e1 /\ same_set (parents ds) b e2)
             \/ (same_set (parents ds) a e2 /\ same_set (parents ds) b e1).
Proof. exact (unionSets_same_set ds e1 e2). Qed.

Lemma unionSets_merges_witness :
  forest_ok (parents (DisjointSets_new 3))
  /\ exists ds', unionSets (DisjointSets_new 3) 0 1 = Ok ds'
       /\ length (parents ds') = length (parents (DisjointSets_new 3)).
Proof.
  split; [exact (forest_ok_roots 3)|].
  destruct (unionSets_merges (DisjointSets_new 3) 0 1 (forest_ok_roots 3))
    as (ds' & H & Hl & _); [simpl; lia | simpl; lia |].
  by exists ds'.
Defined.

(** X4.  An element below 0 or not below the number of elements is
    refused with range_error "element index is out of range" by
    [findSet], by [unionSets] (as its first argument) and by [linkSets]
    (as either argument), whatever the structure holds. *)
Theorem DisjointSets_range_errors (ds : DisjointSets) (e e' : Z) :
  ~ (0 <= e < Z.of_nat (length (parents ds))) ->
  findSet ds e = Throw out_of_range
  /\ unionSets ds e e' = Throw out_of_range
  /\ linkSets ds e e' = Throw out_of_range
  /\ (0 <= e' < Z.of_nat (length (parents ds)) ->
      linkSets ds e' e = Throw out_of_range).
Proof.
  intros He. pose proof (assertElementRange_out ds e He) as Ha.
  assert (Hf : findSet ds e = Throw out_of_range)
    by (unfold findSet; by rewrite Ha).
  split; [done|]. split; [unfold unionSets; by rewrite Hf|].
  split; [unfold linkSets; by rewrite Ha|].
  intros He'. unfold linkSets. by rewrite (assertElementRange_in ds e' He'), Ha.
Qed.

Lemma DisjointSets_range_errors_witness :
  ~ (0 <= 3 < Z.of_nat (length (parents (DisjointSets_new 3))))
  /\ findSet (DisjointSets_new 3) 3 = Throw out_of_range.
Proof.
  assert (H : ~ (0 <= 3 < Z.of_nat (length (parents (DisjointSets_new 3)))))
    by (simpl; lia).
  split; [exact H|]. exact (proj1 (DisjointSets_range_errors _ 3 0 H)).
Defined.

(** X5.  [linkSets] refuses two elements in range of which one is not a
    root (its entry is not negative) with logic_error "at least one
    element is not root"; linking a root with itself changes nothing. *)
Theorem linkSets_needs_roots (ds : DisjointSets) (set1 set2 x1 x2 : Z) :
  at_ (parents ds) set1 = Ok x1 -> at_ (parents ds) set2 = Ok x2 ->
  (0 <= x1 \/ 0 <= x2 -> linkSets ds set1 set2 = Throw not_root)
  /\ (x1 < 0 -> linkSets ds set1 set1 = Ok ds).
Proof.
  intros H1 H2.
  pose proof (at_range _ _ _ H1) as R1. pose proof (at_range _ _ _ H2) as R2.
  split.
  - intros Hx. unfold linkSets. rewrite !assertElementRange_in by done.
    rewrite !bind_ret, H1, bind_ret.
    destruct (Z.leb_spec 0 x1); [done|]. rewrite H2, bind_ret.
    destruct (Z.leb_spec 0 x2); [done | lia].
  - intros Hx. unfold linkSets. rewrite !assertElementRange_in by done.
    rewrite !bind_ret, H1, !bind_ret.
    destruct (Z.leb_spec 0 x1); [lia|]. by rewrite Z.eqb_refl.
Qed.

Lemma linkSets_needs_roots_witness :
  at_ (parents chain_forest) 0 = Ok 1 /\ at_ (parents chain_forest) 2 = Ok (-1)
  /\ linkSets chain_forest 0 2 = Throw not_root.
Proof.
  assert (H1 : at_ (parents chain_forest) 0 = Ok 1) by reflexivity.
  assert (H2 : at_ (parents chain_forest) 2 = Ok (-1)) by reflexivity.
  split; [exact H1|]. split; [exact H2|].
  apply (proj1 (linkSets_needs_roots chain_forest 0 2 1 (-1) H1 H2)). left. lia.
Defined.

(** X6.  In a structure just built with [size] elements every element
    is alone in its set: [findSet] returns the element itself and leaves
    the structure as it is, and two elements are in the same set only
    when they are equal. *)
Theorem DisjointSets_new_singletons (size e : Z) :
  0 <= e < size ->
  findSet (DisjointSets_new size) e = Ok (e, DisjointSets_new size)
  /\ forall a b, same_set (parents (DisjointSets_new size)) a b
                 <-> a = b /\ 0 <= a < size.
Proof.
  intros He. split.
  - apply (findSet_of_root _ _ (-1)); [|lia]. simpl. apply at_replicate. lia.
  - intros a b. unfold same_set. simpl. split.
    + intros (r & Ha & Hb). apply root_of_new in Ha as [-> Ha].
      apply root_of_new in Hb as [-> Hb]. split; [done | lia].
    + intros [-> Ha]. exists b. split; apply root_of_new; (split; [done | lia]).
Qed.

Lemma DisjointSets_new_singletons_witness :
  findSet (DisjointSets_new 3) 1 = Ok (1, DisjointSets_new 3).
Proof.
  apply (proj1 (DisjointSets_new_singletons 3 1 ltac:(lia))).
Defined.

(** ** The constructor of Table *)

(** X7.  On a matrix of unsigned values with fewer than 2^32 - 1 rows
    the constructor either returns a board or raises one of its two
    exceptions.  It returns a board exactly when the matrix is square
    with all values in 1..N; the board then has side N and holds the
    values of the matrix, all cells Unknown.  It raises
    InvalidShapeException only if some row has not N values and
    InvalidValueException only if some value is 0 or above N. *)
Theorem Table_new_outcome (initValues : list (list Z)) :
  Z.of_nat (length initValues) + 1 < 2 ^ 32 ->
  Forall (Forall (fun v => 0 <= v)) initValues ->
  rpred (fun t => well_formed (Z.of_nat (length initValues)) initValues
                  /\ size t = Z.of_nat (length initValues)
                  /\ cells t = fresh_cells initValues)
    (rejected (Z.of_nat (length initValues)) initValues) False False
    (Table_new initValues)
  /\ (well_formed (Z.of_nat (length initValues)) initValues ->
      exists t, Table_new initValues = Ok t).
Proof.
  intros Hb Hpos. pose proof (Table_new_run initValues Hb Hpos) as R.
  split; [exact R|]. intros Hwf.
  destruct (Table_new initValues) as [t|e| |]; simpl in R; try done; [by exists t|].
  by apply rejected_not_well_formed in R.
Qed.

Lemma Table_new_outcome_witness :
  well_formed 2 puzzle_2x2 /\ exists t, Table_new puzzle_2x2 = Ok t.
Proof.
  assert (Hwf : well_formed 2 puzzle_2x2).
  { repeat constructor; lia. }
  split; [exact Hwf|].
  apply (proj2 (Table_new_outcome puzzle_2x2 ltac:(simpl; lia)
                  ltac:(repeat constructor; lia))).
  exact Hwf.
Defined.

(** X8.  The counts of a board just built are the numbers of occurrences
    in the matrix: [rowCounts[r][v]] is the number of times [v] occurs
    in row [r] and [columnCounts[c][v]] the number of times it occurs in
    column [c]. *)
Theorem Table_new_counts (initValues : list (list Z)) (t : Table) (v : Z) :
  Z.of_nat (length initValues) < 2 ^ 32 ->
  Table_new initValues = Ok t -> 0 <= v <= size t ->
  (forall r row, initValues !! r = Some row ->
     at2 (rowCounts t) (Z.of_nat r) v = Ok (Z.of_nat (occurrences v row)))
  /\ (forall c, (c < length initValues)%nat ->
        at2 (columnCounts t) (Z.of_nat c) v
        = Ok (Z.of_nat (column_occurrences v c initValues))).
Proof.
  intros Hb H Hv.
  destruct (Table_new_spec initValues t H) as (Hs & Hc & _).
  destruct (Table_new_cells initValues t H) as [Hsz Hcells].
  rewrite u32_small in Hsz by lia.
  by apply fresh_counts.
Qed.

Lemma Table_new_counts_witness :
  Table_new puzzle_3x3 = Ok board_3x3
  /\ at2 (rowCounts board_3x3) 0 1 = Ok 2
  /\ at2 (columnCounts board_3x3) 2 1 = Ok 1.
Proof.
  split; [exact board_3x3_new|].
  destruct (Table_new_counts puzzle_3x3 board_3x3 1 ltac:(simpl; lia) board_3x3_new
              ltac:(simpl; lia)) as [Hr Hc].
  split.
  - exact (Hr 0%nat [1; 1; 2] eq_refl).
  - exact (Hc 2%nat ltac:(simpl; lia)).
Defined.

(** ** finalizeUniqueCells *)

(** X9.  On a board with the shape and the counts of the invariant,
    [finalizeUniqueCells] returns the board in which exactly the cells
    that were Unknown and alone with their value among the Unknown cells
    of their row and of their column have become Final; every other
    cell, and every value, is as before. *)
Theorem finalizeUniqueCells_finalizes_unique (t : Table) :
  shape_ok t -> counts_ok t ->
  exists t', finalizeUniqueCells t = Ok t' /\ size t' = size t
    /\ finalized_where (unique_unknown t) t t'.
Proof. exact (finalizeUniqueCells_result t). Qed.

Lemma finalizeUniqueCells_finalizes_unique_witness :
  shape_ok board_3x3 /\ counts_ok board_3x3
  /\ exists t', finalizeUniqueCells board_3x3 = Ok t' /\ size t' = size board_3x3
       /\ finalized_where (unique_unknown board_3x3) board_3x3 t'.
Proof.
  split; [exact (proj1 board_3x3_counts)|]. split; [exact (proj2 board_3x3_counts)|].
  exact (finalizeUniqueCells_finalizes_unique board_3x3 (proj1 board_3x3_counts)
           (proj2 board_3x3_counts)).
Defined.

(** X10.  A board of the invariant on which every cell is Unknown and
    alone with its value in its row and in its column is solved by the
    propagation alone: [solve] returns it with every cell Final, none
    Deleted and no value changed, without a single guess. *)
Theorem solve_without_guess t fuel :
  Inv t ->
  (forall r c cell, cell_at t r c = Some cell -> unique_unknown t r c = true) ->
  exists b, solve (S fuel) t = Ok b /\ size b = size t
    /\ forall r c, cell_at b r c
         = match cell_at t r c with
           | Some cell => Some (setState cell Final)
           | None => None
           end.
Proof.
  intros [Hs Hc Ht] Hall.
  destruct (finalizeUniqueCells_result t Hs Hc) as (b & Hb & Hsz & Hw).
  destruct (finalizeUniqueCells_spec t Hs Hc) as (b' & Hb' & Hsb & Hcb & _ & _ & Htb).
  rewrite Hb in Hb'. injection Hb' as <-. specialize (Htb Ht).
  assert (Hcells : forall r c, cell_at b r c
            = match cell_at t r c with
              | Some cell => Some (setState cell Final)
              | None => None
              end).
  { intros r c. rewrite Hw. destruct (cell_at t r c) as [cell|] eqn:E; [|done].
    by rewrite (Hall r c cell E). }
  exists b. split; [|done].
  rewrite solve_unfold, Hb, bind_ret.
  assert (isSolved b = true) as ->; [|done].
  unfold isSolved. apply Z.eqb_eq. rewrite (trees_unknown b Htb).
  rewrite no_unknown_unknowns; [done|].
  intros r c. unfold unknown_at. rewrite Hcells. by destruct (cell_at t r c).
Qed.

Lemma solve_without_guess_witness :
  Inv board_latin
  /\ exists b, solve 1 board_latin = Ok b /\ size b = size board_latin
       /\ forall r c, cell_at b r c
            = match cell_at board_latin r c with
              | Some cell => Some (setState cell Final)
              | None => None
              end.
Proof.
  split; [exact board_latin_Inv|].
  exact (solve_without_guess board_latin 0 board_latin_Inv board_latin_unique).
Defined.

(** ** finalizeCell and deleteCell *)

(** X11.  On a board with the shape and the counts of the invariant and
    at a position of the grid, [finalizeCell] and [deleteCell] raise
    MultipleStateChangeException exactly when the cell is not Unknown:
    the cascade they start on an Unknown cell never raises it. *)
Theorem state_change_refused t row column :
  shape_ok t -> counts_ok t -> 0 <= row < size t -> 0 <= column < size t ->
  forall fuel,
    (finalizeCell (S fuel) t row column = Throw MultipleStateChangeException
     <-> unknown_at t (Z.to_nat row) (Z.to_nat column) = false)
    /\ (deleteCell (S fuel) t row column = Throw MultipleStateChangeException
        <-> unknown_at t (Z.to_nat row) (Z.to_nat column) = false).
Proof.
  intros Hs Hc Hr Hcl fuel.
  destruct (shape_cell t row column Hs Hr Hcl) as (rw & cell & Hrw & Hcell & Hat).
  assert (Hu : unknown_at t (Z.to_nat row) (Z.to_nat column)
               = State_eqb (state cell) Unknown)
    by (unfold unknown_at, cell_at; by rewrite Hrw, Hcell).
  pose proof (board_ok_False t Hs Hc) as Hok.
  split; split.
  - intros H.
    pose proof (finalizeCell_any False True ltac:(done) (S fuel) t row column Hok
                  ltac:(by left)) as R.
    rewrite H in R. destruct R as [[_ ?] | [_ [? _]]]; done.
  - intros H. rewrite Hu in H. simpl. unfold finalizeCell_body.
    by rewrite Hat, bind_ret, H.
  - intros H.
    pose proof (deleteCell_any False True ltac:(done) (S fuel) t row column Hok
                  ltac:(by left)) as R.
    rewrite H in R. destruct R as [[_ ?] | [_ [? _]]]; done.
  - intros H. rewrite Hu in H. simpl. unfold deleteCell_body.
    by rewrite Hat, bind_ret, H.
Qed.

Lemma state_change_refused_witness :
  shape_ok board_3x3 /\ counts_ok board_3x3
  /\ (finalizeCell 1 board_3x3 0 0 = Throw MultipleStateChangeException
      <-> unknown_at board_3x3 0 0 = false).
Proof.
  split; [exact (proj1 board_3x3_counts)|]. split; [exact (proj2 board_3x3_counts)|].
  exact (proj1 (state_change_refused board_3x3 0 0 (proj1 board_3x3_counts)
                  (proj2 board_3x3_counts) ltac:(simpl; lia) ltac:(simpl; lia) 0%nat)).
Defined.

(** X12.  When [finalizeCell] returns, the cell it was called on was
    Unknown and is now Final with the same value, and the board has the
    cells of the board it was given except that Unknown cells may have
    been decided: no value has changed and no cell that was Final or
    Deleted has changed its state. *)
Theorem finalizeCell_decides fuel t row column t' :
  finalizeCell fuel t row column = Ok t' ->
  exists cell, at2 (cells t) row column = Ok cell /\ state cell = Unknown
    /\ at2 (cells t') row column = Ok (setState cell Final) /\ keeps t t'.
Proof.
  intros H. destruct fuel as [|fuel]; [done|]. simpl in H.
  pose proof (finalizeCell_body_trace (deleteCell fuel)
                (proj2 (cascade_decisions fuel)) t row column) as R.
  rewrite H in R. destruct R as (cell & t1 & t2 & Hat & Hst & H1 & H2 & Hd).
  exists cell. split; [done|]. split; [done|].
  assert (Hd1 : decision t t2) by (by eapply decision_final).
  split; [|eapply keeps_trans; [by apply decision_keeps | by apply decisions_keeps]].
  apply set_cell_state_cell_at in H1 as (cell' & Hat' & _ & Hcells). same_ok.
  apply decrement_counts_fields in H2 as (_ & Hc2 & _).
  pose proof Hat as Hat2. apply at2_Ok in Hat2 as (_ & ? & ? & _).
  apply (decided_cell t2); [done..| |by apply decisions_keeps].
  specialize (Hcells (Z.to_nat row) (Z.to_nat column)).
  rewrite decide_True in Hcells by done. rewrite <- Hcells.
  unfold cell_at. by rewrite Hc2.
Qed.

Lemma finalizeCell_decides_witness :
  finalizeCell 1 board_latin 0 0 = Ok latin_finalized
  /\ exists cell, at2 (cells board_latin) 0 0 = Ok cell /\ state cell = Unknown
       /\ at2 (cells latin_finalized) 0 0 = Ok (setState cell Final)
       /\ keeps board_latin latin_finalized.
Proof.
  assert (H : finalizeCell 1 board_latin 0 0 = Ok latin_finalized) by reflexivity.
  split; [exact H|]. exact (finalizeCell_decides 1 board_latin 0 0 latin_finalized H).
Defined.

(** X13.  When [deleteCell] returns, the cell it was called on was
    Unknown, the two topology checks passed on the board it was given,
    the cell is now Deleted with the same value, and no value and no
    cell that was Final or Deleted has changed. *)
Theorem deleteCell_decides fuel t row column t' :
  deleteCell fuel t row column = Ok t' ->
  exists cell ds, at2 (cells t) row column = Ok cell /\ state cell = Unknown
    /\ deleteCell_checks t row column = Ok ds
    /\ at2 (cells t') row column = Ok (setState cell Deleted) /\ keeps t t'.
Proof.
  intros H. destruct fuel as [|fuel]; [done|]. simpl in H.
  pose proof (deleteCell_body_trace (finalizeCell fuel)
                (proj1 (cascade_decisions fuel)) t row column) as R.
  rewrite H in R. destruct R as (cell & ds & t1 & t2 & Hat & Hst & Hds & H1 & H2 & Hd).
  exists cell, ds. split; [done|]. split; [done|]. split; [done|].
  assert (Hd1 : decision t t2) by (by eapply decision_deleted).
  split; [|eapply keeps_trans; [by apply decision_keeps | by apply decisions_keeps]].
  apply set_cell_state_cell_at in H1 as (cell' & Hat' & _ & Hcells).
  simpl in Hat'. same_ok.
  apply decrement_counts_fields in H2 as (_ & Hc2 & _).
  pose proof Hat as Hat2. apply at2_Ok in Hat2 as (_ & ? & ? & _).
  apply (decided_cell t2); [done..| |by apply decisions_keeps].
  specialize (Hcells (Z.to_nat row) (Z.to_nat column)).
  rewrite decide_True in Hcells by done. rewrite <- Hcells.
  unfold cell_at. by rewrite Hc2.
Qed.

Lemma deleteCell_decides_witness :
  deleteCell 2 board_latin 0 0 = Ok latin_deleted
  /\ exists cell ds, at2 (cells board_latin) 0 0 = Ok cell /\ state cell = Unknown
       /\ deleteCell_checks board_latin 0 0 = Ok ds
       /\ at2 (cells latin_deleted) 0 0 = Ok (setState cell Deleted)
       /\ keeps board_latin latin_deleted.
Proof.
  assert (H : deleteCell 2 board_latin 0 0 = Ok latin_deleted) by reflexivity.
  split; [exact H|]. exact (deleteCell_decides 2 board_latin 0 0 latin_deleted H).
Defined.

(** X14.  When the topology checks of [deleteCell] pass on a board of
    the invariant, the forest they leave is well-formed and only coarser
    than the forest of the board: the cell's element shares its set
    with the element of every Deleted diagonal neighbour and, if the
    cell lies on the border, with the border element 0, and elements
    that shared a set before still do. *)
Theorem deleteCell_checks_unite t row column ds :
  Inv t -> 0 <= row < size t -> 0 <= column < size t ->
  deleteCell_checks t row column = Ok ds ->
  forest_kept (Z.to_nat (size t * size t + 1)) ds
  /\ (forall d, In d (deleted_diagonals t row column) ->
        same_set (parents ds) d (element_of t (row, column)))
  /\ (touches_border t row column = true ->
      same_set (parents ds) 0 (element_of t (row, column)))
  /\ (forall a b, same_set (parents (deletedTrees t)) a b ->
                  same_set (parents ds) a b).
Proof.
  intros [Hs Hc Ht] Hr Hcl H.
  pose proof (trees_bound t Ht) as Hb. pose proof (shape_size t Hs) as Hsz.
  rewrite deleteCell_checks_run in H by done.
  destruct (has_deleted_neighbor t row column); [done|].
  apply bind_Ok in H as (ds0 & H0 & H).
  set (len := Z.to_nat (size t * size t + 1)) in *.
  assert (Hk : forest_kept len (deletedTrees t)).
  { split; [apply (trees_length t Ht) | apply (trees_forest t Ht)]. }
  assert (Hcell : 0 <= element_of t (row, column) < Z.of_nat len).
  { unfold element_of, len. simpl. nia. }
  assert (H0' : forest_kept len ds0
                /\ (touches_border t row column = true ->
                    same_set (parents ds0) 0 (element_of t (row, column)))
                /\ forall a b, same_set (parents (deletedTrees t)) a b ->
                               same_set (parents ds0) a b).
  { unfold border_union in H0. destruct (touches_border t row column).
    - destruct (unionSets_spec (deletedTrees t) 0 (element_of t (row, column)))
        as (ds0' & E & Hl & Hf); [apply Hk | destruct Hk as [-> _]; lia
                                  | destruct Hk as [-> _]; lia |].
      rewrite H0 in E. injection E as <-.
      destruct (unionSets_joins len (deletedTrees t) 0 _ ds0 Hk ltac:(lia) Hcell H0)
        as [Hj Hmono].
      split; [|by auto]. destruct Hk as [Hl' _]. split; [congruence | done].
    - injection H0 as <-. split; [done|]. split; [done | auto]. }
  destruct H0' as (Hk0 & Hborder & Hmono0).
  destruct (unite_all_joins len _ Hcell _ ds0 ds
              ltac:(intros d Hd; apply (deleted_diagonals_range t row column d);
                    [lia | done | done])
              Hk0 H) as (Hk' & Hmono & Hin).
  split; [done|]. split; [done|]. split; [by auto | by auto].
Qed.

Lemma deleteCell_checks_unite_witness :
  Inv board_latin /\ deleteCell_checks board_latin 0 0 = Ok latin_checked
  /\ same_set (parents latin_checked) 0 (element_of board_latin (0, 0)).
Proof.
  assert (H : deleteCell_checks board_latin 0 0 = Ok latin_checked) by reflexivity.
  split; [exact board_latin_Inv|]. split; [exact H|].
  destruct (deleteCell_checks_unite board_latin 0 0 latin_checked board_latin_Inv
              ltac:(simpl; lia) ltac:(simpl; lia) H) as (_ & _ & Hb & _).
  exact (Hb eq_refl).
Defined.

(** X15.  On every board built by the constructor and the methods of
    Table, no two Deleted cells are orthogonally adjacent: a Deleted
    cell has no Deleted cell to its left, below, to its right or
    above. *)
Theorem reachable_no_adjacent_deleted (t : Table) :
  reachable t -> no_adjacent_deleted t.
Proof. exact (reachable_no_adjacent t). Qed.

Lemma reachable_no_adjacent_deleted_witness :
  reachable latin_deleted /\ no_adjacent_deleted latin_deleted.
Proof.
  assert (H : reachable latin_deleted).
  { apply (reachable_deleteCell 2 board_latin 0 0); [|reflexivity].
    apply (reachable_new puzzle_latin). reflexivity. }
  split; [exact H|]. exact (reachable_no_adjacent_deleted latin_deleted H).
Defined.

(** ** solve *)

(** X16.  Whatever board it is given, a board returned by [solve] has
    [unknownCellCount] 0, the same side and the same values, and every
    cell that was Final or Deleted in the board given still is. *)
Theorem solve_keeps (fuel : nat) (t b : Table) :
  solve fuel t = Ok b -> isSolved b = true /\ keeps t b.
Proof.
  intros H. pose proof (solve_decisions fuel t) as R. rewrite H in R.
  destruct R as [Hd Hsol]. split; [done|]. by apply decisions_keeps.
Qed.

Lemma solve_keeps_witness :
  solve 5 board_2x2 = Ok solved_2x2
  /\ isSolved solved_2x2 = true /\ keeps board_2x2 solved_2x2.
Proof.
  assert (H : solve 5 board_2x2 = Ok solved_2x2) by reflexivity.
  split; [exact H|]. exact (solve_keeps 5 board_2x2 solved_2x2 H).
Defined.

(** X17.  A board returned by [solve] on a board of the invariant
    satisfies the invariant again and has no Unknown cell left: every
    cell is Final or Deleted. *)
Theorem solve_decides_every_cell (fuel : nat) (t b : Table) :
  Inv t -> solve fuel t = Ok b ->
  Inv b /\ forall r c, unknown_at b r c = false.
Proof.
  intros HI H. destruct (solve_Inv fuel t b HI H) as (? & _ & _ & ?). done.
Qed.

Lemma solve_decides_every_cell_witness :
  Inv board_2x2 /\ solve 5 board_2x2 = Ok solved_2x2
  /\ Inv solved_2x2 /\ forall r c, unknown_at solved_2x2 r c = false.
Proof.
  assert (H : solve 5 board_2x2 = Ok solved_2x2) by reflexivity.
  split; [exact board_2x2_Inv|]. split; [exact H|].
  exact (solve_decides_every_cell 5 board_2x2 solved_2x2 board_2x2_Inv H).
Defined.

(** X18.  On a board of the invariant, with fuel above the number of
    Unknown cells, [solve] returns a board or raises
    NoSolutionExistsException: it never raises range_error, logic_error
    or MultipleStateChangeException and never reads outside a vector. *)
Theorem solve_only_contradictions (fuel : nat) (t : Table) :
  Inv t -> (unknowns t < fuel)%nat ->
  rpred (fun _ => True) is_contradiction False False (solve fuel t).
Proof. exact (solve_safe fuel t). Qed.

Lemma solve_only_contradictions_witness :
  Inv board_2x2 /\ (unknowns board_2x2 < 5)%nat
  /\ rpred (fun _ => True) is_contradiction False False (solve 5 board_2x2).
Proof.
  assert (H : (unknowns board_2x2 < 5)%nat) by (vm_compute; lia).
  split; [exact board_2x2_Inv|]. split; [exact H|].
  exact (solve_only_contradictions 5 board_2x2 board_2x2_Inv H).
Defined.

(** X19.  A board returned by [solve] on a board built by the
    constructor and the methods of Table is such a board again, and no
    two of its Deleted cells are orthogonally adjacent. *)
Theorem solve_no_adjacent_deleted (fuel : nat) (t b : Table) :
  reachable t -> solve fuel t = Ok b -> reachable b /\ no_adjacent_deleted b.
Proof.
  intros Hr H. pose proof (solve_reachable fuel t b Hr H) as Hb.
  split; [done|]. by apply reachable_no_adjacent.
Qed.

Lemma solve_no_adjacent_deleted_witness :
  reachable board_2x2 /\ solve 5 board_2x2 = Ok solved_2x2
  /\ reachable solved_2x2 /\ no_adjacent_deleted solved_2x2.
Proof.
  assert (H : solve 5 board_2x2 = Ok solved_2x2) by reflexivity.
  assert (Hr : reachable board_2x2) by (apply (reachable_new puzzle_2x2); reflexivity).
  split; [exact Hr|]. split; [exact H|].
  exact (solve_no_adjacent_deleted 5 board_2x2 solved_2x2 Hr H).
Defined.

(** X20.  [solve] is idempotent: given a board it returned (on a board
    of the invariant), it returns that very board. *)
Theorem solve_idempotent (fuel fuel' : nat) (t b : Table) :
  Inv t -> solve fuel t = Ok b -> solve (S fuel') b = Ok b.
Proof.
  intros HI H. destruct (solve_Inv fuel t b HI H) as (HIb & Hsol & _).
  by apply solved_at_rest.
Qed.

Lemma solve_idempotent_witness :
  Inv board_2x2 /\ solve 5 board_2x2 = Ok solved_2x2
  /\ solve 1 solved_2x2 = Ok solved_2x2.
Proof.
  assert (H : solve 5 board_2x2 = Ok solved_2x2) by reflexivity.
  split; [exact board_2x2_Inv|]. split; [exact H|].
  exact (solve_idempotent 5 0 board_2x2 solved_2x2 board_2x2_Inv H).
Defined.

(** X21.  Building a board from a matrix of unsigned values of side N,
    with N*N + 1 below 2^31, and running [solve] on it with fuel above
    N*N ends in one of three ways: the constructor rejects the matrix
    with its exception, [solve] raises NoSolutionExistsException, or a
    board is returned that has [unknownCellCount] 0, side N, no Unknown
    cell, no two orthogonally adjacent Deleted cells, and at every
    position the value of the matrix.  Nothing is read outside a vector
    and no other exception is raised. *)
Theorem construct_and_solve (initValues : list (list Z)) (fuel : nat) :
  Z.of_nat (length initValues) * Z.of_nat (length initValues) + 1 < 2 ^ 31 ->
  Forall (Forall (fun v => 0 <= v)) initValues ->
  Z.of_nat (length initValues) * Z.of_nat (length initValues) < Z.of_nat fuel ->
  rpred (solution_of initValues)
    (fun e => rejected (Z.of_nat (length initValues)) initValues e
              \/ is_contradiction e) False False
    (t <- Table_new initValues ;; solve fuel t).
Proof.
  set (n := Z.of_nat (length initValues)). intros Hb Hpos Hfuel.
  assert (Hn : n + 1 < 2 ^ 32) by (unfold n in *; nia).
  pose proof (Table_new_run initValues Hn Hpos) as R.
  destruct (Table_new initValues) as [t|e| |] eqn:Hnew; simpl in R; try done;
    [|by left].
  destruct R as (Hwf & Hsz & Hcells). rewrite bind_ret.
  assert (HI : Inv t) by (apply (Table_new_Inv initValues); [done | by rewrite Hsz]).
  assert (Hu : (unknowns t < fuel)%nat).
  { pose proof (trees_unknown t (Inv_trees t HI)) as E.
    apply Table_new_spec in Hnew as _.
    assert (unknowns t <= dim t * dim t)%nat; [|unfold dim in *; nia].
    unfold unknowns.
    assert (Hsum : forall m f k, (forall i, (i < m)%nat -> (f i <= k)%nat) ->
              (sum_upto m f <= m * k)%nat).
    { induction m as [|m IH]; intros f k Hf; [done|]. simpl.
      pose proof (Hf m ltac:(lia)). pose proof (IH f k ltac:(intros; apply Hf; lia)).
      lia. }
    apply Hsum. intros i _. apply count_upto_le. }
  pose proof (solve_safe fuel t HI Hu) as S.
  destruct (solve fuel t) as [b|e| |] eqn:Hsolve; simpl in S; try done; [|by right].
  simpl. destruct (solve_Inv fuel t b HI Hsolve) as (HIb & Hsol & [Hsize Hk] & Hno).
  split; [done|]. split; [congruence|]. split; [done|]. split.
  - apply reachable_no_adjacent. apply (solve_reachable fuel t); [|done].
    by apply (reachable_new initValues).
  - intros r row c v Hrow Hv. specialize (Hk r c).
    rewrite (fresh_cell_at t initValues r c Hcells), Hrow, Hv in Hk.
    destruct (cell_at b r c) as [cell|]; [|done]. simpl in Hk.
    exists cell. split; [done|]. by destruct Hk.
Qed.

Lemma construct_and_solve_witness :
  rpred (solution_of puzzle_2x2)
    (fun e => rejected (Z.of_nat (length puzzle_2x2)) puzzle_2x2 e
              \/ is_contradiction e) False False
    (t <- Table_new puzzle_2x2 ;; solve 5 t).
Proof.
  apply (construct_and_solve puzzle_2x2 5); [vm_compute; reflexivity | | simpl; lia].
  repeat constructor; lia.
Defined.

(** ** getFinalizeCandidatePos *)

(** X22.  On a well-shaped board of side at least 1,
    [getFinalizeCandidatePos] returns a position of the grid. *)
Theorem getFinalizeCandidatePos_in_grid t :
  shape_ok t -> 0 < size t ->
  exists row column, getFinalizeCandidatePos t = Ok (row, column)
    /\ 0 <= row < size t /\ 0 <= column < size t.
Proof.
  intros Hs Hpos. rewrite getFinalizeCandidatePos_run by done.
  pose proof (dim_bound t Hs) as Hd.
  destruct (fold_best t (scan t) (0, 0, 0)) as [[-> _] | (l1 & x & l2 & E & -> & _)].
  - exists 0, 0. split; [done | lia].
  - destruct x as [[r c] v]. simpl.
    assert (Hin : In (r, c, v) (scan t)) by (rewrite E; apply in_elt).
    apply scan_In in Hin as (? & ? & _). eexists _, _. split; [done | lia].
Qed.

Lemma getFinalizeCandidatePos_in_grid_witness :
  shape_ok board_3x3 /\ 0 < size board_3x3
  /\ exists row column, getFinalizeCandidatePos board_3x3 = Ok (row, column)
       /\ 0 <= row < size board_3x3 /\ 0 <= column < size board_3x3.
Proof.
  split; [exact (proj1 board_3x3_counts)|]. split; [reflexivity|].
  exact (getFinalizeCandidatePos_in_grid board_3x3 (proj1 board_3x3_counts) eq_refl).
Defined.

(** X23.  On a well-shaped board without an Unknown cell,
    [getFinalizeCandidatePos] returns the position (0, 0) it starts
    from. *)
Theorem getFinalizeCandidatePos_no_unknown t :
  shape_ok t -> (forall r c, unknown_at t r c = false) ->
  getFinalizeCandidatePos t = Ok (0, 0).
Proof.
  intros Hs Hu. apply getFinalizeCandidatePos_default; [done|].
  intros [[r c] v] Hin. apply scan_In in Hin as (_ & _ & _ & H).
  by rewrite Hu in H.
Qed.

Lemma getFinalizeCandidatePos_no_unknown_witness :
  shape_ok solved_2x2 /\ (forall r c, unknown_at solved_2x2 r c = false)
  /\ getFinalizeCandidatePos solved_2x2 = Ok (0, 0).
Proof.
  destruct (solve_Inv 5 board_2x2 solved_2x2 board_2x2_Inv eq_refl)
    as ([Hs _ _] & _ & _ & Hu).
  split; [exact Hs|]. split; [exact Hu|].
  exact (getFinalizeCandidatePos_no_unknown solved_2x2 Hs Hu).
Defined.

(** X24.  The score [rowCounts[r][v] + columnCounts[c][v] - 1] is
    computed in unsigned arithmetic: where both counts are 0 it wraps to
    2^32 - 1, which no score exceeds.  So when the scan meets an Unknown
    cell and a value with no Unknown cell of that value left in the
    cell's row and column, the first such entry of the scan gives the
    position returned. *)
Theorem getFinalizeCandidatePos_wraps t l1 r c v l2 :
  shape_ok t -> scan t = l1 ++ (r, c, v) :: l2 ->
  count_in (rowCounts t) r v = Some 0 -> count_in (columnCounts t) c v = Some 0 ->
  (forall y, In y l1 -> score t y < 2 ^ 32 - 1) ->
  getFinalizeCandidatePos t = Ok (Z.of_nat r, Z.of_nat c).
Proof.
  intros Hs Hscan Hr Hc Hl1.
  assert (Hx : score t (r, c, v) = 2 ^ 32 - 1).
  { unfold score. rewrite Hr, Hc. done. }
  rewrite getFinalizeCandidatePos_run by done.
  destruct (fold_best t (scan t) (0, 0, 0)) as [[_ Hle] | (l1' & x' & l2' & E & -> & _ & H1 & H2)].
  - specialize (Hle (r, c, v)). rewrite Hscan in Hle.
    specialize (Hle ltac:(apply in_elt)). rewrite Hx in Hle. simpl in Hle. lia.
  - simpl. rewrite Hscan in E.
    assert (x' = (r, c, v)) as ->; [|done]. symmetry.
    apply (first_max_unique (score t) _ _ _ _ _ _ E); auto.
    + intros y Hy. rewrite Hx. by apply Hl1.
    + intros y _. rewrite Hx. pose proof (score_range t y). lia.
Qed.

Lemma getFinalizeCandidatePos_wraps_witness :
  count_in (rowCounts board_2x2) 0 2 = Some 0
  /\ count_in (columnCounts board_2x2) 0 2 = Some 0
  /\ score board_2x2 (0, 0, 2)%nat = 2 ^ 32 - 1
  /\ getFinalizeCandidatePos board_2x2 = Ok (Z.of_nat 0, Z.of_nat 0).
Proof.
  split; [reflexivity|]. split; [reflexivity|]. split; [reflexivity|].
  apply (getFinalizeCandidatePos_wraps board_2x2 [(0, 0, 1)%nat] 0 0 2
           (skipn 2 (scan board_2x2)) (Inv_shape _ board_2x2_Inv));
    [reflexivity | reflexivity | reflexivity |].
  intros y [<- | []]. reflexivity.
Defined.

(** ** operator<< *)

(** X25.  A well-shaped board is printed as a grid: [digits] is the
    number of decimal digits of the side, and every line holds, for
    each of the N cells, a field of [digits] characters followed by a
    blank, then the end of line; no value is wider than its field. *)
Theorem print_table_grid t :
  shape_ok t ->
  exists digits,
    print_table t = Ok (flat_map (print_row digits) (cells t))
    /\ 1 <= digits /\ size t < 10 ^ digits /\ (1 < digits -> 10 ^ (digits - 1) <= size t)
    /\ forall row, In row (cells t) ->
         Z.of_nat (length (print_row digits row)) = size t * (digits + 1) + 1.
Proof.
  intros Hs. pose proof (shape_size t Hs) as Hsz.
  destruct (digits_run (S (Z.to_nat (size t))) (size t) 0) as (k & E & _ & Hk & Hlt & Hge);
    [lia..|].
  exists k. unfold print_table. rewrite E. simpl. split; [done|]. split_and!; [done..|].
  intros row Hrow. unfold print_row. rewrite length_app. simpl.
  rewrite (flat_map_length_const _ _ (Z.to_nat (k + 1))).
  - apply list_elem_of_In, list_elem_of_lookup in Hrow as [r Hr].
    rewrite (shape_rows t Hs _ _ Hr). unfold dim. nia.
  - intros cell Hcell. unfold print_cell. rewrite length_app. simpl.
    apply Nat2Z.inj. rewrite Nat2Z.inj_add, setw_length; [lia|].
    destruct (state cell); simpl; [lia | | lia].
    apply (decimal_length _ (size t)); [|done].
    pose proof (shape_values_in t row cell Hs Hrow Hcell). lia.
Qed.

Lemma print_table_grid_witness :
  shape_ok board_3x3
  /\ exists digits,
       print_table board_3x3 = Ok (flat_map (print_row digits) (cells board_3x3))
       /\ 1 <= digits.
Proof.
  split; [exact (proj1 board_3x3_counts)|].
  destruct (print_table_grid board_3x3 (proj1 board_3x3_counts))
    as (digits & H & Hd & _).
  by exists digits.
Defined.
